(** * The µRaiden client of web3test-app: channel store, chain scanner,
      balance proofs and channel lifecycle

    Shallow embedding of [src/lib/uraiden.ts] (class [MicroRaiden]).

    - JavaScript [number]s that hold block numbers and the challenge period
      are naturals ([N]); [BigNumber] (bn.js) values are integers ([Z]).
    - The client object is a record ([Client]); every method is a function
      in a state-and-exception monad over a [World] = client + localStorage
      + the list of calls made to the channel manager contract.
    - The blockchain is a read-only snapshot ([Chain]): an event log, the
      [getChannelInfo] view, the current block and the challenge period.
    - A JavaScript string is a [string] here: its characters stand for
      UTF-16 code units below 256, which is all that addresses, hexadecimal
      text, signatures and storage keys need.  [encodeHex], which looks at
      the code units of its argument, takes them as a list of numbers, so
      that it is defined on every JavaScript string.
    - Proof objects are passed by value.  The only in-place update of a
      proof in the source is [proof.sig = sig] in [signNewProof], on the
      very object that is stored into the channel right after, so values
      and references agree on every state the methods below produce. *)

From Stdlib Require Import ZArith NArith List String Ascii Bool Lia.
From Stdlib Require Import DecimalString HexadecimalString HexadecimalPos.
From Stdlib Require Import DecimalN HexadecimalN HexadecimalFacts.
From stdpp Require Import base option list strings gmap.

Open Scope string_scope.
Open Scope Z_scope.

#[local] Set Warnings "-register-all".

(** ** JavaScript helpers *)

Module JS.

(** [!!s] for a string: the empty string is falsy. *)
Definition truthy_string (s : string) : bool :=
  match s with
  | EmptyString => false
  | String _ _ => true
  end.

(** [!!o] for an optional string property ([undefined] is falsy). *)
Definition truthy (o : option string) : bool :=
  match o with
  | Some s => truthy_string s
  | None => false
  end.

(** [hay.includes(needle)] *)
Fixpoint includes (needle hay : string) : bool :=
  String.prefix needle hay ||
  match hay with
  | EmptyString => false
  | String _ rest => includes needle rest
  end.

(** [msg.startsWith(p)] *)
Definition startsWith (p msg : string) : bool := String.prefix p msg.

(** [n] characters ['0']. *)
Fixpoint zeros (n : nat) : string :=
  match n with
  | O => EmptyString
  | S k => String "0" (zeros k)
  end.

(** [s.padStart(len, '0')] *)
Definition padStart (len : nat) (s : string) : string :=
  zeros (len - String.length s) ++ s.

(** The UTF-16 code units of a string of the model. *)
Definition code_units (s : string) : list N :=
  map N_of_ascii (list_ascii_of_string s).

(** High and low surrogates. *)
Definition is_high (u : N) : bool := (55296 <=? u)%N && (u <=? 56319)%N.
Definition is_low (u : N) : bool := (56320 <=? u)%N && (u <=? 57343)%N.

(** [Array.from(s).map(char => char.charCodeAt(0))]: the string iterator
    yields one element per code point, that is a high surrogate together
    with the low surrogate that follows it, and every other code unit on
    its own; [charCodeAt(0)] is the first code unit of the element. *)
Fixpoint char_codes (units : list N) : list N :=
  match units with
  | [] => []
  | u :: rest =>
      match rest with
      | l :: rest' =>
          if is_high u && is_low l then u :: char_codes rest'
          else u :: char_codes rest
      | [] => [u]
      end
  end.

(** [a === b] on optional strings. *)
Definition strict_eq (a b : option string) : bool :=
  match a, b with
  | Some x, Some y => String.eqb x y
  | None, None => true
  | _, _ => false
  end.

End JS.

(** ** bn.js

    [BigNumber] is the default export of bn.js: arbitrary-precision
    integers.  The library is a dependency, not part of the sources; the
    three functions below follow its documented behaviour:
    [toString(base)], [toJSON()] (an alias of [toString(16)], which is what
    [JSON.stringify] calls on a BN), and the constructor [new BN(s)] on a
    string, which reads [s] in base 10 (the default base).  The value of a
    character is the one of [parseBase] in bn.js 4, which accepts letters
    in every base; on strings of decimal digits there is nothing to
    choose. *)

Module BN.

Definition hex_of_N (n : N) : string :=
  HexadecimalString.NilZero.string_of_uint (N.to_hex_uint n).

Definition dec_of_N (n : N) : string :=
  DecimalString.NilZero.string_of_uint (N.to_uint n).

(** [bn.toString()], [bn.toString(10)] *)
Definition toString (z : Z) : string :=
  match z with
  | Zneg p => "-" ++ dec_of_N (Npos p)
  | _ => dec_of_N (Z.to_N z)
  end.

(** [bn.toString(16)] *)
Definition toString16 (z : Z) : string :=
  match z with
  | Zneg p => "-" ++ hex_of_N (Npos p)
  | _ => hex_of_N (Z.to_N z)
  end.

(** [bn.toJSON()] *)
Definition toJSON (z : Z) : string := toString16 z.

(** Value of one character in bn.js's [parseBase]: ['0'..'9'] are 0..9,
    ['A'..] and ['a'..] start at 10. *)
Definition digit (ch : ascii) : Z :=
  let c := Z.of_N (N_of_ascii ch) - 48 in
  if 49 <=? c then c - 49 + 10
  else if 17 <=? c then c - 17 + 10
  else c.

Fixpoint parseBase (acc : Z) (mul : Z) (s : string) : Z :=
  match s with
  | EmptyString => acc
  | String ch rest => parseBase (acc * mul + digit ch) mul rest
  end.

(** [new BN(s)]: optional leading minus sign, then base-10 digits. *)
Definition ofString (s : string) : Z :=
  match s with
  | String "-" rest => - parseBase 0 10 rest
  | _ => parseBase 0 10 s
  end.

(** [bn.gt(num)] called with a JavaScript number, as in [info[1].gt(0)].
    [gt(num)] is [cmp(num) === 1], and [cmp] is written for a BN argument:
    it reads [num.negative], which is [undefined] on a number.  Its first
    test, [this.negative !== 0 && num.negative === 0], fails; its second,
    [this.negative === 0 && num.negative !== 0], holds for every BN that
    is not negative, and [cmp] answers 1.  A negative BN goes on to
    [ucmp], which reads [num.words[i]] and raises a TypeError ([None]
    here).  The value of the number plays no part. *)
Definition gt_number (a : Z) (num : Z) : option bool :=
  if 0 <=? a then Some true else None.

(** [bn.eqn(num)], that is [cmpn(num) === 0], on a BN and a number that
    are not negative.  [cmpn] answers 1 for every BN of more than one
    26-bit word; for a BN of one word it asserts [num <= 0x3ffffff]
    ('Number is too big', [inl] here) and then compares the word with the
    number. *)
Definition eqn (a : N) (num : N) : string + bool :=
  if (2 ^ 26 <=? a)%N then inr false
  else if (67108863 <? num)%N then inl "Number is too big"
  else inr (a =? num)%N.

End BN.

(** ** encodeHex *)

(** [code.toString(16).padStart(2, '0')] *)
Definition hex2 (code : N) : string := JS.padStart 2 (BN.hex_of_N code).

(** [encodeHex(val)] on a string, given by its code units, without
    padding: the code of each character in hexadecimal, on two digits at
    least. *)
Definition encodeHex (val : list N) : string :=
  fold_right (fun code rest => hex2 code ++ rest) EmptyString
             (JS.char_codes val).

(** The first argument of [encodeHex]: a string, or a number or
    BigNumber (an integer). *)
Inductive HexVal :=
| HexStr (units : list N)
| HexNum (n : Z).

(** [encodeHex(val, zPadLength)] in full; [encodeHex] above is its
    string case without padding. *)
Definition encodeHex_padded (val : HexVal) (zPadLength : option nat) : string :=
  JS.padStart (default O zPadLength)
              (match val with
               | HexNum n => BN.toString16 n
               | HexStr units => encodeHex units
               end).

(** ** JSON values

    [localStorage] holds text; an item is represented by the JSON value
    that its text denotes ([JSON.parse (JSON.stringify v)] is [v] on such
    values).  Items that are not JSON text are outside the model. *)

Inductive JSON :=
| JNull
| JBool (b : bool)
| JNum (n : Z)
| JStr (s : string)
| JArr (items : list JSON)
| JObj (fields : list (string * JSON)).

Module Json.

Fixpoint assoc (k : string) (fs : list (string * JSON)) : option JSON :=
  match fs with
  | [] => None
  | (k', v) :: rest => if String.eqb k k' then Some v else assoc k rest
  end.

(** Property access [j.k] on a parsed value: [undefined] on anything
    that is not an object with that key. *)
Definition get (k : string) (j : JSON) : option JSON :=
  match j with
  | JObj fs => assoc k fs
  | _ => None
  end.

(** [!!j]; [None] stands for [undefined]. *)
Definition truthy (j : option JSON) : bool :=
  match j with
  | None | Some JNull => false
  | Some (JBool b) => b
  | Some (JNum n) => negb (n =? 0)
  | Some (JStr s) => JS.truthy_string s
  | Some (JArr _) | Some (JObj _) => true
  end.

(** An optional member: absent when the list is empty. *)
Definition member (k : string) (v : option JSON) : list (string * JSON) :=
  match v with
  | Some j => [(k, j)]
  | None => []
  end.

End Json.

(** ** Data model *)

(** [MicroProof] *)
Record MicroProof := mkProof {
  balance : Z;
  sig : option string
}.

(** [MicroChannel] *)
Record MicroChannel := mkChannel {
  account : string;
  receiver : string;
  block : N;
  proof : MicroProof;
  next_proof : option MicroProof;
  closing_sig : option string
}.

(** The three values of [MicroChannelInfo.state]. *)
Inductive ChannelState := opened | closed | settled.

(** [MicroChannelInfo]; the field [block] is [info_block] here. *)
Record MicroChannelInfo := mkInfo {
  state : ChannelState;
  info_block : N;
  deposit : Z;
  withdrawn : Z
}.

(** [TypedData] of eth-sig-util. *)
Record TypedData := mkTyped {
  td_type : string;
  td_name : string;
  td_value : string
}.

(** ** Contract events

    [returnValues] of the three events of the channel manager
    ([ChannelCreatedArgs], [ChannelCloseRequestedArgs],
    [ChannelSettledArgs]). *)

Inductive EventName := ChannelCreated | ChannelCloseRequested | ChannelSettled.

Inductive ReturnValues :=
| CreatedArgs (_sender_address _receiver_address : string)
| CloseRequestedArgs (_sender_address _receiver_address : string)
                     (_open_block_number : N)
| SettledArgs (_sender_address _receiver_address : string)
              (_open_block_number : N).

Record EventLog := mkEvent {
  blockNumber : N;
  returnValues : ReturnValues
}.

Definition event (ev : EventLog) : EventName :=
  match returnValues ev with
  | CreatedArgs _ _ => ChannelCreated
  | CloseRequestedArgs _ _ _ => ChannelCloseRequested
  | SettledArgs _ _ _ => ChannelSettled
  end.

Definition _sender_address (ev : EventLog) : string :=
  match returnValues ev with
  | CreatedArgs s _ | CloseRequestedArgs s _ _ | SettledArgs s _ _ => s
  end.

Definition _receiver_address (ev : EventLog) : string :=
  match returnValues ev with
  | CreatedArgs _ r | CloseRequestedArgs _ r _ | SettledArgs _ r _ => r
  end.

Definition _open_block_number (ev : EventLog) : option N :=
  match returnValues ev with
  | CreatedArgs _ _ => None
  | CloseRequestedArgs _ _ b | SettledArgs _ _ b => Some b
  end.

Definition EventName_eqb (a b : EventName) : bool :=
  match a, b with
  | ChannelCreated, ChannelCreated
  | ChannelCloseRequested, ChannelCloseRequested
  | ChannelSettled, ChannelSettled => true
  | _, _ => false
  end.

(** ** Errors and results *)

(** One constructor per [throw] of the source (the message is in the
    comment), [TypeError] for a property read on [undefined] (the deleted
    [this.channel], the [words] of a number handed to bn.js), and
    [ExternalError] for what a collaborator (provider, contract call,
    eth-sig-util, an assertion of bn.js) raises, with its message. *)
Inductive Error :=
| InvalidChallenge            (* 'Invalid challenge' *)
| NoChannelFound              (* 'No channel found for this account' *)
| NoOpenValidChannel (stillOpen : nat)
                              (* 'No open and valid channels found from ' + n *)
| NoValidChannelInfo          (* 'No valid channelInfo' *)
| InvalidChannelDeposit       (* 'Invalid channel deposit: ' + info *)
| NotClosed (st : ChannelState)
                              (* 'Tried settling opened or settled channel: ' *)
| InsideChallengePeriod (currentBlock closeBlock period : N)
                              (* 'Tried settling inside challenge period: ' *)
| InvalidRecoveredSignature (recovered : string)
                              (* 'Invalid recovered signature: ' *)
| ClosedChannelSigning        (* 'Tried signing on closed channel' *)
| FundError (current required : Z)
                              (* 'Insuficient funds: current = , required = ' *)
| InvalidNextSignature        (* 'Invalid provided or stored next signature' *)
| MissingSignature            (* 'Proof must contain a signature and ...' *)
| TypeError
| IllTypedStoredChannel
    (* not raised by the source: the stored JSON value passes the guards of
       [loadStoredChannel] but has not the shape of a [MicroChannel], which
       the source takes for granted ([JSON.parse] returns [any]); the typed
       embedding stops there *)
| ExternalError (message : string).

(** A promise is fulfilled, rejected, or still pending when the polling
    budget of [waitTx] is used up. *)
Inductive Result (A : Type) :=
| Ok (a : A)
| Throw (e : Error)
| Pending.

Arguments Ok {A} a.
Arguments Throw {A} e.
Arguments Pending {A}.

(** ** The client, its surroundings, and the monad *)

(** Transactions sent to the channel manager. *)
Inductive Transaction :=
| TxSettle (_receiver : string) (_open_block : N) (from : string).

(** Interactions with the channel manager contract, in the order made. *)
Inductive ContractCall :=
| CallChallengePeriod
| CallGetChannelInfo (_sender _receiver : string) (_open_block : N)
| GetPastEvents (name : EventName) (_sender _receiver : string)
                (_open_block : option N) (fromBlock : N)
| Send (tx : Transaction).

(** The fields of [MicroRaiden] that the methods below read or write;
    [contractAddress] is [this.contract.options.address]. *)
Record Client := mkClient {
  channel : option MicroChannel;
  challenge : N;
  startBlock : N;
  contractAddress : string
}.

(** [localStorage] is [None] when [typeof localStorage === 'undefined']. *)
Record World := mkWorld {
  client : Client;
  localStorage : option (gmap string JSON);
  calls : list ContractCall
}.

(** The blockchain as the client sees it.  [channelInfoView] is the
    contract's [getChannelInfo] view, giving [info[1]] (deposit) and
    [info[4]] (withdrawn) or the message of the failed call.  [sendTx]
    gives the transaction hash.  [receiptAt i] and [blockAt i] are what the
    [i]-th poll of [waitTx] sees. *)
Record Chain := mkChain {
  logs : list EventLog;
  channelInfoView : string -> string -> N -> string + (Z * Z);
  currentBlockNumber : N;
  challenge_period : N;
  sendTx : Transaction -> string + string;
  receiptAt : nat -> string -> option N;
  blockAt : nat -> N
}.

(** What [currentProvider.send] has done by the time it returns: called
    the callback with a result, not called it yet, or thrown. *)
Inductive SendOutcome :=
| Replied (result : string)
| Deferred
| Threw (message : string).

(** The signing collaborator: [eth_signTypedData] through
    [currentProvider.send], [web3.eth.personal.sign], [web3.eth.sign]; a
    failure is the message of the error. *)
Record Provider := mkProvider {
  eth_signTypedData : list TypedData -> string -> SendOutcome;
  personal_sign : string -> string -> string + string;
  eth_sign : string -> string -> string + string
}.

Definition M (A : Type) : Type := World -> Result A * World.

#[global] Instance M_ret : MRet M := fun A a w => (Ok a, w).

#[global] Instance M_bind : MBind M := fun A B f m w =>
  match m w with
  | (Ok a, w') => f a w'
  | (Throw e, w') => (Throw e, w')
  | (Pending, w') => (Pending, w')
  end.

Definition throw {A} (e : Error) : M A := fun w => (Throw e, w).

(** [try { m } catch (err) { h err }] *)
Definition try_catch {A} (m : M A) (h : Error -> M A) : M A := fun w =>
  match m w with
  | (Throw e, w') => h e w'
  | r => r
  end.

Definition get_client : M Client := fun w => (Ok (client w), w).

Definition put_client (c : Client) : M unit := fun w =>
  (Ok tt, mkWorld c (localStorage w) (calls w)).

Definition get_storage : M (option (gmap string JSON)) := fun w =>
  (Ok (localStorage w), w).

Definition put_storage (m : gmap string JSON) : M unit := fun w =>
  (Ok tt, mkWorld (client w) (Some m) (calls w)).

Definition record_call (c : ContractCall) : M unit := fun w =>
  (Ok tt, mkWorld (client w) (localStorage w) (calls w ++ [c])).

(** [this.channel = c] ([None]: [delete this.channel]). *)
Definition set_this_channel (c : option MicroChannel) : M unit :=
  cl ← get_client;
  put_client (mkClient c (challenge cl) (startBlock cl) (contractAddress cl)).

(** [this.challenge = n] *)
Definition set_this_challenge (n : N) : M unit :=
  cl ← get_client;
  put_client (mkClient (channel cl) n (startBlock cl) (contractAddress cl)).

(** Reading a property of [this.channel]: a [TypeError] once the field has
    been deleted. *)
Definition this_channel : M MicroChannel :=
  cl ← get_client;
  match channel cl with
  | Some c => mret c
  | None => throw TypeError
  end.

(** [Object.assign({}, c, { proof: p })] and its siblings. *)
Definition with_proof (c : MicroChannel) (p : MicroProof) : MicroChannel :=
  mkChannel (account c) (receiver c) (block c) p (next_proof c) (closing_sig c).

Definition with_next_proof (c : MicroChannel) (np : option MicroProof)
  : MicroChannel :=
  mkChannel (account c) (receiver c) (block c) (proof c) np (closing_sig c).

Definition with_sig (p : MicroProof) (s : string) : MicroProof :=
  mkProof (balance p) (Some s).

(** [a || b] on numbers. *)
Definition or_else (a b : N) : N := if (a =? 0)%N then b else a.

(** ** The methods of [MicroRaiden] *)

(** The checks of [isChannelValid] on a channel ([!channel.proof] never
    holds: the field is not optional). *)
Definition channel_valid (c : option MicroChannel) : bool :=
  match c with
  | None => false
  | Some ch =>
      JS.truthy_string (receiver ch) && negb (block ch =? 0)%N
      && JS.truthy_string (account ch)
  end.

(** [isChannelValid(channel?)] *)
Definition isChannelValid (arg : option MicroChannel) : M bool :=
  cl ← get_client;
  mret (channel_valid (match arg with Some c => Some c | None => channel cl end)).

(** [[account, receiver].join('|')] *)
Definition storage_key (account receiver : string) : string :=
  account ++ "|" ++ receiver.

(** What [JSON.stringify] makes of a proof and of a channel: a BN is
    written through its [toJSON], an [undefined] member is left out. *)
Definition proof_to_json (p : MicroProof) : JSON :=
  JObj (("balance", JStr (BN.toJSON (balance p)))
        :: Json.member "sig" (JStr <$> sig p)).

Definition channel_to_json (c : MicroChannel) : JSON :=
  JObj (("account", JStr (account c))
        :: ("receiver", JStr (receiver c))
        :: ("block", JNum (Z.of_N (block c)))
        :: ("proof", proof_to_json (proof c))
        :: Json.member "next_proof" (proof_to_json <$> next_proof c)
        ++ Json.member "closing_sig" (JStr <$> closing_sig c)).

(** [new BigNumber(v)] on a parsed member: a string is read in base 10, a
    number is taken as it is, [undefined] gives 0. *)
Definition BigNumber_of_json (v : option JSON) : option Z :=
  match v with
  | None => Some 0
  | Some (JStr s) => Some (BN.ofString s)
  | Some (JNum n) => Some n
  | Some _ => None
  end.

(** An optional string member of a parsed object. *)
Definition string_member (k : string) (j : JSON) : option (option string) :=
  match Json.get k j with
  | None => Some None
  | Some (JStr s) => Some (Some s)
  | Some _ => None
  end.

(** The parsed proof with its balance rebuilt by [new BigNumber]. *)
Definition proof_of_json (j : JSON) : option MicroProof :=
  b ← BigNumber_of_json (Json.get "balance" j);
  s ← string_member "sig" j;
  Some (mkProof b s).

(** A parsed member that has to be a string, and one that has to be a
    block number. *)
Definition json_string (v : option JSON) : option string :=
  match v with
  | Some (JStr s) => Some s
  | _ => None
  end.

Definition json_block (v : option JSON) : option N :=
  match v with
  | Some (JNum n) => if 0 <=? n then Some (Z.to_N n) else None
  | _ => None
  end.

(** The parsed [next_proof], rebuilt only [if (channel.next_proof)]. *)
Definition next_proof_of_json (v : option JSON) : option (option MicroProof) :=
  if Json.truthy v
  then match v ≫= proof_of_json with
       | Some q => Some (Some q)
       | None => None
       end
  else Some None.

(** The parsed channel after the two assignments of [loadStoredChannel]:
    [None] when the value has not the shape of a [MicroChannel]. *)
Definition channel_of_json (j : JSON) : option MicroChannel :=
  a ← json_string (Json.get "account" j);
  r ← json_string (Json.get "receiver" j);
  b ← json_block (Json.get "block" j);
  p ← Json.get "proof" j ≫= proof_of_json;
  np ← next_proof_of_json (Json.get "next_proof" j);
  cs ← string_member "closing_sig" j;
  Some (mkChannel a r b p np cs).

(** [loadStoredChannel(account, receiver)].  On a record that passes
    the three tests without having the shape of a [MicroChannel] the
    source returns true and tracks the parsed object as it is; such an
    object is no value of [MicroChannel], and the embedding ends there
    with [IllTypedStoredChannel]. *)
Definition loadStoredChannel (account receiver : string) : M bool :=
  st ← get_storage;
  match st with
  | None => set_this_channel None;; mret false
  | Some items =>
      let key := storage_key account receiver in
      match items !! key with
      | Some value =>
          if negb (Json.truthy (Some value))
             || negb (Json.truthy (Json.get "proof" value))
             || negb (Json.truthy (Json.get "proof" value ≫= Json.get "balance"))
          then mret false
          else match channel_of_json value with
               | Some c => set_this_channel (Some c);; mret true
               | None => throw IllTypedStoredChannel
               end
      | None => set_this_channel None;; mret false
      end
  end.

(** [setChannel(channel)] *)
Definition setChannel (c : MicroChannel) : M unit :=
  set_this_channel (Some c);;
  st ← get_storage;
  match st with
  | Some items =>
      put_storage (<[storage_key (account c) (receiver c) := channel_to_json c]> items)
  | None => mret tt
  end.

(** The canonical tuple: the list built by
    [getBalanceProofSignatureParams] for a channel, a proof and the address
    of the channel manager. *)
Definition balance_proof_params (contract : string) (c : MicroChannel)
           (p : MicroProof) : list TypedData :=
  [ mkTyped "string" "message_id" "Sender balance proof signature";
    mkTyped "address" "receiver" (receiver c);
    mkTyped "uint32" "block_created" (BN.dec_of_N (block c));
    mkTyped "uint192" "balance" (BN.toString (balance p));
    mkTyped "address" "contract" contract ].

(** [getBalanceProofSignatureParams(proof)] *)
Definition getBalanceProofSignatureParams (p : MicroProof) : M (list TypedData) :=
  c ← this_channel;
  cl ← get_client;
  mret (balance_proof_params (contractAddress cl) c p).

(** [confirmPayment(proof)] *)
Definition confirmPayment (p : MicroProof) : M unit :=
  c ← this_channel;
  match next_proof c with
  | Some np =>
      if negb (JS.truthy (sig np)) || negb (JS.strict_eq (sig np) (sig p))
      then throw InvalidNextSignature
      else setChannel (with_next_proof (with_proof c np) None)
  | None => throw InvalidNextSignature
  end.

(** [setBalance(value)] *)
Definition setBalance (value : Z) : M unit :=
  c ← this_channel;
  if balance (proof c) =? value
  then mret tt
  else setChannel (with_next_proof (with_proof c (mkProof value None)) None).

Section Surroundings.

Variable chain : Chain.
Variable provider : Provider.

(** [recoverTypedSignature({ data, sig })] and [typedSignatureHash] of
    eth-sig-util.  The recovery gives the address of the signer, or
    throws: 'Invalid signature length' on a signature that has not 65
    bytes (the empty string among them), and what [ecrecover] throws on
    65 bytes that are no signature; [inl] carries the message. *)
Variable recoverTypedSignature : list TypedData -> string -> string + string.
Variable typedSignatureHash : list TypedData -> string.

(** A call of [recoverTypedSignature]: what it throws propagates. *)
Definition recover_signer (params : list TypedData) (sig : string) : M string :=
  match recoverTypedSignature params sig with
  | inr signer => mret signer
  | inl message => throw (ExternalError message)
  end.

(** A call of [bn.gt] with a number. *)
Definition gt_number (a num : Z) : M bool :=
  match BN.gt_number a num with
  | Some b => mret b
  | None => throw TypeError
  end.

(** [web3.eth.getBlockNumber()] *)
Definition getBlockNumber : M N := mret (currentBlockNumber chain).

(** [getChallengePeriod()] *)
Definition getChallengePeriod : M N :=
  record_call CallChallengePeriod;;
  set_this_challenge (challenge_period chain);;
  cl ← get_client;
  if negb (0 <? challenge cl)%N
  then throw InvalidChallenge
  else mret (challenge cl).

(** Does a log entry pass the filter of a [getPastEvents] query? *)
Definition matches (name : EventName) (sender rcv : string)
           (openBlock : option N) (fromBlock : N) (ev : EventLog) : bool :=
  EventName_eqb (event ev) name
  && String.eqb (_sender_address ev) sender
  && String.eqb (_receiver_address ev) rcv
  && match openBlock with
     | Some b => match _open_block_number ev with
                 | Some b' => (b' =? b)%N
                 | None => false
                 end
     | None => true
     end
  && (fromBlock <=? blockNumber ev)%N.

(** [contract.getPastEvents(name, { filter, fromBlock, toBlock: 'latest' })] *)
Definition getPastEvents (name : EventName) (sender rcv : string)
           (openBlock : option N) (fromBlock : N) : M (list EventLog) :=
  record_call (GetPastEvents name sender rcv openBlock fromBlock);;
  mret (List.filter (matches name sender rcv openBlock fromBlock) (logs chain)).

(** [contract.methods.getChannelInfo(account, receiver, block).call()] *)
Definition call_getChannelInfo (sender rcv : string) (b : N) : M (Z * Z) :=
  record_call (CallGetChannelInfo sender rcv b);;
  match channelInfoView chain sender rcv b with
  | inr info => mret info
  | inl message => throw (ExternalError message)
  end.

(** [closeEvents[0].blockNumber], or 0 without events. *)
Definition first_block (evs : list EventLog) : N :=
  match evs with
  | [] => 0%N
  | ev :: _ => blockNumber ev
  end.

(** [getChannelInfo(channel?)]; the locals [closed] and [settled] of the
    source are [closed_block] and [settled_block]. *)
Definition getChannelInfo (arg : option MicroChannel) : M MicroChannelInfo :=
  cl ← get_client;
  let channel := match arg with Some c => Some c | None => channel cl end in
  valid ← isChannelValid channel;
  match channel with
  | Some c =>
      if negb valid then throw NoValidChannelInfo else
      closeEvents ← getPastEvents ChannelCloseRequested (account c) (receiver c)
                      (Some (block c)) (block c);
      let closed_block := first_block closeEvents in
      settleEvents ← getPastEvents ChannelSettled (account c) (receiver c)
                       (Some (block c)) (or_else closed_block (block c));
      let settled_block := first_block settleEvents in
      if negb (settled_block =? 0)%N
      then mret (mkInfo settled settled_block 0 0)
      else
        info ← call_getChannelInfo (account c) (receiver c) (block c);
        funded ← gt_number (fst info) 0;
        if negb funded
        then throw InvalidChannelDeposit
        else mret (mkInfo (if (closed_block =? 0)%N then opened else closed)
                          (or_else closed_block (block c))
                          (fst info) (snd info))
  | None => throw NoValidChannelInfo
  end.

(** One of the two loops of the filter callback of
    [loadChannelFromBlockchain]: is there an event [e] of the list with
    [e.returnValues._open_block_number.eqn(num) && also]?  The loop stops
    at the first such event; an assertion of [eqn] ends it with the
    message. *)
Fixpoint refers_to (evs : list EventLog) (num : N) (also : bool)
  : string + bool :=
  match evs with
  | [] => inr false
  | e :: rest =>
      match _open_block_number e with
      | Some b =>
          match BN.eqn b num with
          | inl message => inl message
          | inr same => if same && also then inr true
                        else refers_to rest num also
          end
      | None => refers_to rest num also
      end
  end.

(** The filter callback that computes [stillOpen]: the settlements
    first, then the close requests, for which
    [ev.blockNumber + challenge > currentBlock] is asked as well. *)
Definition still_open (settleEvents closeEvents : list EventLog)
           (challenge currentBlock : N) (ev : EventLog) : string + bool :=
  match refers_to settleEvents (blockNumber ev) true with
  | inl message => inl message
  | inr true => inr false
  | inr false =>
      match refers_to closeEvents (blockNumber ev)
                      (currentBlock <? blockNumber ev + challenge)%N with
      | inl message => inl message
      | inr found => inr (negb found)
      end
  end.

(** [events.filter(keep)] with a callback that may throw: the first
    throw ends the filtering. *)
Fixpoint filter_events (keep : EventLog -> string + bool)
         (evs : list EventLog) : string + list EventLog :=
  match evs with
  | [] => inr []
  | ev :: rest =>
      match keep ev with
      | inl message => inl message
      | inr kept =>
          match filter_events keep rest with
          | inl message => inl message
          | inr rest' => inr (if kept then ev :: rest' else rest')
          end
      end
  end.

(** The channel built for a candidate. *)
Definition candidate (sender rcv : string) (ev : EventLog) : MicroChannel :=
  mkChannel sender rcv (blockNumber ev) (mkProof 0 None) None None.

(** The loop over [stillOpen]: the first candidate on which
    [getChannelInfo] does not throw. *)
Fixpoint first_valid (sender rcv : string) (stillOpen : list EventLog)
  : M (option MicroChannel) :=
  match stillOpen with
  | [] => mret None
  | ev :: rest =>
      let channel := candidate sender rcv ev in
      try_catch (getChannelInfo (Some channel);; mret (Some channel))
                (fun _ => first_valid sender rcv rest)
  end.

(** [Math.min.apply(null, blocks)] on a list that is not empty. *)
Definition min_block (evs : list EventLog) : N :=
  match evs with
  | [] => 0%N
  | ev :: rest => fold_left N.min (map blockNumber rest) (blockNumber ev)
  end.

(** [loadChannelFromBlockchain(account, receiver)] *)
Definition loadChannelFromBlockchain (sender rcv : string) : M MicroChannel :=
  cl ← get_client;
  openEvents ← getPastEvents ChannelCreated sender rcv None (startBlock cl);
  match openEvents with
  | [] => throw NoChannelFound
  | _ :: _ =>
      let minBlock := min_block openEvents in
      closeEvents ← getPastEvents ChannelCloseRequested sender rcv None minBlock;
      settleEvents ← getPastEvents ChannelSettled sender rcv None minBlock;
      currentBlock ← getBlockNumber;
      challenge ← getChallengePeriod;
      match filter_events
              (still_open settleEvents closeEvents challenge currentBlock)
              openEvents with
      | inl message => throw (ExternalError message)
      | inr stillOpen =>
          openChannel ← first_valid sender rcv stillOpen;
          match openChannel with
          | None => throw (NoOpenValidChannel (length stillOpen))
          | Some c => setChannel c;; this_channel
          end
      end
  end.

(** One round of the loop of [waitTx]: the receipt when the transaction
    is mined and has the confirmations, [None] to sleep and poll again. *)
Definition poll (txHash : string) (confirmations : N) (i : nat) : option N :=
  match receiptAt chain i txHash with
  | None => None
  | Some receiptBlock =>
      if (receiptBlock =? 0)%N then None
      else if Z.of_N (blockAt chain i) - Z.of_N receiptBlock <? Z.of_N confirmations
           then None
           else Some receiptBlock
  end.

(** [waitTx(txHash, confirmations)] with a budget of polls; the receipt
    is represented by its block number. *)
Fixpoint waitTx_from (polls : nat) (i : nat) (txHash : string)
         (confirmations : N) : M N :=
  match polls with
  | O => fun w => (Pending, w)
  | S polls' =>
      match poll txHash confirmations i with
      | Some receipt => mret receipt
      | None => waitTx_from polls' (S i) txHash confirmations
      end
  end.

Definition waitTx (polls : nat) (txHash : string) (confirmations : N) : M N :=
  _ ← getBlockNumber;
  waitTx_from polls O txHash confirmations.

(** [contract.methods.settle(receiver, block, { from }).send()] *)
Definition send (tx : Transaction) : M string :=
  record_call (Send tx);;
  match sendTx chain tx with
  | inr txHash => mret txHash
  | inl message => throw (ExternalError message)
  end.

(** [settleChannel()] *)
Definition settleChannel (polls : nat) : M string :=
  valid ← isChannelValid None;
  if negb valid then throw NoValidChannelInfo else
  info ← getChannelInfo None;
  currentBlock ← getBlockNumber;
  cl ← get_client;
  match state info with
  | closed =>
      if negb (challenge cl =? 0)%N
         && (currentBlock <? info_block info + challenge cl)%N
      then throw (InsideChallengePeriod currentBlock (info_block info) (challenge cl))
      else
        c ← this_channel;
        txHash ← send (TxSettle (receiver c) (block c) (account c));
        waitTx polls txHash 0;;
        mret txHash
  | st => throw (NotClosed st)
  end.

(** [signMessage(msg)] *)
Definition signMessage (msg : string) : M string :=
  valid ← isChannelValid None;
  if negb valid then throw NoValidChannelInfo else
  c ← this_channel;
  let hex := if JS.startsWith "0x" msg then msg
             else "0x" ++ encodeHex (JS.code_units msg) in
  match personal_sign provider hex (account c) with
  | inr sig => mret sig
  | inl message =>
      if JS.includes "Method not found" message
         || JS.includes "is not a function" message
         || JS.includes "not supported" message
      then match eth_sign provider (account c) hex with
           | inr sig => mret sig
           | inl message' => throw (ExternalError message')
           end
      else throw (ExternalError message)
  end.

(** The [try]/[catch] of [signNewProof]: the value of the local [sig]
    when the recovery runs.  The callback passed to [send] is not
    awaited, so [sig] is still [''] unless it ran before [send]
    returned. *)
Definition request_signature (params : list TypedData) (sender : string)
  : M string :=
  match eth_signTypedData provider params sender with
  | Replied result => mret result
  | Deferred => mret ""
  | Threw message =>
      if JS.includes "User denied" message
      then throw (ExternalError message)
      else signMessage (typedSignatureHash params)
  end.

(** [signNewProof(proof?)] *)
Definition signNewProof (arg : option MicroProof) : M MicroProof :=
  valid ← isChannelValid None;
  if negb valid then throw NoValidChannelInfo else
  c ← this_channel;
  let proof0 := match arg with Some p => p | None => proof c end in
  if JS.truthy (sig proof0) then mret proof0 else
  params ← getBalanceProofSignatureParams proof0;
  sig ← request_signature params (account c);
  recovered ← recover_signer params sig;
  c ← this_channel;
  if negb (String.eqb recovered (account c))
  then throw (InvalidRecoveredSignature recovered)
  else
    let signed := with_sig proof0 sig in
    (if balance signed =? balance (proof c)
     then setChannel (with_next_proof (with_proof c signed) (Some signed))
     else setChannel (with_next_proof c (Some signed)));;
    mret signed.

(** [incrementBalanceAndSign(amount)] *)
Definition incrementBalanceAndSign (amount : Z) : M MicroProof :=
  valid ← isChannelValid None;
  if negb valid then throw NoValidChannelInfo else
  c ← this_channel;
  let proof0 := mkProof (balance (proof c) + amount) None in
  info ← getChannelInfo None;
  match state info with
  | opened =>
      if deposit info <? balance proof0
      then throw (FundError (deposit info) (balance proof0))
      else signNewProof (Some proof0)
  | _ => throw ClosedChannelSigning
  end.

(** [verifyProof(proof)] *)
Definition verifyProof (p : MicroProof) : M bool :=
  match sig p with
  | Some s =>
      if negb (JS.truthy_string s) then throw MissingSignature else
      params ← getBalanceProofSignatureParams p;
      recovered ← recover_signer params s;
      c ← this_channel;
      if negb (String.eqb recovered (account c))
      then mret false
      else setChannel (with_next_proof (with_proof c p) None);; mret true
  | None => throw MissingSignature
  end.

End Surroundings.

(** ** The queries of [getChannelInfo] *)

Section Queries.

Variable chain : Chain.

(** The events that the two queries of [getChannelInfo] return for a
    channel: the close requests from its open block on, and the
    settlements from [closed || channel.block] on. *)
Definition close_requests (c : MicroChannel) : list EventLog :=
  List.filter (matches ChannelCloseRequested (account c) (receiver c)
                       (Some (block c)) (block c)) (logs chain).

Definition settle_bound (c : MicroChannel) : N :=
  match close_requests c with
  | [] => block c
  | cev :: _ => blockNumber cev
  end.

Definition settlements (c : MicroChannel) : list EventLog :=
  List.filter (matches ChannelSettled (account c) (receiver c)
                       (Some (block c)) (settle_bound c)) (logs chain).

Definition close_query (c : MicroChannel) : ContractCall :=
  GetPastEvents ChannelCloseRequested (account c) (receiver c)
                (Some (block c)) (block c).

Definition settle_query (c : MicroChannel) : ContractCall :=
  GetPastEvents ChannelSettled (account c) (receiver c)
                (Some (block c)) (settle_bound c).

Definition view_call (c : MicroChannel) : ContractCall :=
  CallGetChannelInfo (account c) (receiver c) (block c).

(** The lists that [loadChannelFromBlockchain] works on, for a sender,
    a receiver and the client's [startBlock]: the creation events, the
    close requests and settlements from the smallest creation block on,
    and [stillOpen]. *)
Definition open_events (sender rcv : string) (from : N) : list EventLog :=
  List.filter (matches ChannelCreated sender rcv None from) (logs chain).

Definition close_events (sender rcv : string) (from : N) : list EventLog :=
  List.filter (matches ChannelCloseRequested sender rcv None
                       (min_block (open_events sender rcv from)))
              (logs chain).

Definition settle_events (sender rcv : string) (from : N) : list EventLog :=
  List.filter (matches ChannelSettled sender rcv None
                       (min_block (open_events sender rcv from)))
              (logs chain).

Definition stillOpen (sender rcv : string) (from : N)
  : string + list EventLog :=
  filter_events (still_open (settle_events sender rcv from)
                            (close_events sender rcv from)
                            (challenge_period chain) (currentBlockNumber chain))
                (open_events sender rcv from).

(** A candidate is excluded by a settlement that refers to its open
    block, or by a close request that refers to it while
    openBlock + challenge > currentBlock. *)
Definition excluded (sender rcv : string) (from : N) (ev : EventLog) : Prop :=
  (exists sev, In sev (settle_events sender rcv from)
               /\ _open_block_number sev = Some (blockNumber ev))
  \/ (exists cev, In cev (close_events sender rcv from)
                  /\ _open_block_number cev = Some (blockNumber ev)
                  /\ (currentBlockNumber chain
                      < blockNumber ev + challenge_period chain)%N).

(** [getChannelInfo] succeeds, or throws, on a candidate channel
    (whatever the client is tracking). *)
Definition accepts (c : MicroChannel) : Prop :=
  forall w, exists info w', getChannelInfo chain (Some c) w = (Ok info, w').

Definition rejects (c : MicroChannel) : Prop :=
  forall w, exists e w', getChannelInfo chain (Some c) w = (Throw e, w').

(** The world when the loop over [stillOpen] starts: the challenge
    period has been read, four calls have been made. *)
Definition scanned (sender rcv : string) (w : World) : World :=
  mkWorld (mkClient (channel (client w)) (challenge_period chain)
                    (startBlock (client w)) (contractAddress (client w)))
          (localStorage w)
          (calls w ++
           [GetPastEvents ChannelCreated sender rcv None (startBlock (client w));
            GetPastEvents ChannelCloseRequested sender rcv None
              (min_block (open_events sender rcv (startBlock (client w))));
            GetPastEvents ChannelSettled sender rcv None
              (min_block (open_events sender rcv (startBlock (client w))));
            CallChallengePeriod]).

End Queries.

(** ** Post-states used in the statements *)

(** The world after [setChannel c]: [c] is the tracked channel and, when
    there is a [localStorage], its record is written under its key. *)
Definition stored (c : MicroChannel) (w : World) : World :=
  mkWorld (mkClient (Some c) (challenge (client w)) (startBlock (client w))
                    (contractAddress (client w)))
          (match localStorage w with
           | Some items =>
               Some (<[storage_key (account c) (receiver c) := channel_to_json c]> items)
           | None => None
           end)
          (calls w).

(** A proof and a channel whose balances went through [toJSON] and
    back through [new BigNumber]. *)
Definition reparsed_proof (p : MicroProof) : MicroProof :=
  mkProof (BN.ofString (BN.toJSON (balance p))) (sig p).

Definition reparsed (c : MicroChannel) : MicroChannel :=
  mkChannel (account c) (receiver c) (block c) (reparsed_proof (proof c))
            (reparsed_proof <$> next_proof c) (closing_sig c).

(** The world after [this.channel = c]. *)
Definition tracked (c : MicroChannel) (w : World) : World :=
  mkWorld (mkClient (Some c) (challenge (client w)) (startBlock (client w))
                    (contractAddress (client w)))
          (localStorage w) (calls w).

(** The world after [delete this.channel]. *)
Definition forgotten (w : World) : World :=
  mkWorld (mkClient None (challenge (client w)) (startBlock (client w))
                    (contractAddress (client w)))
          (localStorage w) (calls w).

(** The world after some more calls to the contract. *)
Definition called (cs : list ContractCall) (w : World) : World :=
  mkWorld (client w) (localStorage w) (calls w ++ cs).

(** ** Concrete clients, chains and providers *)

Module Fixtures.

Definition alice : string := "0xA11CE".
Definition bob : string := "0xB0B".
Definition manager : string := "0xC0DE".

(** A signature of 65 bytes in hexadecimal: [r] starts with the two
    digits given, [s] is 0 and [v] is 27. *)
Definition sig65 (digits : string) : string :=
  "0x" ++ digits ++ JS.zeros 126 ++ "1b".

(** A provider whose typed-data request answers at once. *)
Definition wallet : Provider :=
  mkProvider (fun _ _ => Replied (sig65 "51")) (fun _ _ => inl "Method not found")
             (fun _ _ => inr (sig65 "52")).

(** Every signature of 65 bytes recovers to alice; on any other string
    the recovery throws, as [fromRpcSig] does. *)
Definition recover_alice (_ : list TypedData) (sig : string) : string + string :=
  if (String.length sig =? 132)%nat then inr alice
  else inl "Invalid signature length".

Definition hash0 (_ : list TypedData) : string := "0xH".

(** A channel opened at block 10 with a signed balance of 5 and a signed
    pending proof of 7. *)
Definition paying : MicroChannel :=
  mkChannel alice bob 10 (mkProof 5 (Some "0x05"))
            (Some (mkProof 7 (Some "0x07"))) None.

(** A fresh channel opened at block 10. *)
Definition fresh : MicroChannel :=
  mkChannel alice bob 10 (mkProof 0 None) None None.

Definition world_of (c : option MicroChannel) : World :=
  mkWorld (mkClient c 0 0 manager) (Some ∅) [].

(** The same with a challenge period already read from the contract. *)
Definition world_with_challenge (c : option MicroChannel) (period : N) : World :=
  mkWorld (mkClient c period 0 manager) (Some ∅) [].

Definition created (b : N) : EventLog := mkEvent b (CreatedArgs alice bob).
Definition close_requested (b openBlock : N) : EventLog :=
  mkEvent b (CloseRequestedArgs alice bob openBlock).
Definition settled_at (b openBlock : N) : EventLog :=
  mkEvent b (SettledArgs alice bob openBlock).

(** A chain at block [now] with the given log, a challenge period of 500
    blocks, and a view that reports a deposit for every channel;
    transactions are mined in the next block. *)
Definition chain_of (log : list EventLog) (now : N) (dep : Z) : Chain :=
  mkChain log (fun _ _ _ => inr (dep, 0)) now 500 (fun _ => inr "0x7a")
          (fun _ _ => Some (now + 1)%N) (fun _ => (now + 1)%N).

(** Channel opened at block 10, nothing else. *)
Definition open_chain : Chain := chain_of [created 10] 20 50.

(** Opened at 10, close requested at 100, now at block 101. *)
Definition closing_chain : Chain :=
  chain_of [created 10; close_requested 100 10] 101 50.

(** Three channels in turn: the one opened at 10 is settled, the view
    call fails for the one opened at 40, the one opened at 60 is
    funded. *)
Definition busy_chain : Chain :=
  mkChain [created 10; close_requested 20 10; settled_at 30 10;
           created 40; created 60]
          (fun _ _ b => if (b =? 40)%N then inl "execution reverted"
                        else inr (50, 0))
          100 500 (fun _ => inr "0x7a")
          (fun _ _ => Some 101%N) (fun _ => 101%N).

(** A channel opened at block 2^26 = 67108864 and settled 36 blocks
    later. *)
Definition late_chain : Chain :=
  chain_of [created 67108864; settled_at 67108900 67108864] 67109000 50.

(** Channel opened at block 10 whose deposit the view reports as 0. *)
Definition empty_chain : Chain := chain_of [created 10] 20 0.

(** A chain at block 20 on which transactions are mined in block 21 and
    the head moves on by one block at every poll. *)
Definition mining_chain : Chain :=
  mkChain [created 10] (fun _ _ _ => inr (50, 0)) 20 500 (fun _ => inr "0x7a")
          (fun _ _ => Some 21%N) (fun i => (21 + N.of_nat i)%N).

(** Opened at 10, close requested at 100, settled at 700. *)
Definition settled_chain : Chain :=
  chain_of [created 10; close_requested 100 10; settled_at 700 10] 800 50.

End Fixtures.

(** ** More of the channel store *)

(** [forgetStoredChannel()] *)
Definition forgetStoredChannel : M unit :=
  cl ← get_client;
  match channel cl with
  | None => mret tt
  | Some c =>
      st ← get_storage;
      match st with
      | Some items =>
          put_storage (delete (storage_key (account c) (receiver c)) items)
      | None => mret tt
      end;;
      set_this_channel None
  end.

(** The record under the key of the tracked channel is the tracked
    channel as [setChannel] writes it. *)
Definition in_sync (w : World) : Prop :=
  forall c (items : gmap string JSON),
    channel (client w) = Some c ->
    localStorage w = Some items ->
    items !! storage_key (account c) (receiver c) = Some (channel_to_json c).

(** ** Opening, topping up and closing

    [openChannel], [topUpChannel] and [closeChannel] also talk to the
    token contract and send other transactions than [settle].  They run
    in a monad [L] over a [Session]: the world of the methods above,
    plus the list of calls to the token and of transactions submitted,
    with the three failures that are their own. *)

(** The transactions submitted, with the [from] and [gas] options of the
    source. *)
Inductive LedgerTx :=
| TokenTransfer (to : string) (value : Z) (data : string)
                (from : option string) (gas : N)
| TokenApprove (spender : string) (value : Z) (from : option string) (gas : N)
| CreateChannel (_receiver : string) (deposit : Z) (gas : N)
| TopUp (_receiver : string) (_open_block : N) (deposit : Z)
        (from : string) (gas : N)
| CooperativeClose (_receiver : string) (_open_block : N) (balance : Z)
                   (balance_sig closing : option string)
                   (from : string) (gas : N)
| UncooperativeClose (_receiver : string) (_open_block : N) (balance : Z)
                     (balance_sig closing : option string)
                     (from : string) (gas : N).

Inductive LedgerCall :=
| CallBalanceOf (owner : string)
| Submit (tx : LedgerTx).

(** The token contract and the sending of these transactions:
    [transfer3] tells whether
    [token.methods['transfer(address,uint256,bytes)']] is defined;
    [submitTx] gives the transaction hash, or the message of the
    failure. *)
Record Token := mkToken {
  balanceOf : string -> string + Z;
  transfer3 : bool;
  submitTx : LedgerTx -> string + string
}.

Record Session := mkSession {
  world : World;
  ledger : list LedgerCall
}.

Inductive LifecycleError :=
| NotEnoughTokens (balance required : Z)
                              (* 'Not enough tokens. Token balance = , required = ' *)
| NoDepositFound              (* 'No deposit found!' *)
| ClosingClosedChannel.       (* 'Tried closing already closed channel' *)

Inductive Outcome (A : Type) :=
| Done (a : A)
| Failed (e : Error)
| Refused (e : LifecycleError)
| Unsettled.

Arguments Done {A} a.
Arguments Failed {A} e.
Arguments Refused {A} e.
Arguments Unsettled {A}.

Definition L (A : Type) : Type := Session -> Outcome A * Session.

#[global] Instance L_ret : MRet L := fun A a s => (Done a, s).

#[global] Instance L_bind : MBind L := fun A B f m s =>
  match m s with
  | (Done a, s') => f a s'
  | (Failed e, s') => (Failed e, s')
  | (Refused e, s') => (Refused e, s')
  | (Unsettled, s') => (Unsettled, s')
  end.

(** A method of the first layer, run on the world of the session. *)
Definition lift {A} (m : M A) : L A := fun s =>
  match m (world s) with
  | (Ok a, w') => (Done a, mkSession w' (ledger s))
  | (Throw e, w') => (Failed e, mkSession w' (ledger s))
  | (Pending, w') => (Unsettled, mkSession w' (ledger s))
  end.

Definition refuse {A} (e : LifecycleError) : L A := fun s => (Refused e, s).

Definition record_ledger (c : LedgerCall) : L unit := fun s =>
  (Done tt, mkSession (world s) (ledger s ++ [c])).

(** [receiver.replace(/^0x/i, '')] *)
Definition strip0x (s : string) : string :=
  match s with
  | String "0" (String "x" rest) => rest
  | String "0" (String "X" rest) => rest
  | _ => s
  end.

(** [Object.assign({}, c, { closing_sig: s })] *)
Definition with_closing_sig (c : MicroChannel) (s : option string)
  : MicroChannel :=
  mkChannel (account c) (receiver c) (block c) (proof c) (next_proof c) s.

Section Lifecycle.

Variable chain : Chain.
Variable token : Token.
Variable provider : Provider.
Variable recoverTypedSignature : list TypedData -> string -> string + string.
Variable typedSignatureHash : list TypedData -> string.

(** [token.methods.balanceOf(account).call()] *)
Definition balance_of (owner : string) : L Z :=
  record_ledger (CallBalanceOf owner);;
  match balanceOf token owner with
  | inr b => mret b
  | inl message => lift (throw (ExternalError message))
  end.

(** [....send()] of a transaction of this layer. *)
Definition submit (tx : LedgerTx) : L string :=
  record_ledger (Submit tx);;
  match submitTx token tx with
  | inr txHash => mret txHash
  | inl message => lift (throw (ExternalError message))
  end.

(** [openChannel(account, receiver, deposit)]; the warning on an
    already valid channel has no effect. *)
Definition openChannel (polls : nat) (sender rcv : string) (dep : Z)
  : L MicroChannel :=
  balance ← balance_of sender;
  if negb (dep <=? balance) then refuse (NotEnoughTokens balance dep) else
  cl ← lift get_client;
  transferTxHash ←
    (if transfer3 token
     then submit (TokenTransfer (contractAddress cl) dep
                                (sender ++ strip0x rcv) None 100000)
     else submit (TokenApprove (contractAddress cl) dep None 130000);;
          submit (CreateChannel rcv dep 130000));
  receipt ← lift (waitTx chain polls transferTxHash 1);
  info ← lift (call_getChannelInfo chain sender rcv receipt);
  funded ← lift (gt_number (fst info) 0);
  if negb funded then refuse NoDepositFound else
  lift (setChannel (mkChannel sender rcv receipt (mkProof 0 None) None None));;
  lift this_channel.

(** [topUpChannel(deposit)] *)
Definition topUpChannel (polls : nat) (dep : Z) : L string :=
  valid ← lift (isChannelValid None);
  if negb valid then lift (throw NoValidChannelInfo) else
  c ← lift this_channel;
  balance ← balance_of (account c);
  if negb (dep <=? balance) then refuse (NotEnoughTokens balance dep) else
  cl ← lift get_client;
  transferTxHash ←
    (if transfer3 token
     then submit (TokenTransfer (contractAddress cl) dep
                    (account c ++ strip0x (receiver c)
                     ++ encodeHex_padded (HexNum (Z.of_N (block c))) (Some 8%nat))
                    (Some (account c)) 70000)
     else submit (TokenApprove (contractAddress cl) dep (Some (account c)) 100000);;
          submit (TopUp (receiver c) (block c) dep (account c) 100000));
  lift (waitTx chain polls transferTxHash 1);;
  mret transferTxHash.

(** The closing signature that [closeChannel] goes on with: the stored
    one when there is one, else the argument, which is then stored. *)
Definition choose_closing_sig (closingSig : option string)
  : L (option string) :=
  c ← lift this_channel;
  if JS.truthy (closing_sig c) then mret (closing_sig c)
  else if JS.truthy closingSig
       then lift (setChannel (with_closing_sig c closingSig));; mret closingSig
       else mret closingSig.

(** [closeChannel(closingSig?)] *)
Definition closeChannel (polls : nat) (closingSig : option string) : L string :=
  valid ← lift (isChannelValid None);
  if negb valid then lift (throw NoValidChannelInfo) else
  info ← lift (getChannelInfo chain None);
  match state info with
  | opened =>
      closingSig ← choose_closing_sig closingSig;
      c ← lift this_channel;
      proof0 ←
        (if JS.truthy closingSig && negb (JS.truthy (sig (proof c)))
         then lift (signNewProof provider recoverTypedSignature
                                 typedSignatureHash (Some (proof c)))
         else mret (proof c));
      c ← lift this_channel;
      txHash ←
        submit (if JS.truthy closingSig
                then CooperativeClose (receiver c) (block c) (balance proof0)
                                      (sig proof0) closingSig (account c) 120000
                else UncooperativeClose (receiver c) (block c) (balance proof0)
                                        (sig proof0) closingSig (account c) 100000);
      lift (waitTx chain polls txHash 0);;
      mret txHash
  | _ => refuse ClosingClosedChannel
  end.

End Lifecycle.

(** ** The transactions of the lifecycle, for the statements *)

(** What [openChannel] submits, by the kind of token. *)
Definition funding (token : Token) (contract sender rcv : string) (dep : Z)
  : list LedgerTx :=
  if transfer3 token
  then [TokenTransfer contract dep (sender ++ strip0x rcv) None 100000]
  else [TokenApprove contract dep None 130000; CreateChannel rcv dep 130000].

(** What [topUpChannel] submits for a channel, by the kind of token. *)
Definition topping (token : Token) (contract : string) (c : MicroChannel)
           (dep : Z) : list LedgerTx :=
  if transfer3 token
  then [TokenTransfer contract dep
          (account c ++ strip0x (receiver c)
           ++ encodeHex_padded (HexNum (Z.of_N (block c))) (Some 8%nat))
          (Some (account c)) 70000]
  else [TokenApprove contract dep (Some (account c)) 100000;
        TopUp (receiver c) (block c) dep (account c) 100000].

(** The closing signature that counts: the stored one when it is not
    empty, else the argument. *)
Definition effective_closing_sig (c : MicroChannel) (arg : option string)
  : option string :=
  if JS.truthy (closing_sig c) then closing_sig c else arg.

(** The close transaction for a channel, the proof sent and the closing
    signature. *)
Definition close_tx (c : MicroChannel) (p : MicroProof)
           (closing : option string) : LedgerTx :=
  if JS.truthy closing
  then CooperativeClose (receiver c) (block c) (balance p) (sig p) closing
                        (account c) 120000
  else UncooperativeClose (receiver c) (block c) (balance p) (sig p) closing
                          (account c) 100000.

(** At round [i] of the polling the transaction [txHash] has a receipt
    with the block number [receipt] and the confirmations asked for. *)
Definition seen (chain : Chain) (txHash : string) (confirmations : N)
           (i : nat) (receipt : N) : Prop :=
  receiptAt chain i txHash = Some receipt
  /\ receipt <> 0%N
  /\ Z.of_N confirmations <= Z.of_N (blockAt chain i) - Z.of_N receipt.

(** The transaction is seen mined in block [receipt] at one of the
    first [polls] rounds, and at no round before. *)
Definition mined (chain : Chain) (polls : nat) (txHash : string)
           (confirmations : N) (receipt : N) : Prop :=
  exists k, (k < polls)%nat
            /\ seen chain txHash confirmations k receipt
            /\ forall j r, (j < k)%nat -> ~ seen chain txHash confirmations j r.

(** The hash that the sending of a run of transactions ends with, when
    the token accepts each of them. *)
Fixpoint submitted (token : Token) (txs : list LedgerTx) : option string :=
  match txs with
  | [] => None
  | tx :: rest =>
      match submitTx token tx with
      | inr txHash => match rest with
                      | [] => Some txHash
                      | _ :: _ => submitted token rest
                      end
      | inl _ => None
      end
  end.

(** The channel once the closing signature that counts is stored. *)
Definition closing_channel (c : MicroChannel) (arg : option string)
  : MicroChannel :=
  if JS.truthy (closing_sig c) then c
  else if JS.truthy arg then with_closing_sig c arg else c.

(** ** Concrete tokens and sessions *)

Module Tokens.

(** A token with 100 units on every account, of the plain kind and of
    the kind with the three-argument transfer. *)
Definition erc20 : Token :=
  mkToken (fun _ => inr 100) false (fun _ => inr "0x7b").

Definition erc223 : Token :=
  mkToken (fun _ => inr 100) true (fun _ => inr "0x7b").

Definition session_of (w : World) : Session := mkSession w [].

End Tokens.

(** ** Running the monad *)

Ltac run :=
  repeat (unfold mbind, M_bind, mret, M_ret, throw, try_catch, get_client,
          put_client, get_storage, put_storage, record_call, set_this_channel,
          set_this_challenge, this_channel; simpl).

Lemma setChannel_run (c : MicroChannel) (w : World) :
  setChannel c w = (Ok tt, stored c w).
Proof.
  unfold setChannel, stored. run. destruct (localStorage w); reflexivity.
Qed.

Lemma getBalanceProofSignatureParams_run (p : MicroProof) (w : World)
      (c : MicroChannel) :
  channel (client w) = Some c ->
  getBalanceProofSignatureParams p w
  = (Ok (balance_proof_params (contractAddress (client w)) c p), w).
Proof.
  intros Hc. unfold getBalanceProofSignatureParams. run. rewrite Hc. reflexivity.
Qed.

(** ** verifyProof *)

(** What [verifyProof] does with a proof that carries a signature, by
    the outcome of the recovery. *)
Lemma verifyProof_signed (recover : list TypedData -> string -> string + string)
      (w : World) (c : MicroChannel) (p : MicroProof) (s : string) :
  channel (client w) = Some c ->
  sig p = Some s -> s <> "" ->
  verifyProof recover p w
  = match recover (balance_proof_params (contractAddress (client w)) c p) s with
    | inr recovered =>
        if String.eqb recovered (account c)
        then (Ok true, stored (with_next_proof (with_proof c p) None) w)
        else (Ok false, w)
    | inl message => (Throw (ExternalError message), w)
    end.
Proof.
  intros Hc Hs Hne. unfold verifyProof. rewrite Hs.
  destruct s as [|a s']; [congruence|]. simpl.
  unfold mbind at 1, M_bind at 1.
  rewrite (getBalanceProofSignatureParams_run p w c Hc).
  unfold recover_signer.
  destruct (recover _ _) as [message|recovered]; [reflexivity|].
  run. rewrite Hc.
  destruct (String.eqb recovered (account c)); simpl; [|destruct w; reflexivity].
  change (mkWorld (client w) (localStorage w) (calls w)) with w.
  destruct w as [cl st cs]. simpl in *.
  unfold setChannel. run. destruct st; reflexivity.
Qed.

(** C1.  With a channel tracked: a proof that carries a signature (a
    non-empty [sig]) is accepted exactly when the signer recovered over the
    canonical tuple is the channel's [account]; then [verifyProof] returns
    true and the channel, with [proof] replaced by the given proof and
    [next_proof] cleared, is set and persisted.  When the recovered signer
    differs it returns false and the world is unchanged.  When no signer
    is recovered (the library throws on a string that is no signature)
    that error propagates and the world is unchanged.  A proof without
    signature fails with [MissingSignature] and the world is unchanged. *)
Theorem verifyProof_correct
        (recover : list TypedData -> string -> string + string)
        (w : World) (c : MicroChannel) (p : MicroProof) :
  channel (client w) = Some c ->
  (forall s, sig p = Some s -> s <> "" ->
     let params := balance_proof_params (contractAddress (client w)) c p in
     (forall recovered, recover params s = inr recovered ->
        (recovered = account c ->
           verifyProof recover p w
           = (Ok true, stored (with_next_proof (with_proof c p) None) w)
           /\ proof (with_next_proof (with_proof c p) None) = p
           /\ next_proof (with_next_proof (with_proof c p) None) = None)
        /\ (recovered <> account c -> verifyProof recover p w = (Ok false, w)))
     /\ (fst (verifyProof recover p w) = Ok true
         <-> recover params s = inr (account c))
     /\ (forall message, recover params s = inl message ->
           verifyProof recover p w = (Throw (ExternalError message), w)))
  /\ (JS.truthy (sig p) = false ->
      verifyProof recover p w = (Throw MissingSignature, w)).
Proof.
  intros Hc. split.
  - intros s Hs Hne params.
    pose proof (verifyProof_signed recover w c p s Hc Hs Hne) as Hrun.
    fold params in Hrun. split; [|split].
    + intros recovered Hrec. rewrite Hrec in Hrun. split.
      * intros ->. rewrite Hrun, String.eqb_refl. repeat split.
      * intros Hneq. rewrite Hrun. apply String.eqb_neq in Hneq.
        rewrite Hneq. reflexivity.
    + rewrite Hrun. destruct (recover params s) as [message|recovered].
      * split; discriminate.
      * destruct (String.eqb_spec recovered (account c)) as [E|Hneq]; simpl.
        -- subst recovered. split; reflexivity.
        -- split; [discriminate|]. intros H. injection H as E. contradiction.
    + intros message Hrec. rewrite Hrun, Hrec. reflexivity.
  - intros Hns. unfold verifyProof.
    destruct (sig p) as [s|]; [|reflexivity].
    simpl in Hns. rewrite Hns. reflexivity.
Qed.

Lemma verifyProof_correct_witness :
  verifyProof Fixtures.recover_alice (mkProof 9 (Some (Fixtures.sig65 "09")))
              (Fixtures.world_of (Some Fixtures.paying))
  = (Ok true,
     stored (with_next_proof
               (with_proof Fixtures.paying
                           (mkProof 9 (Some (Fixtures.sig65 "09")))) None)
            (Fixtures.world_of (Some Fixtures.paying))).
Proof.
  destruct (verifyProof_correct Fixtures.recover_alice
              (Fixtures.world_of (Some Fixtures.paying)) Fixtures.paying
              (mkProof 9 (Some (Fixtures.sig65 "09"))) eq_refl) as [Hsigned _].
  destruct (Hsigned (Fixtures.sig65 "09") eq_refl ltac:(discriminate))
    as [Haccept _].
  destruct (Haccept Fixtures.alice eq_refl) as [Hsame _].
  apply Hsame. reflexivity.
Defined.

(** ** confirmPayment *)

(** C4.  With a channel tracked, [confirmPayment(proof)] succeeds exactly
    when [next_proof] is present, carries a (non-empty) signature and that
    signature is the one of the supplied proof.  Then the channel with
    [proof] = the old [next_proof] and [next_proof] cleared is set and
    persisted.  Otherwise it fails with 'Invalid provided or stored next
    signature' and the world is unchanged. *)
Theorem confirmPayment_correct (w : World) (c : MicroChannel) (p : MicroProof) :
  channel (client w) = Some c ->
  let matching :=
    exists np s, next_proof c = Some np /\ sig np = Some s /\ s <> ""
                 /\ sig p = Some s in
  (forall np, next_proof c = Some np -> matching ->
     confirmPayment p w = (Ok tt, stored (with_next_proof (with_proof c np) None) w)
     /\ proof (with_next_proof (with_proof c np) None) = np
     /\ next_proof (with_next_proof (with_proof c np) None) = None)
  /\ (~ matching -> confirmPayment p w = (Throw InvalidNextSignature, w))
  /\ ((exists w', confirmPayment p w = (Ok tt, w')) <-> matching).
Proof.
  intros Hc matching.
  assert (Hrun : confirmPayment p w
                 = match next_proof c with
                   | Some np =>
                       if JS.truthy (sig np) && JS.strict_eq (sig np) (sig p)
                       then (Ok tt, stored (with_next_proof (with_proof c np) None) w)
                       else (Throw InvalidNextSignature, w)
                   | None => (Throw InvalidNextSignature, w)
                   end).
  { unfold confirmPayment. run. rewrite Hc. simpl.
    destruct (next_proof c) as [np|]; [|destruct w; reflexivity].
    destruct (JS.truthy (sig np)); simpl; [|destruct w; reflexivity].
    destruct (JS.strict_eq (sig np) (sig p)); simpl; [|destruct w; reflexivity].
    change (mkWorld (client w) (localStorage w) (calls w)) with w.
    destruct w; apply setChannel_run. }
  assert (Hdec : matching <->
                 exists np, next_proof c = Some np
                            /\ JS.truthy (sig np) && JS.strict_eq (sig np) (sig p) = true).
  { unfold matching. split.
    - intros (np & s & Hn & Hs & Hne & Hp). exists np. split; [exact Hn|].
      rewrite Hs, Hp. simpl. rewrite String.eqb_refl.
      destruct s; [congruence|reflexivity].
    - intros (np & Hn & Hb). apply andb_prop in Hb as [Ht He].
      destruct (sig np) as [s|] eqn:Hs; [|discriminate Ht].
      destruct (sig p) as [s'|] eqn:Hp; [|discriminate He].
      simpl in He. apply String.eqb_eq in He. subst s'.
      exists np, s. repeat split; try assumption.
      intros ->. discriminate Ht. }
  split; [|split].
  - intros np Hn Hm. apply Hdec in Hm as (np' & Hn' & Hb).
    rewrite Hn in Hn'. injection Hn' as <-.
    rewrite Hrun, Hn, Hb. repeat split.
  - intros Hnm. rewrite Hrun. destruct (next_proof c) as [np|]; [|reflexivity].
    destruct (JS.truthy (sig np) && JS.strict_eq (sig np) (sig p)) eqn:Hb;
      [|reflexivity].
    exfalso. apply Hnm, Hdec. exists np. split; [reflexivity|exact Hb].
  - split.
    + intros [w' Hok]. apply Hdec. rewrite Hrun in Hok.
      destruct (next_proof c) as [np|]; [|discriminate Hok].
      exists np. split; [reflexivity|].
      destruct (JS.truthy (sig np) && JS.strict_eq (sig np) (sig p));
        [reflexivity|discriminate Hok].
    + intros Hm. apply Hdec in Hm as (np & Hn & Hb).
      rewrite Hrun, Hn, Hb. eexists. reflexivity.
Qed.

Lemma confirmPayment_correct_witness :
  confirmPayment (mkProof 7 (Some "0x07")) (Fixtures.world_of (Some Fixtures.paying))
  = (Ok tt,
     stored (with_next_proof (with_proof Fixtures.paying (mkProof 7 (Some "0x07"))) None)
            (Fixtures.world_of (Some Fixtures.paying))).
Proof.
  destruct (confirmPayment_correct (Fixtures.world_of (Some Fixtures.paying))
              Fixtures.paying (mkProof 7 (Some "0x07")) eq_refl) as [Hpromote _].
  apply (Hpromote (mkProof 7 (Some "0x07")) eq_refl).
  exists (mkProof 7 (Some "0x07")), "0x07".
  repeat split; try reflexivity. discriminate.
Defined.

(** ** setBalance *)

(** Counterexample to C9 as stated.  [setBalance(5)] on a channel whose
    confirmed proof is [{balance: 5, sig: '0x05'}] with a pending proof of
    7 returns at once: the signature is kept and [next_proof] is not
    cleared, so the world is not the one with the proof overwritten by
    [{balance: 5}] and [next_proof] cleared. *)
Lemma setBalance_same_value_keeps_channel :
  let w := Fixtures.world_of (Some Fixtures.paying) in
  setBalance 5 w = (Ok tt, w)
  /\ channel (client w)
     <> Some (with_next_proof (with_proof Fixtures.paying (mkProof 5 None)) None)
  /\ sig (proof Fixtures.paying) = Some "0x05"
  /\ next_proof Fixtures.paying = Some (mkProof 7 (Some "0x07")).
Proof.
  repeat split. discriminate.
Qed.

(** C9, amended.  With a channel tracked, [setBalance(value)] for a value
    different from the confirmed balance overwrites [proof] with
    [{balance: value}] (no signature), clears [next_proof] and persists,
    whatever the prior proof, signature or pending proof; for a value equal
    to the confirmed balance it changes nothing. *)
Theorem setBalance_correct (w : World) (c : MicroChannel) (value : Z) :
  channel (client w) = Some c ->
  (value <> balance (proof c) ->
     setBalance value w
     = (Ok tt, stored (with_next_proof (with_proof c (mkProof value None)) None) w)
     /\ proof (with_next_proof (with_proof c (mkProof value None)) None)
        = mkProof value None
     /\ next_proof (with_next_proof (with_proof c (mkProof value None)) None) = None)
  /\ (value = balance (proof c) -> setBalance value w = (Ok tt, w)).
Proof.
  intros Hc. unfold setBalance. run. rewrite Hc. simpl. split.
  - intros Hne. destruct (Z.eqb_spec (balance (proof c)) value) as [E|_];
      [congruence|].
    repeat split. destruct w; apply setChannel_run.
  - intros ->. rewrite Z.eqb_refl. destruct w; reflexivity.
Qed.

Lemma setBalance_correct_witness :
  setBalance 6 (Fixtures.world_of (Some Fixtures.paying))
  = (Ok tt,
     stored (with_next_proof (with_proof Fixtures.paying (mkProof 6 None)) None)
            (Fixtures.world_of (Some Fixtures.paying))).
Proof.
  destruct (setBalance_correct (Fixtures.world_of (Some Fixtures.paying))
              Fixtures.paying 6 eq_refl) as [Hover _].
  apply Hover. simpl. lia.
Defined.

(** ** loadStoredChannel *)

(** C10.  When there is no [localStorage], or no item under the key of
    [(account, receiver)], [loadStoredChannel] returns false and deletes
    the tracked channel; [localStorage] (and everything else) is as
    before. *)
Theorem loadStoredChannel_missing (w : World) (account receiver : string) :
  (localStorage w = None
   \/ exists items : gmap string JSON,
        localStorage w = Some items
        /\ items !! storage_key account receiver = None) ->
  loadStoredChannel account receiver w = (Ok false, forgotten w)
  /\ channel (client (forgotten w)) = None
  /\ localStorage (forgotten w) = localStorage w.
Proof.
  intros H. repeat split. unfold loadStoredChannel, forgotten. run.
  destruct w as [cl st cs]. simpl in *.
  destruct H as [-> | (items & -> & Hl)]; [reflexivity|].
  rewrite Hl. reflexivity.
Qed.

Lemma loadStoredChannel_missing_witness :
  loadStoredChannel Fixtures.alice Fixtures.bob
                    (Fixtures.world_of (Some Fixtures.paying))
  = (Ok false, forgotten (Fixtures.world_of (Some Fixtures.paying))).
Proof.
  apply (loadStoredChannel_missing (Fixtures.world_of (Some Fixtures.paying))
           Fixtures.alice Fixtures.bob).
  right. exists ∅. split; reflexivity.
Defined.

(** ** signNewProof *)

Lemma isChannelValid_run (arg : option MicroChannel) (w : World) :
  isChannelValid arg w
  = (Ok (channel_valid (match arg with
                        | Some c => Some c
                        | None => channel (client w)
                        end)), w).
Proof. reflexivity. Qed.

(** Asking for a signature changes nothing in the world, and is never
    pending. *)
Lemma signMessage_world (provider : Provider) (msg : string) (w : World) :
  snd (signMessage provider msg w) = w
  /\ fst (signMessage provider msg w) <> Pending.
Proof.
  unfold signMessage. run.
  destruct (channel_valid (channel (client w))); simpl;
    [|split; [reflexivity|discriminate]].
  destruct (channel (client w)) as [c|]; simpl;
    [|split; [reflexivity|discriminate]].
  destruct (personal_sign provider _ (account c)) as [message|s]; simpl;
    [|split; [reflexivity|discriminate]].
  destruct (_ || _); simpl; [|split; [reflexivity|discriminate]].
  destruct (eth_sign provider (account c) _); simpl;
    split; first [reflexivity|discriminate].
Qed.

Lemma request_signature_world (provider : Provider)
      (hash : list TypedData -> string) (params : list TypedData)
      (sender : string) (w : World) :
  snd (request_signature provider hash params sender w) = w
  /\ fst (request_signature provider hash params sender w) <> Pending.
Proof.
  unfold request_signature.
  destruct (eth_signTypedData provider params sender) as [r| |message];
    try (split; [reflexivity|discriminate]).
  destruct (JS.includes "User denied" message);
    [split; [reflexivity|discriminate]|].
  apply signMessage_world.
Qed.

(** What [signNewProof] does on an unsigned proof, by the outcome of the
    signature request. *)
Lemma signNewProof_run (provider : Provider)
      (recover : list TypedData -> string -> string + string)
      (hash : list TypedData -> string)
      (w : World) (c : MicroChannel) (p : MicroProof) :
  channel (client w) = Some c ->
  channel_valid (Some c) = true ->
  JS.truthy (sig p) = false ->
  let params := balance_proof_params (contractAddress (client w)) c p in
  signNewProof provider recover hash (Some p) w
  = match fst (request_signature provider hash params (account c) w) with
    | Ok s =>
        match recover params s with
        | inr recovered =>
            if String.eqb recovered (account c)
            then (Ok (with_sig p s),
                  stored (if balance p =? balance (proof c)
                          then with_next_proof (with_proof c (with_sig p s))
                                               (Some (with_sig p s))
                          else with_next_proof c (Some (with_sig p s))) w)
            else (Throw (InvalidRecoveredSignature recovered), w)
        | inl message => (Throw (ExternalError message), w)
        end
    | Throw e => (Throw e, w)
    | Pending => (Pending, w)
    end.
Proof.
  intros Hc Hv Hp params.
  unfold signNewProof.
  unfold mbind at 1, M_bind at 1. rewrite isChannelValid_run, Hc, Hv. simpl.
  unfold mbind at 1, M_bind at 1. unfold this_channel at 1. run. rewrite Hc. simpl.
  rewrite Hp.
  unfold getBalanceProofSignatureParams. run. rewrite Hc. simpl.
  fold params.
  replace (mkWorld (client w) (localStorage w) (calls w)) with w
    by (destruct w; reflexivity).
  destruct (request_signature_world provider hash params (account c) w)
    as [Hw Hnp].
  destruct (request_signature provider hash params (account c) w)
    as [[s|e|] w1]; simpl in *; subst w1; try reflexivity.
  unfold recover_signer.
  destruct (recover params s) as [message|recovered]; [reflexivity|].
  run. rewrite Hc. simpl.
  destruct (String.eqb recovered (account c)); simpl;
    [|destruct w; reflexivity].
  destruct (balance p =? balance (proof c)).
  - unfold mbind, M_bind.
    replace (mkWorld (client w) (localStorage w) (calls w)) with w
      by (destruct w; reflexivity).
    rewrite setChannel_run. reflexivity.
  - unfold mbind, M_bind.
    replace (mkWorld (client w) (localStorage w) (calls w)) with w
      by (destruct w; reflexivity).
    rewrite setChannel_run. reflexivity.
Qed.

(** Counterexample to C2 as stated.  Signing a proof whose balance is
    the confirmed balance (0 on a fresh channel) stores the signed proof
    as [proof] and as [next_proof] too: the pending proof is set. *)
Lemma signNewProof_same_balance_sets_next_proof :
  let w := Fixtures.world_of (Some Fixtures.fresh) in
  let signed := mkProof 0 (Some (Fixtures.sig65 "51")) in
  signNewProof Fixtures.wallet Fixtures.recover_alice Fixtures.hash0
               (Some (mkProof 0 None)) w
  = (Ok signed,
     stored (mkChannel Fixtures.alice Fixtures.bob 10 signed (Some signed) None) w)
  /\ balance (mkProof 0 None) = balance (proof Fixtures.fresh)
  /\ next_proof (mkChannel Fixtures.alice Fixtures.bob 10 signed (Some signed) None)
     <> None.
Proof.
  repeat split. discriminate.
Qed.

(** C2, amended.  On a valid tracked channel, when [signNewProof]
    succeeds on an unsigned proof it returns that proof with the
    signature obtained, which recovers to the channel's [account]; if the
    proof's balance equals the confirmed balance the signed proof is
    stored both as [proof] and as [next_proof], otherwise it is stored as
    [next_proof] only and the confirmed proof is unchanged.  In both cases
    the channel is persisted. *)
Theorem signNewProof_stores (provider : Provider)
        (recover : list TypedData -> string -> string + string)
        (hash : list TypedData -> string)
        (w w' : World) (c : MicroChannel) (p signed : MicroProof) :
  channel (client w) = Some c ->
  channel_valid (Some c) = true ->
  JS.truthy (sig p) = false ->
  signNewProof provider recover hash (Some p) w = (Ok signed, w') ->
  exists s c',
    signed = with_sig p s
    /\ recover (balance_proof_params (contractAddress (client w)) c p) s
       = inr (account c)
    /\ w' = stored c' w
    /\ next_proof c' = Some signed
    /\ (balance p = balance (proof c) -> proof c' = signed)
    /\ (balance p <> balance (proof c) -> proof c' = proof c)
    /\ account c' = account c /\ receiver c' = receiver c /\ block c' = block c
    /\ closing_sig c' = closing_sig c.
Proof.
  intros Hc Hv Hp Hrun.
  rewrite (signNewProof_run provider recover hash w c p Hc Hv Hp) in Hrun.
  cbv zeta in Hrun.
  destruct (fst (request_signature provider hash _ (account c) w))
    as [s|e|]; try discriminate Hrun.
  destruct (recover _ s) as [message|recovered] eqn:Hrec0; [discriminate Hrun|].
  destruct (String.eqb recovered (account c)) eqn:Hrec;
    [|discriminate Hrun].
  injection Hrun as <- <-.
  apply String.eqb_eq in Hrec. subst recovered.
  exists s. eexists. split; [reflexivity|]. split; [exact Hrec0|].
  split; [reflexivity|].
  destruct (Z.eqb_spec (balance p) (balance (proof c))) as [E|E]; simpl;
    repeat split; congruence.
Qed.

Lemma signNewProof_stores_witness :
  exists s c',
    mkProof 7 (Some (Fixtures.sig65 "51")) = with_sig (mkProof 7 None) s
    /\ Fixtures.recover_alice
         (balance_proof_params Fixtures.manager Fixtures.fresh (mkProof 7 None)) s
       = inr Fixtures.alice
    /\ stored (with_next_proof Fixtures.fresh (Some (mkProof 7 (Some (Fixtures.sig65 "51")))))
              (Fixtures.world_of (Some Fixtures.fresh))
       = stored c' (Fixtures.world_of (Some Fixtures.fresh))
    /\ next_proof c' = Some (mkProof 7 (Some (Fixtures.sig65 "51")))
    /\ (7 = 0 -> proof c' = mkProof 7 (Some (Fixtures.sig65 "51")))
    /\ (7 <> 0 -> proof c' = mkProof 0 None)
    /\ account c' = Fixtures.alice /\ receiver c' = Fixtures.bob
    /\ block c' = 10%N /\ closing_sig c' = None.
Proof.
  apply (signNewProof_stores Fixtures.wallet Fixtures.recover_alice
           Fixtures.hash0 (Fixtures.world_of (Some Fixtures.fresh)) _
           Fixtures.fresh (mkProof 7 None) (mkProof 7 (Some (Fixtures.sig65 "51"))));
    reflexivity.
Defined.

(** ** getChannelInfo *)

Section ChannelInfo.

Variable chain : Chain.

Lemma matches_from name sender rcv ob from ev :
  matches name sender rcv ob from ev = true -> (from <= blockNumber ev)%N.
Proof.
  unfold matches. intros H. apply andb_prop in H as [_ H].
  apply N.leb_le. exact H.
Qed.

Lemma first_block_filter name sender rcv ob from ev rest :
  List.filter (matches name sender rcv ob from) (logs chain) = ev :: rest ->
  (from <= blockNumber ev)%N.
Proof.
  intros H. apply (matches_from name sender rcv ob).
  assert (Hin : In ev (List.filter (matches name sender rcv ob from) (logs chain)))
    by (rewrite H; left; reflexivity).
  apply filter_In in Hin. apply Hin.
Qed.

Lemma valid_block_pos (c : MicroChannel) :
  channel_valid (Some c) = true -> (0 < block c)%N.
Proof.
  simpl. intros H. apply andb_prop in H as [H _].
  apply andb_prop in H as [_ H]. apply negb_true_iff, N.eqb_neq in H. lia.
Qed.

Lemma settle_bound_pos (c : MicroChannel) :
  channel_valid (Some c) = true -> (0 < settle_bound chain c)%N.
Proof.
  intros Hv. pose proof (valid_block_pos c Hv) as Hb.
  unfold settle_bound. destruct (close_requests chain c) as [|cev rest] eqn:E;
    [exact Hb|].
  apply first_block_filter in E. lia.
Qed.

Lemma or_else_first_block (c : MicroChannel) :
  channel_valid (Some c) = true ->
  or_else (first_block (close_requests chain c)) (block c) = settle_bound chain c.
Proof.
  intros Hv. pose proof (valid_block_pos c Hv) as Hb.
  unfold settle_bound, or_else.
  destruct (close_requests chain c) as [|cev rest] eqn:E; [reflexivity|].
  apply first_block_filter in E. simpl.
  destruct (N.eqb_spec (blockNumber cev) 0); [lia|reflexivity].
Qed.

(** [getChannelInfo] on a valid channel, case by case. *)
Lemma getChannelInfo_run (arg : option MicroChannel) (w : World)
      (c : MicroChannel) :
  match arg with Some c' => Some c' | None => channel (client w) end = Some c ->
  channel_valid (Some c) = true ->
  getChannelInfo chain arg w
  = match settlements chain c with
    | sev :: _ =>
        (Ok (mkInfo settled (blockNumber sev) 0 0),
         called [close_query c; settle_query chain c] w)
    | [] =>
        match channelInfoView chain (account c) (receiver c) (block c) with
        | inr info =>
            if 0 <=? fst info
            then (Ok (mkInfo (match close_requests chain c with
                              | [] => opened
                              | _ :: _ => closed
                              end)
                             (settle_bound chain c) (fst info) (snd info)),
                  called [close_query c; settle_query chain c; view_call c] w)
            else (Throw TypeError,
                  called [close_query c; settle_query chain c; view_call c] w)
        | inl message =>
            (Throw (ExternalError message),
             called [close_query c; settle_query chain c; view_call c] w)
        end
    end.
Proof.
  intros Hc Hv.
  pose proof (settle_bound_pos c Hv) as Hpos.
  pose proof (or_else_first_block c Hv) as Hor.
  unfold getChannelInfo. unfold mbind at 1, M_bind at 1, get_client at 1.
  rewrite Hc. unfold mbind at 1, M_bind at 1.
  rewrite isChannelValid_run, Hv. simpl negb. cbv iota.
  unfold getPastEvents, call_getChannelInfo, gt_number, BN.gt_number. run.
  fold (close_requests chain c). rewrite Hor. fold (settlements chain c).
  unfold called, close_query, settle_query, view_call.
  destruct (settlements chain c) as [|sev rest] eqn:Es.
  - simpl.
    destruct (channelInfoView chain (account c) (receiver c) (block c))
      as [message|info]; [rewrite <- !app_assoc; reflexivity|].
    simpl.
    destruct (0 <=? fst info); simpl; [|rewrite <- !app_assoc; reflexivity].
    rewrite <- !app_assoc. simpl.
    unfold settle_bound in *.
    destruct (close_requests chain c) as [|cev rest'] eqn:Ec; simpl; [reflexivity|].
    apply first_block_filter in Ec.
    pose proof (valid_block_pos c Hv).
    destruct (N.eqb_spec (blockNumber cev) 0); [lia|].
    unfold or_else. destruct (N.eqb_spec (blockNumber cev) 0); [lia|reflexivity].
  - unfold settlements in Es. apply first_block_filter in Es. simpl.
    rewrite <- !app_assoc. simpl.
    destruct (N.eqb_spec (blockNumber sev) 0); [lia|reflexivity].
Qed.

(** The settlements found are the [ChannelSettled] entries of the log
    for this sender, receiver and open block, from the bound on. *)
Lemma settlements_In (c : MicroChannel) (ev : EventLog) :
  In ev (settlements chain c)
  <-> In ev (logs chain)
      /\ returnValues ev = SettledArgs (account c) (receiver c) (block c)
      /\ (settle_bound chain c <= blockNumber ev)%N.
Proof.
  unfold settlements. rewrite filter_In. unfold matches, event,
    _sender_address, _receiver_address, _open_block_number.
  split.
  - intros [Hin H]. split; [exact Hin|].
    destruct (returnValues ev) as [a r|a r b|a r b]; simpl in H;
      try discriminate H.
    apply andb_prop in H as [H Hfrom]. apply andb_prop in H as [H Hb].
    apply andb_prop in H as [Ha Hr].
    apply String.eqb_eq in Ha, Hr. apply N.eqb_eq in Hb. apply N.leb_le in Hfrom.
    subst. split; [reflexivity|exact Hfrom].
  - intros (Hin & -> & Hfrom). split; [exact Hin|]. simpl.
    rewrite !String.eqb_refl, N.eqb_refl. simpl. apply N.leb_le. exact Hfrom.
Qed.

End ChannelInfo.

(** Without a valid channel, [getChannelInfo] throws before any call. *)
Lemma getChannelInfo_invalid (chain : Chain) (arg : option MicroChannel)
      (w : World) :
  channel_valid (match arg with Some c' => Some c' | None => channel (client w) end)
  = false ->
  getChannelInfo chain arg w = (Throw NoValidChannelInfo, w).
Proof.
  intros Hv. unfold getChannelInfo.
  unfold mbind at 1, M_bind at 1, get_client at 1.
  unfold mbind at 1, M_bind at 1. rewrite isChannelValid_run.
  destruct (match arg with Some c' => Some c' | None => channel (client w) end)
    as [c|]; [|reflexivity].
  rewrite Hv. reflexivity.
Qed.

(** C6 at the failing input.  On a channel opened at block 10, neither
    closed nor settled, for which the view reports a deposit of 0,
    [getChannelInfo] calls the view and returns [opened] with deposit 0:
    no failure.  In fact [info[1].gt(0)] holds whatever the deposit is,
    and 'Invalid channel deposit' is never thrown.  The other parts of
    the claim hold: the same call on a settled channel returns [settled]
    with zero deposit and withdrawn after the two event queries only. *)
Theorem getChannelInfo_zero_deposit :
  (let w := Fixtures.world_of (Some Fixtures.fresh) in
   channelInfoView Fixtures.empty_chain Fixtures.alice Fixtures.bob 10
   = inr (0, 0)
   /\ getChannelInfo Fixtures.empty_chain None w
      = (Ok (mkInfo opened 10 0 0),
         called [close_query Fixtures.fresh;
                 settle_query Fixtures.empty_chain Fixtures.fresh;
                 view_call Fixtures.fresh] w)
   /\ getChannelInfo Fixtures.settled_chain None w
      = (Ok (mkInfo settled 700 0 0),
         called [close_query Fixtures.fresh;
                 settle_query Fixtures.settled_chain Fixtures.fresh] w))
  /\ (forall chain arg w,
        fst (getChannelInfo chain arg w) <> Throw InvalidChannelDeposit).
Proof.
  split; [repeat split|].
  intros chain arg w.
  destruct (channel_valid (match arg with
                           | Some c' => Some c'
                           | None => channel (client w)
                           end)) eqn:Hv.
  - destruct (match arg with Some c' => Some c' | None => channel (client w) end)
      as [c|] eqn:Hc; [|discriminate Hv].
    rewrite (getChannelInfo_run chain arg w c Hc Hv).
    destruct (settlements chain c); [|discriminate].
    destruct (channelInfoView chain _ _ _) as [m|info]; [discriminate|].
    destruct (0 <=? fst info); discriminate.
  - rewrite (getChannelInfo_invalid chain arg w Hv). discriminate.
Qed.

(** X23.  The states that [getChannelInfo] reports.  On a valid channel
    (the argument, or the tracked one):
    - when the settlement query finds an event, the result is
      [settled] with the block of the first such event and deposit =
      withdrawn = 0, and the contract has only been asked for the two
      event queries, not for the [getChannelInfo] view;
    - otherwise the view is called with (account, receiver, block); if
      the call fails, its error propagates; if it answers (with a
      deposit that is not negative, 0 included), the result is [closed]
      at the block of the first close request when there is one, and
      [opened] at the open block when there is none, with the deposit
      and withdrawn of the view. *)
Theorem getChannelInfo_states (chain : Chain) (arg : option MicroChannel)
        (w : World) (c : MicroChannel) :
  match arg with Some c' => Some c' | None => channel (client w) end = Some c ->
  channel_valid (Some c) = true ->
  (forall sev rest, settlements chain c = sev :: rest ->
     getChannelInfo chain arg w
     = (Ok (mkInfo settled (blockNumber sev) 0 0),
        called [close_query c; settle_query chain c] w)
     /\ ~ In (view_call c) [close_query c; settle_query chain c])
  /\ (settlements chain c = [] ->
      snd (getChannelInfo chain arg w)
      = called [close_query c; settle_query chain c; view_call c] w
      /\ (forall message,
            channelInfoView chain (account c) (receiver c) (block c)
            = inl message ->
            fst (getChannelInfo chain arg w) = Throw (ExternalError message))
      /\ (forall d wd,
            channelInfoView chain (account c) (receiver c) (block c)
            = inr (d, wd) ->
            0 <= d ->
            (forall cev rest, close_requests chain c = cev :: rest ->
               fst (getChannelInfo chain arg w)
               = Ok (mkInfo closed (blockNumber cev) d wd))
            /\ (close_requests chain c = [] ->
                fst (getChannelInfo chain arg w)
                = Ok (mkInfo opened (block c) d wd)))).
Proof.
  intros Hc Hv. rewrite (getChannelInfo_run chain arg w c Hc Hv). split.
  - intros sev rest ->. split; [reflexivity|].
    unfold view_call, close_query, settle_query. simpl.
    intros [H|[H|[]]]; discriminate H.
  - intros ->. split; [|split].
    + destruct (channelInfoView chain _ _ _) as [m|info]; [reflexivity|].
      destruct (0 <=? fst info); reflexivity.
    + intros message ->. reflexivity.
    + intros d wd -> Hd. simpl.
      destruct (Z.leb_spec 0 d); [|lia].
      unfold settle_bound. split.
      * intros cev rest ->. reflexivity.
      * intros ->. reflexivity.
Qed.

Lemma getChannelInfo_states_witness :
  getChannelInfo Fixtures.closing_chain None
                 (Fixtures.world_of (Some Fixtures.fresh))
  = (Ok (mkInfo closed 100 50 0),
     called [close_query Fixtures.fresh;
             settle_query Fixtures.closing_chain Fixtures.fresh;
             view_call Fixtures.fresh]
            (Fixtures.world_of (Some Fixtures.fresh))).
Proof.
  destruct (getChannelInfo_states Fixtures.closing_chain None
              (Fixtures.world_of (Some Fixtures.fresh)) Fixtures.fresh
              eq_refl eq_refl) as [_ Hlive].
  destruct (Hlive eq_refl) as (Hw & _ & Hview).
  destruct (Hview 50 0 eq_refl ltac:(lia)) as [Hclosed _].
  specialize (Hclosed (Fixtures.close_requested 100 10) [] eq_refl).
  rewrite (surjective_pairing (getChannelInfo _ _ _)), Hw, Hclosed.
  reflexivity.
Defined.

(** [getChannelInfo] only adds event queries and view calls to the list
    of calls: the client and localStorage are as before, no transaction
    is sent, and it is never pending. *)
Lemma getChannelInfo_frame (chain : Chain) (arg : option MicroChannel)
      (w : World) :
  exists cs,
    snd (getChannelInfo chain arg w) = called cs w
    /\ (forall tx, ~ In (Send tx) cs)
    /\ fst (getChannelInfo chain arg w) <> Pending.
Proof.
  destruct (channel_valid (match arg with
                           | Some c' => Some c'
                           | None => channel (client w)
                           end)) eqn:Hv.
  - destruct (match arg with Some c' => Some c' | None => channel (client w) end)
      as [c|] eqn:Hc; [|discriminate Hv].
    rewrite (getChannelInfo_run chain arg w c Hc Hv).
    destruct (settlements chain c).
    + destruct (channelInfoView chain _ _ _) as [m|info];
        [|destruct (0 <=? fst info)];
        (eexists; split; [reflexivity|split; [|simpl; discriminate]];
         intros tx [H|[H|[H|[]]]]; discriminate H).
    + eexists; split; [reflexivity|split; [|simpl; discriminate]].
      intros tx [H|[H|[]]]; discriminate H.
  - rewrite (getChannelInfo_invalid chain arg w Hv). exists [].
    unfold called. rewrite app_nil_r. simpl.
    split; [destruct w; reflexivity|split; [intros tx []|discriminate]].
Qed.

(** ** incrementBalanceAndSign *)

(** Counterexample to C3 as stated.  On a channel whose close has been
    requested (fetched state [closed], deposit 50) with a confirmed
    balance of 0, an increment of 60 exceeds the deposit, yet the
    failure is 'Tried signing on closed channel', not the [FundError]
    with current = 50 and required = 60: the state is checked first. *)
Lemma incrementBalanceAndSign_closed_before_funds :
  let w := Fixtures.world_of (Some Fixtures.fresh) in
  fst (getChannelInfo Fixtures.closing_chain None w) = Ok (mkInfo closed 100 50 0)
  /\ 50 < balance (proof Fixtures.fresh) + 60
  /\ fst (incrementBalanceAndSign Fixtures.closing_chain Fixtures.wallet
            Fixtures.recover_alice Fixtures.hash0 60 w)
     = Throw ClosedChannelSigning
  /\ fst (incrementBalanceAndSign Fixtures.closing_chain Fixtures.wallet
            Fixtures.recover_alice Fixtures.hash0 60 w)
     <> Throw (FundError 50 60).
Proof.
  repeat split. discriminate.
Qed.

(** C3, amended.  On a valid tracked channel whose info has been
    fetched: when the fetched state is not [opened],
    [incrementBalanceAndSign] fails with 'Tried signing on closed
    channel', whatever the amount; when the state is [opened] and the
    confirmed balance plus the amount exceeds the deposit, it fails with
    the [FundError] carrying current = deposit and required = confirmed
    balance + amount.  In both cases nothing is signed and the client
    (with its channel and [next_proof]) and localStorage are as before:
    the only change of the world is the calls made by [getChannelInfo]. *)
Theorem incrementBalanceAndSign_guards (chain : Chain) (provider : Provider)
        (recover : list TypedData -> string -> string + string)
        (hash : list TypedData -> string)
        (w w1 : World) (c : MicroChannel) (amount : Z)
        (info : MicroChannelInfo) :
  channel (client w) = Some c ->
  channel_valid (Some c) = true ->
  getChannelInfo chain None w = (Ok info, w1) ->
  (state info <> opened ->
     incrementBalanceAndSign chain provider recover hash amount w
     = (Throw ClosedChannelSigning, w1))
  /\ (state info = opened -> deposit info < balance (proof c) + amount ->
      incrementBalanceAndSign chain provider recover hash amount w
      = (Throw (FundError (deposit info) (balance (proof c) + amount)), w1))
  /\ client w1 = client w
  /\ localStorage w1 = localStorage w
  /\ channel (client w1) = Some c.
Proof.
  intros Hc Hv Hinfo.
  assert (Hrun : incrementBalanceAndSign chain provider recover hash amount w
                 = match state info with
                   | opened =>
                       if deposit info <? balance (proof c) + amount
                       then (Throw (FundError (deposit info)
                                              (balance (proof c) + amount)), w1)
                       else signNewProof provider recover hash
                              (Some (mkProof (balance (proof c) + amount) None)) w1
                   | _ => (Throw ClosedChannelSigning, w1)
                   end).
  { unfold incrementBalanceAndSign.
    unfold mbind at 1, M_bind at 1. rewrite isChannelValid_run, Hc, Hv. simpl.
    unfold mbind at 1, M_bind at 1. unfold this_channel at 1. run.
    rewrite Hc. simpl.
    replace (mkWorld (client w) (localStorage w) (calls w)) with w
      by (destruct w; reflexivity).
    rewrite Hinfo. destruct (state info); try reflexivity.
    destruct (deposit info <? balance (proof c) + amount); reflexivity. }
  destruct (getChannelInfo_frame chain None w) as (cs & Hw & _ & _).
  rewrite Hinfo in Hw. simpl in Hw. subst w1.
  split; [|split; [|repeat split]].
  - intros Hst. rewrite Hrun. destruct (state info); congruence.
  - intros Hst Hlt. rewrite Hrun, Hst.
    destruct (Z.ltb_spec (deposit info) (balance (proof c) + amount));
      [reflexivity|lia].
  - exact Hc.
Qed.

Lemma incrementBalanceAndSign_guards_witness :
  incrementBalanceAndSign Fixtures.open_chain Fixtures.wallet
    Fixtures.recover_alice Fixtures.hash0 60
    (Fixtures.world_of (Some Fixtures.fresh))
  = (Throw (FundError 50 60),
     called [close_query Fixtures.fresh;
             settle_query Fixtures.open_chain Fixtures.fresh;
             view_call Fixtures.fresh]
            (Fixtures.world_of (Some Fixtures.fresh))).
Proof.
  destruct (incrementBalanceAndSign_guards Fixtures.open_chain Fixtures.wallet
              Fixtures.recover_alice Fixtures.hash0
              (Fixtures.world_of (Some Fixtures.fresh))
              (called [close_query Fixtures.fresh;
                       settle_query Fixtures.open_chain Fixtures.fresh;
                       view_call Fixtures.fresh]
                      (Fixtures.world_of (Some Fixtures.fresh)))
              Fixtures.fresh 60 (mkInfo opened 10 50 0)
              eq_refl eq_refl eq_refl) as (_ & Hfunds & _).
  apply Hfunds; [reflexivity|simpl; lia].
Defined.

(** ** settleChannel *)

(** Counterexample to C7 as stated.  A client that has not read the
    challenge period ([this.challenge] is still 0) settles a channel
    whose close was requested at block 100 when the current block is
    101, although the contract's challenge period is 500 blocks: the
    [settle] transaction is sent, and nothing fails. *)
Lemma settleChannel_unread_challenge_sends :
  let w := Fixtures.world_of (Some Fixtures.fresh) in
  fst (getChannelInfo Fixtures.closing_chain None w) = Ok (mkInfo closed 100 50 0)
  /\ (currentBlockNumber Fixtures.closing_chain
      < 100 + challenge_period Fixtures.closing_chain)%N
  /\ settleChannel Fixtures.closing_chain 1 w
     = (Ok "0x7a",
        called [close_query Fixtures.fresh;
                settle_query Fixtures.closing_chain Fixtures.fresh;
                view_call Fixtures.fresh;
                Send (TxSettle Fixtures.bob 10 Fixtures.alice)] w).
Proof.
  repeat split.
Qed.

Lemma waitTx_from_world (chain : Chain) (polls i : nat) (txHash : string)
      (confirmations : N) (w : World) :
  snd (waitTx_from chain polls i txHash confirmations w) = w.
Proof.
  revert i. induction polls as [|polls IH]; intros i; simpl; [reflexivity|].
  destruct (poll chain txHash confirmations i); [reflexivity|apply IH].
Qed.

Lemma waitTx_world (chain : Chain) (polls : nat) (txHash : string)
      (confirmations : N) (w : World) :
  snd (waitTx chain polls txHash confirmations w) = w.
Proof.
  unfold waitTx, getBlockNumber. run. apply waitTx_from_world.
Qed.

(** [settleChannel] once the channel info has been fetched. *)
Lemma settleChannel_run (chain : Chain) (polls : nat) (w w1 : World)
      (c : MicroChannel) (info : MicroChannelInfo) :
  channel (client w) = Some c ->
  channel_valid (Some c) = true ->
  getChannelInfo chain None w = (Ok info, w1) ->
  let tx := TxSettle (receiver c) (block c) (account c) in
  settleChannel chain polls w
  = match state info with
    | closed =>
        if negb (challenge (client w) =? 0)%N
           && (currentBlockNumber chain <? info_block info + challenge (client w))%N
        then (Throw (InsideChallengePeriod (currentBlockNumber chain)
                       (info_block info) (challenge (client w))), w1)
        else match sendTx chain tx with
             | inr txHash =>
                 (match fst (waitTx chain polls txHash 0 (called [Send tx] w1)) with
                  | Ok _ => Ok txHash
                  | Throw e => Throw e
                  | Pending => Pending
                  end, called [Send tx] w1)
             | inl message => (Throw (ExternalError message), called [Send tx] w1)
             end
    | st => (Throw (NotClosed st), w1)
    end.
Proof.
  intros Hc Hv Hinfo tx.
  destruct (getChannelInfo_frame chain None w) as (cs & Hw & _ & _).
  rewrite Hinfo in Hw. simpl in Hw. subst w1.
  unfold settleChannel.
  unfold mbind at 1, M_bind at 1. rewrite isChannelValid_run, Hc, Hv.
  cbn [negb]. cbv beta iota. unfold mbind at 1, M_bind at 1. rewrite Hinfo.
  unfold getBlockNumber. unfold mbind at 1, M_bind at 1, mret at 1, M_ret at 1.
  unfold mbind at 1, M_bind at 1, get_client at 1.
  change (client (called cs w)) with (client w).
  destruct (state info); try reflexivity.
  destruct (negb (challenge (client w) =? 0)%N
            && (currentBlockNumber chain <? info_block info + challenge (client w))%N);
    [reflexivity|].
  unfold mbind at 1, M_bind at 1, this_channel. run. rewrite Hc. simpl.
  fold tx. unfold send. run.
  destruct (sendTx chain tx) as [message|txHash]; simpl; [reflexivity|].
  pose proof (waitTx_world chain polls txHash 0
                (called [Send tx] (called cs w))) as Hwait.
  unfold called in *. simpl in *.
  destruct (waitTx chain polls txHash 0 _) as [[r|e|] w2]; simpl in *;
    subst w2; reflexivity.
Qed.

(** C7, amended.  [settleChannel] sends the [settle(receiver, block)]
    transaction only when the channel is valid, the re-fetched state is
    [closed], and either the client's cached challenge period
    ([this.challenge], 0 until [getChallengePeriod] has been called) is 0
    or currentBlock >= closeBlock + that period; no other transaction is
    ever sent.  Whenever the state is [closed], the cached period is not 0
    and currentBlock < closeBlock + period, it fails with 'Tried settling
    inside challenge period' and sends nothing. *)
Theorem settleChannel_guards (chain : Chain) (polls : nat) (w : World) :
  (exists cs,
     snd (settleChannel chain polls w) = called cs w
     /\ forall tx, In (Send tx) cs ->
          exists c info,
            channel (client w) = Some c
            /\ channel_valid (Some c) = true
            /\ fst (getChannelInfo chain None w) = Ok info
            /\ state info = closed
            /\ (challenge (client w) = 0
                \/ info_block info + challenge (client w)
                   <= currentBlockNumber chain)%N
            /\ tx = TxSettle (receiver c) (block c) (account c))
  /\ (forall info w1,
        channel_valid (channel (client w)) = true ->
        getChannelInfo chain None w = (Ok info, w1) ->
        state info = closed ->
        challenge (client w) <> 0%N ->
        (currentBlockNumber chain < info_block info + challenge (client w))%N ->
        settleChannel chain polls w
        = (Throw (InsideChallengePeriod (currentBlockNumber chain)
                    (info_block info) (challenge (client w))), w1)
        /\ forall tx, In (Send tx) (calls w1) -> In (Send tx) (calls w)).
Proof.
  split.
  - destruct (channel_valid (channel (client w))) eqn:Hv.
    + destruct (channel (client w)) as [c|] eqn:Hc; [|discriminate Hv].
      destruct (getChannelInfo_frame chain None w) as (cs & Hw & Hns & Hnp).
      destruct (getChannelInfo chain None w) as [[info|e|] w1] eqn:Hinfo;
        simpl in Hw, Hnp; subst w1.
      * rewrite (settleChannel_run chain polls w _ c info Hc Hv Hinfo).
        cbv zeta.
        destruct (state info) eqn:Hst;
          try (exists cs; split; [reflexivity|];
               intros tx Hin; exfalso; exact (Hns tx Hin)).
        destruct (negb (challenge (client w) =? 0)%N
                  && (currentBlockNumber chain
                      <? info_block info + challenge (client w))%N) eqn:Hg.
        { exists cs; split; [reflexivity|].
          intros tx Hin; exfalso; exact (Hns tx Hin). }
        exists (cs ++ [Send (TxSettle (receiver c) (block c) (account c))])%list.
        split.
        { destruct (sendTx chain _); unfold called; simpl;
            rewrite <- app_assoc; reflexivity. }
        intros tx Hin. apply in_app_or in Hin as [Hin|[Hin|[]]];
          [exfalso; exact (Hns tx Hin)|].
        injection Hin as <-. exists c, info.
        repeat split; try assumption.
        apply andb_false_iff in Hg as [Hg|Hg].
        -- left. apply negb_false_iff, N.eqb_eq in Hg. exact Hg.
        -- right. apply N.ltb_ge in Hg. exact Hg.
      * exists cs. split.
        -- unfold settleChannel. unfold mbind at 1, M_bind at 1.
           rewrite isChannelValid_run, Hc, Hv. cbn [negb]. cbv beta iota.
           unfold mbind at 1, M_bind at 1. rewrite Hinfo. reflexivity.
        -- intros tx Hin; exfalso; exact (Hns tx Hin).
      * exfalso. apply Hnp. reflexivity.
    + exists []. split.
      * unfold settleChannel. unfold mbind at 1, M_bind at 1.
        rewrite isChannelValid_run, Hv. simpl. unfold called.
        rewrite app_nil_r. destruct w; reflexivity.
      * intros tx [].
  - intros info w1 Hv Hinfo Hst Hch Hlt.
    destruct (channel (client w)) as [c|] eqn:Hc; [|discriminate Hv].
    rewrite (settleChannel_run chain polls w w1 c info Hc Hv Hinfo).
    cbv zeta. rewrite Hst.
    destruct (N.eqb_spec (challenge (client w)) 0) as [E|_]; [contradiction|].
    destruct (N.ltb_spec (currentBlockNumber chain)
                         (info_block info + challenge (client w))) as [_|E];
      [|lia].
    split; [reflexivity|].
    destruct (getChannelInfo_frame chain None w) as (cs & Hw & Hns & _).
    rewrite Hinfo in Hw. simpl in Hw. subst w1. simpl.
    intros tx Hin. apply in_app_or in Hin as [Hin|Hin]; [exact Hin|].
    exfalso. exact (Hns tx Hin).
Qed.

Lemma settleChannel_guards_witness :
  settleChannel Fixtures.closing_chain 1
                (Fixtures.world_with_challenge (Some Fixtures.fresh) 500)
  = (Throw (InsideChallengePeriod 101 100 500),
     called [close_query Fixtures.fresh;
             settle_query Fixtures.closing_chain Fixtures.fresh;
             view_call Fixtures.fresh]
            (Fixtures.world_with_challenge (Some Fixtures.fresh) 500)).
Proof.
  destruct (settleChannel_guards Fixtures.closing_chain 1
              (Fixtures.world_with_challenge (Some Fixtures.fresh) 500))
    as [_ Hearly].
  apply (Hearly (mkInfo closed 100 50 0)); try reflexivity.
  simpl. lia.
Defined.

(** ** loadChannelFromBlockchain *)

(** Against a number below 2^26, [eqn] is equality, and the loops of the
    filter callback never stop on an assertion. *)
Lemma refers_to_below (evs : list EventLog) (num : N) (also : bool) :
  (num < 2 ^ 26)%N ->
  refers_to evs num also
  = inr (existsb (fun e => match _open_block_number e with
                           | Some b => (b =? num)%N
                           | None => false
                           end && also) evs).
Proof.
  change (2 ^ 26)%N with 67108864%N. intros Hnum.
  induction evs as [|e evs IH]; simpl; [reflexivity|].
  destruct (_open_block_number e) as [b|]; simpl; [|exact IH].
  unfold BN.eqn. change (2 ^ 26)%N with 67108864%N.
  destruct (N.leb_spec 67108864 b) as [Hb|Hb].
  - simpl. rewrite IH. destruct (N.eqb_spec b num); [lia|reflexivity].
  - destruct (N.ltb_spec 67108863 num); [lia|].
    destruct ((b =? num)%N && also); [reflexivity|]. rewrite IH. reflexivity.
Qed.

Lemma filter_events_total (keep : EventLog -> string + bool)
      (evs : list EventLog) :
  (forall ev, In ev evs -> exists kept, keep ev = inr kept) ->
  exists l, filter_events keep evs = inr l
            /\ forall ev, In ev l <-> In ev evs /\ keep ev = inr true.
Proof.
  induction evs as [|e evs IH]; intros Hall; simpl.
  - exists []. split; [reflexivity|]. intros ev. simpl. tauto.
  - destruct (Hall e (or_introl eq_refl)) as (kept & Hk).
    destruct (IH (fun ev H => Hall ev (or_intror H))) as (l & Hl & Hin).
    rewrite Hk, Hl. eexists. split; [reflexivity|].
    intros ev. destruct kept; simpl; rewrite Hin.
    + split.
      * intros [<-|[H1 H2]]; [split; [left; reflexivity|exact Hk]|].
        split; [right; exact H1|exact H2].
      * intros [[<-|H1] H2]; [left; reflexivity|right; split; assumption].
    + split.
      * intros [H1 H2]. split; [right; exact H1|exact H2].
      * intros [[<-|H1] H2]; [congruence|split; assumption].
Qed.

Section Discovery.

Variable chain : Chain.
Variables sender rcv : string.

Lemma first_valid_accepts (pre post : list EventLog) (ev : EventLog) (w : World) :
  (forall e, In e pre -> rejects chain (candidate sender rcv e)) ->
  accepts chain (candidate sender rcv ev) ->
  exists cs,
    first_valid chain sender rcv (pre ++ ev :: post) w
    = (Ok (Some (candidate sender rcv ev)), called cs w).
Proof.
  revert w. induction pre as [|e pre IH]; intros w Hrej Hacc; simpl.
  - destruct (Hacc w) as (info & w' & Hinfo).
    destruct (getChannelInfo_frame chain (Some (candidate sender rcv ev)) w)
      as (cs & Hw & _).
    rewrite Hinfo in Hw. simpl in Hw. subst w'.
    exists cs. unfold try_catch. unfold mbind, M_bind. rewrite Hinfo.
    reflexivity.
  - destruct (Hrej e (or_introl eq_refl) w) as (err & w' & Hinfo).
    destruct (getChannelInfo_frame chain (Some (candidate sender rcv e)) w)
      as (cs & Hw & _).
    rewrite Hinfo in Hw. simpl in Hw. subst w'.
    destruct (IH (called cs w) (fun e' H => Hrej e' (or_intror H)) Hacc)
      as (cs' & Hrest).
    exists (cs ++ cs')%list. unfold try_catch. unfold mbind, M_bind.
    rewrite Hinfo. rewrite Hrest. unfold called. simpl.
    rewrite <- app_assoc. reflexivity.
Qed.

Lemma first_valid_rejects (l : list EventLog) (w : World) :
  (forall e, In e l -> rejects chain (candidate sender rcv e)) ->
  exists cs, first_valid chain sender rcv l w = (Ok None, called cs w).
Proof.
  revert w. induction l as [|e l IH]; intros w Hrej; simpl.
  - exists []. unfold called. rewrite app_nil_r. destruct w; reflexivity.
  - destruct (Hrej e (or_introl eq_refl) w) as (err & w' & Hinfo).
    destruct (getChannelInfo_frame chain (Some (candidate sender rcv e)) w)
      as (cs & Hw & _).
    rewrite Hinfo in Hw. simpl in Hw. subst w'.
    destruct (IH (called cs w) (fun e' H => Hrej e' (or_intror H)))
      as (cs' & Hrest).
    exists (cs ++ cs')%list. unfold try_catch. unfold mbind, M_bind.
    rewrite Hinfo. rewrite Hrest. unfold called. simpl.
    rewrite <- app_assoc. reflexivity.
Qed.

(** The filter callback on a candidate opened below block 2^26. *)
Lemma still_open_below (from : N) (ev : EventLog) :
  (blockNumber ev < 2 ^ 26)%N ->
  exists kept,
    still_open (settle_events chain sender rcv from)
               (close_events chain sender rcv from)
               (challenge_period chain) (currentBlockNumber chain) ev
    = inr kept
    /\ (kept = true <-> ~ excluded chain sender rcv from ev).
Proof.
  intros Hsmall. unfold still_open.
  rewrite !(refers_to_below _ _ _ Hsmall).
  destruct (existsb _ (settle_events chain sender rcv from)) eqn:Es.
  - exists false. split; [reflexivity|]. split; [discriminate|].
    intros Hnex. exfalso. apply Hnex. left.
    apply existsb_exists in Es as (sev & Hsin & Hb).
    exists sev. split; [exact Hsin|].
    apply andb_prop in Hb as [Hb _].
    destruct (_open_block_number sev) as [b|]; [|discriminate Hb].
    apply N.eqb_eq in Hb. congruence.
  - destruct (existsb _ (close_events chain sender rcv from)) eqn:Ec.
    + exists false. split; [reflexivity|]. split; [discriminate|].
      intros Hnex. exfalso. apply Hnex. right.
      apply existsb_exists in Ec as (cev & Hcin & Hb).
      exists cev. split; [exact Hcin|].
      apply andb_prop in Hb as [Hb Hlt].
      destruct (_open_block_number cev) as [b|]; [|discriminate Hb].
      apply N.eqb_eq in Hb. apply N.ltb_lt in Hlt.
      split; [congruence|exact Hlt].
    + exists true. split; [reflexivity|]. split; [|reflexivity].
      intros _ [(sev & Hsin & Href)|(cev & Hcin & Href & Hlt)].
      * assert (E : existsb (fun e => match _open_block_number e with
                                      | Some b => (b =? blockNumber ev)%N
                                      | None => false
                                      end && true)
                            (settle_events chain sender rcv from) = true).
        { apply existsb_exists. exists sev. split; [exact Hsin|].
          rewrite Href, N.eqb_refl. reflexivity. }
        congruence.
      * assert (E : existsb (fun e => match _open_block_number e with
                                      | Some b => (b =? blockNumber ev)%N
                                      | None => false
                                      end
                                      && (currentBlockNumber chain
                                          <? blockNumber ev + challenge_period chain)%N)
                            (close_events chain sender rcv from) = true).
        { apply existsb_exists. exists cev. split; [exact Hcin|].
          rewrite Href, N.eqb_refl. simpl. apply N.ltb_lt. exact Hlt. }
        congruence.
Qed.

(** [stillOpen] when every creation event is below block 2^26: the
    creation events that are not excluded. *)
Lemma stillOpen_below (from : N) :
  (forall ev, In ev (open_events chain sender rcv from) ->
              (blockNumber ev < 2 ^ 26)%N) ->
  exists so,
    stillOpen chain sender rcv from = inr so
    /\ forall ev, In ev so
                  <-> In ev (open_events chain sender rcv from)
                      /\ ~ excluded chain sender rcv from ev.
Proof.
  intros Hsmall. unfold stillOpen.
  destruct (filter_events_total
              (still_open (settle_events chain sender rcv from)
                          (close_events chain sender rcv from)
                          (challenge_period chain) (currentBlockNumber chain))
              (open_events chain sender rcv from)) as (so & Hso & Hin).
  { intros ev Hev. destruct (still_open_below from ev (Hsmall ev Hev))
      as (kept & Hk & _). exists kept. exact Hk. }
  exists so. split; [exact Hso|]. intros ev. rewrite Hin.
  split; intros [Hev H]; (split; [exact Hev|]);
    destruct (still_open_below from ev (Hsmall ev Hev)) as (kept & Hk & Hiff).
  - apply Hiff. congruence.
  - apply Hiff in H. rewrite Hk, H. reflexivity.
Qed.

Lemma loadChannelFromBlockchain_run (w : World) :
  (0 < challenge_period chain)%N ->
  loadChannelFromBlockchain chain sender rcv w
  = match open_events chain sender rcv (startBlock (client w)) with
    | [] =>
        (Throw NoChannelFound,
         called [GetPastEvents ChannelCreated sender rcv None
                               (startBlock (client w))] w)
    | _ :: _ =>
        match stillOpen chain sender rcv (startBlock (client w)) with
        | inr so =>
            match first_valid chain sender rcv so (scanned chain sender rcv w) with
            | (Ok (Some c), w3) => (Ok c, stored c w3)
            | (Ok None, w3) => (Throw (NoOpenValidChannel (length so)), w3)
            | (Throw e, w3) => (Throw e, w3)
            | (Pending, w3) => (Pending, w3)
            end
        | inl message =>
            (Throw (ExternalError message), scanned chain sender rcv w)
        end
    end.
Proof.
  intros Hpos. unfold loadChannelFromBlockchain.
  unfold mbind at 1, M_bind at 1, get_client at 1.
  unfold mbind at 1, M_bind at 1, getPastEvents at 1. run.
  fold (open_events chain sender rcv (startBlock (client w))).
  unfold stillOpen, close_events, settle_events.
  destruct (open_events chain sender rcv (startBlock (client w)))
    as [|ev0 evs] eqn:Eo; [reflexivity|].
  cbv beta iota. rewrite <- Eo.
  unfold getPastEvents, getBlockNumber, getChallengePeriod. run.
  destruct (N.ltb_spec 0 (challenge_period chain)) as [_|E]; [|lia].
  simpl. unfold scanned. rewrite <- !app_assoc. simpl.
  destruct (filter_events _ _) as [message|so]; [reflexivity|].
  match goal with
  | |- context [first_valid chain sender rcv ?l ?w0] =>
      destruct (first_valid chain sender rcv l w0) as [[[c|]|e|] w3]
  end; try reflexivity.
  unfold mbind, M_bind. rewrite setChannel_run. reflexivity.
Qed.

End Discovery.

(** C5 at the failing input.  A channel opened at block 2^26 = 67108864
    and settled at block 67108900: the settlement refers to that exact
    open block, so the candidate is excluded by (a); yet the filter of
    [loadChannelFromBlockchain] keeps it ([eqn] answers false for every
    block number of more than 26 bits), [getChannelInfo] succeeds on it
    (with state [settled]), and the settled channel is returned and
    tracked as the open channel.  The same history on a channel opened
    at block 10 is refused with 'No open and valid channels found'. *)
Theorem loadChannelFromBlockchain_settled_at_2_26 :
  let w := Fixtures.world_of None in
  let ev := Fixtures.created 67108864 in
  let c := mkChannel Fixtures.alice Fixtures.bob 67108864 (mkProof 0 None)
                     None None in
  settle_events Fixtures.late_chain Fixtures.alice Fixtures.bob 0
  = [Fixtures.settled_at 67108900 67108864]
  /\ excluded Fixtures.late_chain Fixtures.alice Fixtures.bob 0 ev
  /\ stillOpen Fixtures.late_chain Fixtures.alice Fixtures.bob 0 = inr [ev]
  /\ fst (loadChannelFromBlockchain Fixtures.late_chain Fixtures.alice
            Fixtures.bob w) = Ok c
  /\ channel (client (snd (loadChannelFromBlockchain Fixtures.late_chain
                             Fixtures.alice Fixtures.bob w))) = Some c
  /\ fst (getChannelInfo Fixtures.late_chain (Some c) w)
     = Ok (mkInfo settled 67108900 0 0)
  /\ fst (loadChannelFromBlockchain Fixtures.settled_chain Fixtures.alice
            Fixtures.bob w) = Throw (NoOpenValidChannel 0).
Proof.
  split; [reflexivity|]. split.
  { left. exists (Fixtures.settled_at 67108900 67108864).
    split; [left; reflexivity|reflexivity]. }
  split; [reflexivity|]. split; [vm_compute; reflexivity|].
  split; [vm_compute; reflexivity|].
  split; vm_compute; reflexivity.
Qed.

(** ** setChannel then loadStoredChannel *)

Lemma hex_of_N_truthy (n : N) : JS.truthy_string (BN.hex_of_N n) = true.
Proof.
  unfold BN.hex_of_N. destruct n as [|p]; [reflexivity|]. simpl.
  pose proof (HexadecimalPos.Unsigned.to_uint_nonnil p) as Hnil.
  destruct (Pos.to_hex_uint p); [contradiction|..]; reflexivity.
Qed.

Lemma toJSON_truthy (z : Z) : JS.truthy_string (BN.toJSON z) = true.
Proof.
  unfold BN.toJSON, BN.toString16. destruct z; try apply hex_of_N_truthy.
  reflexivity.
Qed.

Lemma proof_of_json_to_json (p : MicroProof) :
  proof_of_json (proof_to_json p) = Some (reparsed_proof p).
Proof.
  destruct p as [b [s|]]; reflexivity.
Qed.

(** Decoding a written record gives the channel back, except that every
    balance has been printed in base 16 and read in base 10. *)
Lemma channel_of_json_to_json (c : MicroChannel) :
  channel_of_json (channel_to_json c) = Some (reparsed c).
Proof.
  destruct c as [a r b p np cs].
  unfold channel_of_json, channel_to_json, reparsed. simpl.
  destruct (Z.leb_spec 0 (Z.of_N b)) as [_|E]; [|lia]. simpl.
  rewrite proof_of_json_to_json. simpl. rewrite N2Z.id.
  destruct np as [q|]; destruct cs as [s|]; simpl; try reflexivity;
    unfold next_proof_of_json; simpl;
    rewrite proof_of_json_to_json; reflexivity.
Qed.

(** Loading a stored record that passes the guards. *)
Lemma loadStoredChannel_found (w : World) (account receiver : string)
      (items : gmap string JSON) (value : JSON) (c : MicroChannel) :
  localStorage w = Some items ->
  items !! storage_key account receiver = Some value ->
  Json.truthy (Some value) = true ->
  Json.truthy (Json.get "proof" value) = true ->
  Json.truthy (Json.get "proof" value ≫= Json.get "balance") = true ->
  channel_of_json value = Some c ->
  loadStoredChannel account receiver w = (Ok true, tracked c w).
Proof.
  intros Hst Hl H1 H2 H3 Hc. unfold loadStoredChannel.
  unfold mbind at 1, M_bind at 1, get_storage at 1. rewrite Hst, Hl.
  rewrite H1, H2, H3, Hc. reflexivity.
Qed.

(** With a [localStorage], saving a channel and loading it under its
    own account and receiver succeeds and tracks the re-parsed channel. *)
Lemma setChannel_loadStoredChannel (w : World) (c : MicroChannel)
      (items : gmap string JSON) :
  localStorage w = Some items ->
  (setChannel c;; loadStoredChannel (account c) (receiver c)) w
  = (Ok true, tracked (reparsed c) (stored c w)).
Proof.
  intros Hst. unfold mbind, M_bind. rewrite setChannel_run.
  apply (loadStoredChannel_found _ _ _
           (<[storage_key (account c) (receiver c) := channel_to_json c]> items)
           (channel_to_json c)).
  - unfold stored. simpl. rewrite Hst. reflexivity.
  - apply lookup_insert_eq.
  - reflexivity.
  - reflexivity.
  - simpl. apply toJSON_truthy.
  - apply channel_of_json_to_json.
Qed.

(** C8 at the failing input.  A channel with a confirmed balance of 16
    is saved and loaded back: the record holds the balance as ["10"]
    (base 16), the loaded channel has a balance of 10. *)
Theorem setChannel_loadStoredChannel_balance_16 :
  let c := mkChannel Fixtures.alice Fixtures.bob 10 (mkProof 16 None) None None in
  let w := Fixtures.world_of None in
  Json.get "proof" (channel_to_json c) ≫= Json.get "balance" = Some (JStr "10")
  /\ (setChannel c;; loadStoredChannel Fixtures.alice Fixtures.bob) w
     = (Ok true,
        tracked (mkChannel Fixtures.alice Fixtures.bob 10 (mkProof 10 None) None None)
                (stored c w))
  /\ mkChannel Fixtures.alice Fixtures.bob 10 (mkProof 10 None) None None <> c.
Proof.
  split; [reflexivity|]. split.
  - apply (setChannel_loadStoredChannel (Fixtures.world_of None)
             (mkChannel Fixtures.alice Fixtures.bob 10 (mkProof 16 None) None None)
             ∅ eq_refl).
  - discriminate.
Qed.

(** * Further properties of the client *)

(** ** forgetStoredChannel and rejected records *)

Lemma forgetStoredChannel_run (w : World) :
  forgetStoredChannel w
  = match channel (client w) with
    | None => (Ok tt, w)
    | Some c =>
        (Ok tt,
         forgotten (mkWorld (client w)
                            (delete (storage_key (account c) (receiver c))
                               <$> localStorage w)
                            (calls w)))
    end.
Proof.
  unfold forgetStoredChannel, forgotten. run.
  destruct w as [[[c|] ch sb ca] st cs]; simpl; [|reflexivity].
  destruct st; reflexivity.
Qed.

(** X1.  [forgetStoredChannel] on a tracked channel deletes the tracked
    channel and removes its record, and only its record: every other key
    of localStorage reads as before, and a later [loadStoredChannel] for
    the same account and receiver returns false.  Without a tracked
    channel it does nothing, whatever localStorage holds. *)
Theorem forgetStoredChannel_correct (w : World) :
  (channel (client w) = None -> forgetStoredChannel w = (Ok tt, w))
  /\ (forall c, channel (client w) = Some c ->
        exists w',
          forgetStoredChannel w = (Ok tt, w')
          /\ channel (client w') = None
          /\ calls w' = calls w
          /\ loadStoredChannel (account c) (receiver c) w' = (Ok false, w')
          /\ (forall items : gmap string JSON,
                localStorage w = Some items ->
                exists items' : gmap string JSON,
                  localStorage w' = Some items'
                  /\ items' !! storage_key (account c) (receiver c) = None
                  /\ forall k, k <> storage_key (account c) (receiver c) ->
                               items' !! k = items !! k)
          /\ (localStorage w = None -> localStorage w' = None)).
Proof.
  split.
  - intros Hc. rewrite forgetStoredChannel_run, Hc. reflexivity.
  - intros c Hc. rewrite forgetStoredChannel_run, Hc.
    eexists. split; [reflexivity|]. split; [reflexivity|].
    split; [reflexivity|]. split; [|split].
    + unfold loadStoredChannel, forgotten. run.
      destruct (localStorage w) as [items|]; simpl; [|reflexivity].
      rewrite lookup_delete_eq. reflexivity.
    + intros items Hst. simpl. rewrite Hst. simpl. eexists.
      split; [reflexivity|]. split; [apply lookup_delete_eq|].
      intros k Hk. apply lookup_delete_ne. congruence.
    + intros Hst. simpl. rewrite Hst. reflexivity.
Qed.

Lemma forgetStoredChannel_correct_witness :
  exists w',
    forgetStoredChannel (stored Fixtures.paying (Fixtures.world_of None)) = (Ok tt, w')
    /\ channel (client w') = None
    /\ loadStoredChannel Fixtures.alice Fixtures.bob w' = (Ok false, w').
Proof.
  destruct (forgetStoredChannel_correct
              (stored Fixtures.paying (Fixtures.world_of None))) as [_ Hforget].
  destruct (Hforget Fixtures.paying eq_refl) as (w' & H1 & H2 & _ & H3 & _).
  exists w'. repeat split; assumption.
Defined.

(** X2.  A stored record without a truthy [proof.balance] (no [proof],
    no [balance], an empty string, the number 0, or a record that is
    [null]) makes [loadStoredChannel] return false, and, unlike a missing
    record, leaves the tracked channel as it is. *)
Theorem loadStoredChannel_rejected (w : World) (account receiver : string)
        (items : gmap string JSON) (value : JSON) :
  localStorage w = Some items ->
  items !! storage_key account receiver = Some value ->
  Json.truthy (Json.get "proof" value ≫= Json.get "balance") = false ->
  loadStoredChannel account receiver w = (Ok false, w).
Proof.
  intros Hst Hl Hb. unfold loadStoredChannel.
  unfold mbind at 1, M_bind at 1, get_storage at 1. rewrite Hst, Hl, Hb.
  rewrite !orb_true_r. reflexivity.
Qed.

Lemma loadStoredChannel_rejected_witness :
  let record := JObj [("account", JStr Fixtures.alice);
                      ("receiver", JStr Fixtures.bob);
                      ("block", JNum 10);
                      ("proof", JObj [("balance", JNum 0)])] in
  let w := mkWorld (mkClient (Some Fixtures.paying) 0 0 Fixtures.manager)
                   (Some {[storage_key Fixtures.alice Fixtures.bob := record]}) [] in
  loadStoredChannel Fixtures.alice Fixtures.bob w = (Ok false, w).
Proof.
  intros record w.
  apply (loadStoredChannel_rejected w Fixtures.alice Fixtures.bob
           {[storage_key Fixtures.alice Fixtures.bob := record]} record);
    reflexivity.
Defined.

(** ** The proof operations, case by case *)

Lemma world_eta (w : World) :
  mkWorld (client w) (localStorage w) (calls w) = w.
Proof. destruct w; reflexivity. Qed.

Lemma confirmPayment_run (p : MicroProof) (w : World) :
  confirmPayment p w
  = match channel (client w) with
    | None => (Throw TypeError, w)
    | Some c =>
        match next_proof c with
        | Some np =>
            if JS.truthy (sig np) && JS.strict_eq (sig np) (sig p)
            then (Ok tt, stored (with_next_proof (with_proof c np) None) w)
            else (Throw InvalidNextSignature, w)
        | None => (Throw InvalidNextSignature, w)
        end
    end.
Proof.
  unfold confirmPayment. run. destruct w as [cl st cs]; simpl.
  destruct (channel cl) as [c|]; simpl; [|reflexivity].
  destruct (next_proof c) as [np|]; [|reflexivity].
  destruct (JS.truthy (sig np)); simpl; [|reflexivity].
  destruct (JS.strict_eq (sig np) (sig p)); simpl; [|reflexivity].
  apply setChannel_run.
Qed.

Lemma setBalance_run (value : Z) (w : World) :
  setBalance value w
  = match channel (client w) with
    | None => (Throw TypeError, w)
    | Some c =>
        if balance (proof c) =? value
        then (Ok tt, w)
        else (Ok tt, stored (with_next_proof (with_proof c (mkProof value None)) None) w)
    end.
Proof.
  unfold setBalance. run. destruct w as [cl st cs]; simpl.
  destruct (channel cl) as [c|]; simpl; [|reflexivity].
  destruct (balance (proof c) =? value); [reflexivity|apply setChannel_run].
Qed.

Lemma verifyProof_run (recover : list TypedData -> string -> string + string)
      (p : MicroProof) (w : World) :
  verifyProof recover p w
  = if JS.truthy (sig p)
    then match channel (client w) with
         | None => (Throw TypeError, w)
         | Some c =>
             match recover (balance_proof_params (contractAddress (client w)) c p)
                           (default "" (sig p)) with
             | inr recovered =>
                 if String.eqb recovered (account c)
                 then (Ok true, stored (with_next_proof (with_proof c p) None) w)
                 else (Ok false, w)
             | inl message => (Throw (ExternalError message), w)
             end
         end
    else (Throw MissingSignature, w).
Proof.
  unfold verifyProof. destruct (sig p) as [s|]; [|reflexivity].
  destruct s as [|a s']; [reflexivity|]. simpl.
  unfold getBalanceProofSignatureParams, recover_signer. run.
  destruct w as [cl st cs]; simpl.
  destruct (channel cl) as [c|] eqn:Hc; simpl; [|reflexivity].
  destruct (recover _ _) as [message|recovered]; simpl; [reflexivity|].
  rewrite Hc. simpl.
  destruct (String.eqb _ (account c)); simpl; [|reflexivity].
  rewrite setChannel_run. reflexivity.
Qed.

Lemma signNewProof_invalid (provider : Provider)
      (recover : list TypedData -> string -> string + string)
      (hash : list TypedData -> string) (arg : option MicroProof) (w : World) :
  channel_valid (channel (client w)) = false ->
  signNewProof provider recover hash arg w = (Throw NoValidChannelInfo, w).
Proof.
  intros Hv. unfold signNewProof. unfold mbind at 1, M_bind at 1.
  rewrite isChannelValid_run, Hv. reflexivity.
Qed.

Lemma signNewProof_signed (provider : Provider)
      (recover : list TypedData -> string -> string + string)
      (hash : list TypedData -> string) (p : MicroProof) (w : World) :
  channel_valid (channel (client w)) = true ->
  JS.truthy (sig p) = true ->
  signNewProof provider recover hash (Some p) w = (Ok p, w).
Proof.
  intros Hv Hp. unfold signNewProof. unfold mbind at 1, M_bind at 1.
  rewrite isChannelValid_run, Hv. cbn [negb]. cbv beta iota.
  unfold this_channel. run.
  destruct w as [cl st cs]; simpl in *.
  destruct (channel cl) as [c|]; [|discriminate Hv]. simpl.
  rewrite Hp. reflexivity.
Qed.

Lemma signNewProof_default (provider : Provider)
      (recover : list TypedData -> string -> string + string)
      (hash : list TypedData -> string) (w : World) (c : MicroChannel) :
  channel (client w) = Some c ->
  signNewProof provider recover hash None w
  = signNewProof provider recover hash (Some (proof c)) w.
Proof.
  intros Hc. unfold signNewProof, isChannelValid. run. rewrite Hc. simpl.
  destruct (JS.truthy_string (receiver c) && negb (block c =? 0)%N
            && JS.truthy_string (account c)); simpl; [|reflexivity].
  rewrite Hc. reflexivity.
Qed.

(** Every world that [signNewProof] can leave behind. *)
Lemma signNewProof_world (provider : Provider)
      (recover : list TypedData -> string -> string + string)
      (hash : list TypedData -> string) (arg : option MicroProof) (w : World) :
  snd (signNewProof provider recover hash arg w) = w
  \/ exists c', snd (signNewProof provider recover hash arg w) = stored c' w.
Proof.
  destruct (channel_valid (channel (client w))) eqn:Hv.
  - destruct (channel (client w)) as [c|] eqn:Hc; [|discriminate Hv].
    assert (Hgen : forall p,
               snd (signNewProof provider recover hash (Some p) w) = w
               \/ exists c', snd (signNewProof provider recover hash (Some p) w)
                             = stored c' w).
    { intros p. destruct (JS.truthy (sig p)) eqn:Hp.
      - left. rewrite signNewProof_signed; [reflexivity|rewrite Hc; exact Hv|exact Hp].
      - rewrite (signNewProof_run provider recover hash w c p Hc Hv Hp).
        cbv zeta.
        destruct (fst (request_signature provider hash _ (account c) w));
          try (left; reflexivity).
        destruct (recover _ _); [left; reflexivity|].
        destruct (String.eqb _ (account c)); [|left; reflexivity].
        right. eexists. reflexivity. }
    destruct arg as [p|]; [apply Hgen|].
    rewrite (signNewProof_default provider recover hash w c Hc). apply Hgen.
  - left. rewrite signNewProof_invalid; [reflexivity|exact Hv].
Qed.

Lemma in_sync_stored (c : MicroChannel) (w : World) : in_sync (stored c w).
Proof.
  intros c' items Hc Hst. unfold stored in *. simpl in *.
  injection Hc as <-.
  destruct (localStorage w) as [items0|]; [|discriminate Hst].
  injection Hst as <-. apply lookup_insert_eq.
Qed.

Lemma in_sync_called (cs : list ContractCall) (w : World) :
  in_sync w -> in_sync (called cs w).
Proof. intros H c items Hc Hst. exact (H c items Hc Hst). Qed.

Lemma incrementBalanceAndSign_invalid (chain : Chain) (provider : Provider)
      (recover : list TypedData -> string -> string + string)
      (hash : list TypedData -> string) (amount : Z) (w : World) :
  channel_valid (channel (client w)) = false ->
  incrementBalanceAndSign chain provider recover hash amount w
  = (Throw NoValidChannelInfo, w).
Proof.
  intros Hv. unfold incrementBalanceAndSign. unfold mbind at 1, M_bind at 1.
  rewrite isChannelValid_run, Hv. reflexivity.
Qed.

Lemma incrementBalanceAndSign_run (chain : Chain) (provider : Provider)
      (recover : list TypedData -> string -> string + string)
      (hash : list TypedData -> string) (amount : Z) (w : World)
      (c : MicroChannel) :
  channel (client w) = Some c ->
  channel_valid (Some c) = true ->
  incrementBalanceAndSign chain provider recover hash amount w
  = match getChannelInfo chain None w with
    | (Ok info, w1) =>
        match state info with
        | opened =>
            if deposit info <? balance (proof c) + amount
            then (Throw (FundError (deposit info) (balance (proof c) + amount)), w1)
            else signNewProof provider recover hash
                   (Some (mkProof (balance (proof c) + amount) None)) w1
        | _ => (Throw ClosedChannelSigning, w1)
        end
    | (Throw e, w1) => (Throw e, w1)
    | (Pending, w1) => (Pending, w1)
    end.
Proof.
  intros Hc Hv. unfold incrementBalanceAndSign.
  unfold mbind at 1, M_bind at 1. rewrite isChannelValid_run, Hc, Hv.
  cbn [negb]. cbv beta iota.
  unfold mbind at 1, M_bind at 1, this_channel at 1. run. rewrite Hc. simpl.
  replace (mkWorld (client w) (localStorage w) (calls w)) with w
    by (destruct w; reflexivity).
  destruct (getChannelInfo chain None w) as [[info|e|] w1]; try reflexivity.
  destruct (state info); try reflexivity.
  destruct (deposit info <? balance (proof c) + amount); reflexivity.
Qed.

(** ** The stored record follows the tracked channel *)

(** X3.  Every operation that changes the tracked channel through
    [setChannel] keeps localStorage in step with it: if the record under
    the tracked channel's key is the tracked channel before
    [confirmPayment], [setBalance], [verifyProof], [signNewProof],
    [incrementBalanceAndSign] or [forgetStoredChannel], it is so after,
    whatever the outcome; and it is so after [setChannel] in any case. *)
Theorem storage_stays_in_sync (chain : Chain) (provider : Provider)
        (recover : list TypedData -> string -> string + string)
        (hash : list TypedData -> string) (w : World) :
  (forall c, in_sync (snd (setChannel c w)))
  /\ (in_sync w ->
      (forall p, in_sync (snd (confirmPayment p w)))
      /\ (forall value, in_sync (snd (setBalance value w)))
      /\ (forall p, in_sync (snd (verifyProof recover p w)))
      /\ (forall arg, in_sync (snd (signNewProof provider recover hash arg w)))
      /\ (forall amount,
            in_sync (snd (incrementBalanceAndSign chain provider recover hash
                            amount w)))
      /\ in_sync (snd (forgetStoredChannel w))).
Proof.
  split.
  - intros c. rewrite setChannel_run. apply in_sync_stored.
  - intros Hw. repeat split.
    + intros p. rewrite confirmPayment_run.
      destruct (channel (client w)) as [c|]; [|exact Hw].
      destruct (next_proof c) as [np|]; [|exact Hw].
      destruct (_ && _); [apply in_sync_stored|exact Hw].
    + intros value. rewrite setBalance_run.
      destruct (channel (client w)) as [c|]; [|exact Hw].
      destruct (_ =? _); [exact Hw|apply in_sync_stored].
    + intros p. rewrite verifyProof_run.
      destruct (JS.truthy (sig p)); [|exact Hw].
      destruct (channel (client w)) as [c|]; [|exact Hw].
      destruct (recover _ _); [exact Hw|].
      destruct (String.eqb _ _); [apply in_sync_stored|exact Hw].
    + intros arg.
      destruct (signNewProof_world provider recover hash arg w) as [->|[c' ->]];
        [exact Hw|apply in_sync_stored].
    + intros amount.
      destruct (channel_valid (channel (client w))) eqn:Hv.
      * destruct (channel (client w)) as [c|] eqn:Hc; [|discriminate Hv].
        rewrite (incrementBalanceAndSign_run chain provider recover hash
                   amount w c Hc Hv).
        destruct (getChannelInfo_frame chain None w) as (cs & Hw1 & _ & _).
        destruct (getChannelInfo chain None w) as [[info|e|] w1];
          simpl in Hw1; subst w1; try (apply in_sync_called; exact Hw).
        destruct (state info); try (apply in_sync_called; exact Hw).
        destruct (_ <? _); [apply in_sync_called; exact Hw|].
        destruct (signNewProof_world provider recover hash
                    (Some (mkProof (balance (proof c) + amount) None))
                    (called cs w)) as [->|[c' ->]];
          [apply in_sync_called; exact Hw|apply in_sync_stored].
      * rewrite incrementBalanceAndSign_invalid; [exact Hw|exact Hv].
    + rewrite forgetStoredChannel_run.
      destruct (channel (client w)) as [c|]; [|exact Hw].
      intros c' items Hc'. discriminate Hc'.
Qed.

Lemma storage_stays_in_sync_witness :
  in_sync (snd (confirmPayment (mkProof 7 (Some "0x07"))
                  (stored Fixtures.paying (Fixtures.world_of None)))).
Proof.
  destruct (storage_stays_in_sync Fixtures.open_chain Fixtures.wallet
              Fixtures.recover_alice Fixtures.hash0
              (stored Fixtures.paying (Fixtures.world_of None)))
    as [_ Hkeep].
  apply Hkeep. apply in_sync_stored.
Defined.

(** ** Signing, confirming, paying *)

(** A successful [signNewProof] on an unsigned proof, spelled out. *)
Lemma signNewProof_success (provider : Provider)
      (recover : list TypedData -> string -> string + string)
      (hash : list TypedData -> string)
      (w w' : World) (p signed : MicroProof) :
  JS.truthy (sig p) = false ->
  signNewProof provider recover hash (Some p) w = (Ok signed, w') ->
  exists c s,
    channel (client w) = Some c
    /\ channel_valid (Some c) = true
    /\ signed = with_sig p s
    /\ recover (balance_proof_params (contractAddress (client w)) c p) s
       = inr (account c)
    /\ w' = stored (if balance p =? balance (proof c)
                    then with_next_proof (with_proof c signed) (Some signed)
                    else with_next_proof c (Some signed)) w.
Proof.
  intros Hp Hrun.
  destruct (channel_valid (channel (client w))) eqn:Hv;
    [|rewrite signNewProof_invalid in Hrun by exact Hv; discriminate Hrun].
  destruct (channel (client w)) as [c|] eqn:Hc; [|discriminate Hv].
  rewrite (signNewProof_run provider recover hash w c p Hc Hv Hp) in Hrun.
  cbv zeta in Hrun.
  destruct (fst (request_signature provider hash _ (account c) w))
    as [s|e|]; try discriminate Hrun.
  destruct (recover _ s) as [message|recovered] eqn:Hrec0; [discriminate Hrun|].
  destruct (String.eqb recovered (account c)) eqn:Hrec;
    [|discriminate Hrun].
  injection Hrun as <- <-. apply String.eqb_eq in Hrec. subst recovered.
  exists c, s. repeat split; assumption.
Qed.

(** X4.  [signNewProof] does not sign twice: when it has returned a
    proof with a (non-empty) signature, calling it again on that proof,
    with any provider, returns the same proof and changes nothing; and
    when the proof given was already signed, the first call returned it
    as it was and changed nothing either. *)
Theorem signNewProof_idempotent (provider provider' : Provider)
        (recover recover' : list TypedData -> string -> string + string)
        (hash hash' : list TypedData -> string)
        (w w' : World) (p signed : MicroProof) :
  signNewProof provider recover hash (Some p) w = (Ok signed, w') ->
  JS.truthy (sig signed) = true ->
  signNewProof provider' recover' hash' (Some signed) w' = (Ok signed, w')
  /\ (JS.truthy (sig p) = true -> signed = p /\ w' = w).
Proof.
  intros Hrun Hs.
  destruct (JS.truthy (sig p)) eqn:Hp.
  - destruct (channel_valid (channel (client w))) eqn:Hv;
      [|rewrite signNewProof_invalid in Hrun by exact Hv; discriminate Hrun].
    rewrite signNewProof_signed in Hrun by assumption.
    injection Hrun as <- <-.
    split; [|intros _; split; reflexivity].
    apply signNewProof_signed; assumption.
  - split; [|discriminate].
    destruct (signNewProof_success provider recover hash w w' p signed Hp Hrun)
      as (c & s & Hc & Hv & -> & _ & ->).
    apply signNewProof_signed; [|exact Hs].
    destruct (balance p =? balance (proof c)); exact Hv.
Qed.

Lemma signNewProof_idempotent_witness :
  signNewProof Fixtures.wallet Fixtures.recover_alice Fixtures.hash0
    (Some (mkProof 7 (Some (Fixtures.sig65 "51"))))
    (stored (with_next_proof Fixtures.fresh (Some (mkProof 7 (Some (Fixtures.sig65 "51")))))
            (Fixtures.world_of (Some Fixtures.fresh)))
  = (Ok (mkProof 7 (Some (Fixtures.sig65 "51"))),
     stored (with_next_proof Fixtures.fresh (Some (mkProof 7 (Some (Fixtures.sig65 "51")))))
            (Fixtures.world_of (Some Fixtures.fresh))).
Proof.
  apply (signNewProof_idempotent Fixtures.wallet Fixtures.wallet
           Fixtures.recover_alice Fixtures.recover_alice
           Fixtures.hash0 Fixtures.hash0
           (Fixtures.world_of (Some Fixtures.fresh)) _
           (mkProof 7 None) (mkProof 7 (Some (Fixtures.sig65 "51")))); reflexivity.
Defined.

(** X5.  Signing then confirming promotes the proof: after a successful
    [signNewProof] on an unsigned proof that got a non-empty signature,
    [confirmPayment] with the returned proof succeeds, and the tracked and
    persisted channel is the channel from before the signing with [proof]
    = the signed proof and no [next_proof]. *)
Theorem signNewProof_then_confirmPayment (provider : Provider)
        (recover : list TypedData -> string -> string + string)
        (hash : list TypedData -> string)
        (w w' : World) (p signed : MicroProof) :
  JS.truthy (sig p) = false ->
  signNewProof provider recover hash (Some p) w = (Ok signed, w') ->
  JS.truthy (sig signed) = true ->
  exists c,
    channel (client w) = Some c
    /\ confirmPayment signed w'
       = (Ok tt, stored (with_next_proof (with_proof c signed) None) w')
    /\ balance signed = balance p.
Proof.
  intros Hp Hrun Hs.
  destruct (signNewProof_success provider recover hash w w' p signed Hp Hrun)
    as (c & s & Hc & Hv & Hsigned & _ & Hw').
  exists c. split; [exact Hc|]. split; [|subst signed; reflexivity].
  rewrite confirmPayment_run. subst w'.
  assert (Heq : JS.strict_eq (sig signed) (sig signed) = true).
  { destruct (sig signed) as [x|]; [apply String.eqb_refl|reflexivity]. }
  destruct (balance p =? balance (proof c)); simpl; rewrite Hs, Heq; reflexivity.
Qed.

Lemma signNewProof_then_confirmPayment_witness :
  exists c,
    channel (client (Fixtures.world_of (Some Fixtures.fresh))) = Some c
    /\ confirmPayment (mkProof 7 (Some (Fixtures.sig65 "51")))
         (stored (with_next_proof Fixtures.fresh (Some (mkProof 7 (Some (Fixtures.sig65 "51")))))
                 (Fixtures.world_of (Some Fixtures.fresh)))
       = (Ok tt,
          stored (with_next_proof (with_proof c (mkProof 7 (Some (Fixtures.sig65 "51")))) None)
                 (stored (with_next_proof Fixtures.fresh
                                          (Some (mkProof 7 (Some (Fixtures.sig65 "51")))))
                         (Fixtures.world_of (Some Fixtures.fresh))))
    /\ balance (mkProof 7 (Some (Fixtures.sig65 "51"))) = balance (mkProof 7 None).
Proof.
  apply (signNewProof_then_confirmPayment Fixtures.wallet
           Fixtures.recover_alice Fixtures.hash0
           (Fixtures.world_of (Some Fixtures.fresh)) _
           (mkProof 7 None) (mkProof 7 (Some (Fixtures.sig65 "51")))); reflexivity.
Defined.

(** X6.  A payment is confirmed once: after a successful
    [confirmPayment], a second [confirmPayment], with the same or any
    other proof, fails with 'Invalid provided or stored next signature'
    and changes nothing. *)
Theorem confirmPayment_once (w w' : World) (p q : MicroProof) :
  confirmPayment p w = (Ok tt, w') ->
  confirmPayment q w' = (Throw InvalidNextSignature, w').
Proof.
  intros Hrun. rewrite confirmPayment_run in Hrun.
  destruct (channel (client w)) as [c|]; [|discriminate Hrun].
  destruct (next_proof c) as [np|]; [|discriminate Hrun].
  destruct (_ && _); [|discriminate Hrun].
  injection Hrun as <-. rewrite confirmPayment_run. reflexivity.
Qed.

Lemma confirmPayment_once_witness :
  confirmPayment (mkProof 7 (Some "0x07"))
    (stored (with_next_proof (with_proof Fixtures.paying (mkProof 7 (Some "0x07"))) None)
            (Fixtures.world_of (Some Fixtures.paying)))
  = (Throw InvalidNextSignature,
     stored (with_next_proof (with_proof Fixtures.paying (mkProof 7 (Some "0x07"))) None)
            (Fixtures.world_of (Some Fixtures.paying))).
Proof.
  apply (confirmPayment_once (Fixtures.world_of (Some Fixtures.paying)) _
           (mkProof 7 (Some "0x07")) (mkProof 7 (Some "0x07"))).
  reflexivity.
Defined.

(** X7.  A payment is never signed beyond the deposit: when
    [incrementBalanceAndSign] succeeds, the channel was valid, its
    fetched state was [opened], the signed balance is the confirmed
    balance plus the amount and does not exceed the fetched deposit, the
    signature recovers to the channel's [account], and the signed proof
    is the tracked channel's [next_proof]. *)
Theorem incrementBalanceAndSign_within_deposit (chain : Chain)
        (provider : Provider)
        (recover : list TypedData -> string -> string + string)
        (hash : list TypedData -> string)
        (w w' : World) (amount : Z) (signed : MicroProof) :
  incrementBalanceAndSign chain provider recover hash amount w = (Ok signed, w') ->
  exists c info s c',
    channel (client w) = Some c
    /\ channel_valid (Some c) = true
    /\ fst (getChannelInfo chain None w) = Ok info
    /\ state info = opened
    /\ signed = mkProof (balance (proof c) + amount) (Some s)
    /\ balance signed <= deposit info
    /\ recover (balance_proof_params (contractAddress (client w)) c
                  (mkProof (balance (proof c) + amount) None)) s
       = inr (account c)
    /\ channel (client w') = Some c'
    /\ next_proof c' = Some signed.
Proof.
  intros Hrun.
  destruct (channel_valid (channel (client w))) eqn:Hv;
    [|rewrite incrementBalanceAndSign_invalid in Hrun by exact Hv;
      discriminate Hrun].
  destruct (channel (client w)) as [c|] eqn:Hc; [|discriminate Hv].
  rewrite (incrementBalanceAndSign_run chain provider recover hash amount w c
             Hc Hv) in Hrun.
  destruct (getChannelInfo_frame chain None w) as (cs & Hw1 & _ & _).
  destruct (getChannelInfo chain None w) as [[info|e|] w1] eqn:Hinfo;
    simpl in Hw1; subst w1; try discriminate Hrun.
  destruct (state info) eqn:Hst; try discriminate Hrun.
  destruct (Z.ltb_spec (deposit info) (balance (proof c) + amount)) as [|Hle];
    [discriminate Hrun|].
  apply signNewProof_success in Hrun; [|reflexivity].
  destruct Hrun as (c0 & s & Hc0 & _ & Hsigned & Hrec & Hw').
  simpl in Hc0. rewrite Hc in Hc0. injection Hc0 as <-.
  exists c, info, s.
  eexists. split; [reflexivity|]. split; [exact Hv|]. split; [reflexivity|].
  split; [exact Hst|]. split; [exact Hsigned|].
  split; [subst signed; exact Hle|]. split; [exact Hrec|].
  subst w'. simpl. split; [reflexivity|].
  destruct (_ =? _); reflexivity.
Qed.

Lemma incrementBalanceAndSign_within_deposit_witness :
  exists c info s c',
    channel (client (Fixtures.world_of (Some Fixtures.fresh))) = Some c
    /\ channel_valid (Some c) = true
    /\ fst (getChannelInfo Fixtures.open_chain None
              (Fixtures.world_of (Some Fixtures.fresh))) = Ok info
    /\ state info = opened
    /\ mkProof 7 (Some (Fixtures.sig65 "51")) = mkProof (balance (proof c) + 7) (Some s)
    /\ balance (mkProof 7 (Some (Fixtures.sig65 "51"))) <= deposit info
    /\ Fixtures.recover_alice
         (balance_proof_params
            (contractAddress (client (Fixtures.world_of (Some Fixtures.fresh))))
            c (mkProof (balance (proof c) + 7) None)) s
       = inr (account c)
    /\ channel (client
         (stored (with_next_proof Fixtures.fresh (Some (mkProof 7 (Some (Fixtures.sig65 "51")))))
            (called [close_query Fixtures.fresh;
                     settle_query Fixtures.open_chain Fixtures.fresh;
                     view_call Fixtures.fresh]
                    (Fixtures.world_of (Some Fixtures.fresh))))) = Some c'
    /\ next_proof c' = Some (mkProof 7 (Some (Fixtures.sig65 "51"))).
Proof.
  apply (incrementBalanceAndSign_within_deposit Fixtures.open_chain
           Fixtures.wallet Fixtures.recover_alice Fixtures.hash0
           (Fixtures.world_of (Some Fixtures.fresh)) _ 7
           (mkProof 7 (Some (Fixtures.sig65 "51")))).
  reflexivity.
Defined.

Lemma settleChannel_invalid (chain : Chain) (polls : nat) (w : World) :
  channel_valid (channel (client w)) = false ->
  settleChannel chain polls w = (Throw NoValidChannelInfo, w).
Proof.
  intros Hv. unfold settleChannel. unfold mbind at 1, M_bind at 1.
  rewrite isChannelValid_run, Hv. reflexivity.
Qed.

Lemma signMessage_invalid (provider : Provider) (msg : string) (w : World) :
  channel_valid (channel (client w)) = false ->
  signMessage provider msg w = (Throw NoValidChannelInfo, w).
Proof.
  intros Hv. unfold signMessage. unfold mbind at 1, M_bind at 1.
  rewrite isChannelValid_run, Hv. reflexivity.
Qed.

(** X8.  Without a valid tracked channel (none, or one with an empty
    account or receiver, or block 0), [getChannelInfo], [settleChannel],
    [signMessage], [signNewProof] and [incrementBalanceAndSign] all fail
    with 'No valid channelInfo' before anything else happens: no call to
    the contract, no signing request, no change of the client or of
    localStorage. *)
Theorem invalid_channel_stops_everything (chain : Chain) (provider : Provider)
        (recover : list TypedData -> string -> string + string)
        (hash : list TypedData -> string) (w : World) :
  channel_valid (channel (client w)) = false ->
  getChannelInfo chain None w = (Throw NoValidChannelInfo, w)
  /\ (forall polls, settleChannel chain polls w = (Throw NoValidChannelInfo, w))
  /\ (forall msg, signMessage provider msg w = (Throw NoValidChannelInfo, w))
  /\ (forall arg, signNewProof provider recover hash arg w
                  = (Throw NoValidChannelInfo, w))
  /\ (forall amount,
        incrementBalanceAndSign chain provider recover hash amount w
        = (Throw NoValidChannelInfo, w)).
Proof.
  intros Hv. split; [apply getChannelInfo_invalid; exact Hv|].
  split; [intros; apply settleChannel_invalid; exact Hv|].
  split; [intros; apply signMessage_invalid; exact Hv|].
  split; [intros; apply signNewProof_invalid; exact Hv|].
  intros; apply incrementBalanceAndSign_invalid; exact Hv.
Qed.

Lemma invalid_channel_stops_everything_witness :
  settleChannel Fixtures.closing_chain 1 (Fixtures.world_of None)
  = (Throw NoValidChannelInfo, Fixtures.world_of None).
Proof.
  destruct (invalid_channel_stops_everything Fixtures.closing_chain
              Fixtures.wallet Fixtures.recover_alice Fixtures.hash0
              (Fixtures.world_of None) eq_refl) as (_ & Hsettle & _).
  apply Hsettle.
Defined.

(** ** The challenge period *)

Lemma getChallengePeriod_run (chain : Chain) (w : World) :
  getChallengePeriod chain w
  = (if (0 <? challenge_period chain)%N
     then Ok (challenge_period chain)
     else Throw InvalidChallenge,
     mkWorld (mkClient (channel (client w)) (challenge_period chain)
                       (startBlock (client w)) (contractAddress (client w)))
             (localStorage w) (calls w ++ [CallChallengePeriod])).
Proof.
  unfold getChallengePeriod. run.
  destruct (0 <? challenge_period chain)%N; reflexivity.
Qed.

(** X9.  [getChallengePeriod] asks the contract once and caches the
    answer in [this.challenge] before checking it: a positive period is
    returned; a period of 0 fails with 'Invalid challenge' and leaves 0
    cached, whatever was cached before.  The tracked channel and
    localStorage are not touched. *)
Theorem getChallengePeriod_correct (chain : Chain) (w : World) :
  challenge (client (snd (getChallengePeriod chain w))) = challenge_period chain
  /\ channel (client (snd (getChallengePeriod chain w))) = channel (client w)
  /\ localStorage (snd (getChallengePeriod chain w)) = localStorage w
  /\ calls (snd (getChallengePeriod chain w)) = (calls w ++ [CallChallengePeriod])%list
  /\ ((0 < challenge_period chain)%N ->
      fst (getChallengePeriod chain w) = Ok (challenge_period chain))
  /\ (challenge_period chain = 0%N ->
      fst (getChallengePeriod chain w) = Throw InvalidChallenge).
Proof.
  rewrite getChallengePeriod_run. simpl. repeat split.
  - intros H. destruct (N.ltb_spec 0 (challenge_period chain)); [reflexivity|lia].
  - intros ->. reflexivity.
Qed.

Lemma getChallengePeriod_correct_witness :
  fst (getChallengePeriod Fixtures.closing_chain
         (Fixtures.world_of (Some Fixtures.fresh))) = Ok 500%N.
Proof.
  destruct (getChallengePeriod_correct Fixtures.closing_chain
              (Fixtures.world_of (Some Fixtures.fresh)))
    as (_ & _ & _ & _ & Hpos & _).
  apply Hpos. reflexivity.
Defined.

(** The outcome of [getChannelInfo()] depends on the tracked channel
    only, not on the rest of the world. *)
Lemma getChannelInfo_same_channel (chain : Chain) (w w2 : World) :
  channel (client w2) = channel (client w) ->
  fst (getChannelInfo chain None w2) = fst (getChannelInfo chain None w).
Proof.
  intros Hc.
  destruct (channel_valid (channel (client w))) eqn:Hv.
  - destruct (channel (client w)) as [c|] eqn:Hcw; [|discriminate Hv].
    rewrite (getChannelInfo_run chain None w c Hcw Hv).
    rewrite (getChannelInfo_run chain None w2 c Hc Hv).
    destruct (settlements chain c); [|reflexivity].
    destruct (channelInfoView chain _ _ _) as [m|info]; [reflexivity|].
    destruct (0 <=? fst info); reflexivity.
  - rewrite (getChannelInfo_invalid chain None w Hv).
    rewrite (getChannelInfo_invalid chain None w2); [reflexivity|].
    simpl. rewrite Hc. exact Hv.
Qed.

(** What [settleChannel] adds to the list of calls, and when a
    transaction is among it. *)
Lemma settleChannel_sent (chain : Chain) (polls : nat) (w : World) :
  exists cs,
    snd (settleChannel chain polls w) = called cs w
    /\ forall tx, In (Send tx) cs ->
         exists c info,
           channel (client w) = Some c
           /\ fst (getChannelInfo chain None w) = Ok info
           /\ state info = closed
           /\ (challenge (client w) = 0
               \/ info_block info + challenge (client w)
                  <= currentBlockNumber chain)%N
           /\ tx = TxSettle (receiver c) (block c) (account c).
Proof.
  destruct (channel_valid (channel (client w))) eqn:Hv.
  - destruct (channel (client w)) as [c|] eqn:Hc; [|discriminate Hv].
    destruct (getChannelInfo_frame chain None w) as (cs & Hw & Hns & Hnp).
    destruct (getChannelInfo chain None w) as [[info|e|] w1] eqn:Hinfo;
      simpl in Hw, Hnp; subst w1.
    + rewrite (settleChannel_run chain polls w _ c info Hc Hv Hinfo).
      cbv zeta.
      destruct (state info) eqn:Hst;
        try (exists cs; split; [reflexivity|];
             intros tx Hin; exfalso; exact (Hns tx Hin)).
      destruct (negb (challenge (client w) =? 0)%N
                && (currentBlockNumber chain
                    <? info_block info + challenge (client w))%N) eqn:Hg.
      { exists cs; split; [reflexivity|].
        intros tx Hin; exfalso; exact (Hns tx Hin). }
      exists (cs ++ [Send (TxSettle (receiver c) (block c) (account c))])%list.
      split.
      { destruct (sendTx chain _); unfold called; simpl;
          rewrite <- app_assoc; reflexivity. }
      intros tx Hin. apply in_app_or in Hin as [Hin|[Hin|[]]];
        [exfalso; exact (Hns tx Hin)|].
      injection Hin as <-. exists c, info.
      repeat split; try assumption.
      apply andb_false_iff in Hg as [Hg|Hg].
      * left. apply negb_false_iff, N.eqb_eq in Hg. exact Hg.
      * right. apply N.ltb_ge in Hg. exact Hg.
    + exists cs. split.
      * unfold settleChannel. unfold mbind at 1, M_bind at 1.
        rewrite isChannelValid_run, Hc, Hv. cbn [negb]. cbv beta iota.
        unfold mbind at 1, M_bind at 1. rewrite Hinfo. reflexivity.
      * intros tx Hin; exfalso; exact (Hns tx Hin).
    + exfalso. apply Hnp. reflexivity.
  - exists []. rewrite settleChannel_invalid by exact Hv. split.
    + unfold called. rewrite app_nil_r. destruct w; reflexivity.
    + intros tx [].
Qed.

(** X10.  Once [getChallengePeriod] has succeeded, [settleChannel]
    respects the contract's challenge period: in
    [getChallengePeriod(); settleChannel()] a [settle] transaction is sent
    only for a tracked channel whose fetched state is [closed] and with
    currentBlock >= closeBlock + the contract's challenge period. *)
Theorem getChallengePeriod_then_settleChannel (chain : Chain) (polls : nat)
        (w : World) (tx : Transaction) :
  (0 < challenge_period chain)%N ->
  In (Send tx)
     (calls (snd ((getChallengePeriod chain;; settleChannel chain polls) w))) ->
  In (Send tx) (calls w)
  \/ exists c info,
       channel (client w) = Some c
       /\ fst (getChannelInfo chain None w) = Ok info
       /\ state info = closed
       /\ (info_block info + challenge_period chain
           <= currentBlockNumber chain)%N
       /\ tx = TxSettle (receiver c) (block c) (account c).
Proof.
  intros Hpos Hin. unfold mbind, M_bind in Hin.
  rewrite getChallengePeriod_run in Hin.
  destruct (N.ltb_spec 0 (challenge_period chain)) as [_|E]; [|lia].
  set (w1 := mkWorld _ _ _) in Hin.
  destruct (settleChannel_sent chain polls w1) as (cs & Hw & Hsent).
  rewrite Hw in Hin. simpl in Hin.
  apply in_app_or in Hin as [Hin|Hin].
  - apply in_app_or in Hin as [Hin|[Hin|[]]]; [left; exact Hin|discriminate Hin].
  - right. destruct (Hsent tx Hin) as (c & info & Hc & Hinfo & Hst & Hwin & Htx).
    exists c, info. split; [exact Hc|].
    split; [rewrite <- Hinfo; symmetry;
            apply getChannelInfo_same_channel; reflexivity|].
    split; [exact Hst|]. split; [|exact Htx].
    simpl in Hwin. destruct Hwin as [H0|Hle]; [lia|exact Hle].
Qed.

Lemma getChallengePeriod_then_settleChannel_witness :
  In (Send (TxSettle Fixtures.bob 10 Fixtures.alice))
     (calls (Fixtures.world_of (Some Fixtures.fresh)))
  \/ exists c info,
       channel (client (Fixtures.world_of (Some Fixtures.fresh))) = Some c
       /\ fst (getChannelInfo (Fixtures.chain_of
                                 [Fixtures.created 10;
                                  Fixtures.close_requested 100 10] 600 50)
                 None (Fixtures.world_of (Some Fixtures.fresh))) = Ok info
       /\ state info = closed
       /\ (info_block info + 500 <= 600)%N
       /\ TxSettle Fixtures.bob 10 Fixtures.alice
          = TxSettle (receiver c) (block c) (account c).
Proof.
  apply (getChallengePeriod_then_settleChannel
           (Fixtures.chain_of [Fixtures.created 10;
                               Fixtures.close_requested 100 10] 600 50)
           1 (Fixtures.world_of (Some Fixtures.fresh))
           (TxSettle Fixtures.bob 10 Fixtures.alice)).
  - reflexivity.
  - vm_compute. right. right. right. right. left. reflexivity.
Defined.

(** ** waitTx *)

(** A round of the loop yields a receipt exactly when the transaction is
    mined (the receipt has a block number) and has the confirmations. *)
Lemma poll_Some (chain : Chain) (txHash : string) (confirmations : N)
      (i : nat) (receipt : N) :
  poll chain txHash confirmations i = Some receipt
  <-> receiptAt chain i txHash = Some receipt
      /\ receipt <> 0%N
      /\ Z.of_N confirmations <= Z.of_N (blockAt chain i) - Z.of_N receipt.
Proof.
  unfold poll. destruct (receiptAt chain i txHash) as [r|].
  - destruct (N.eqb_spec r 0) as [->|Hr].
    + split; [discriminate|]. intros (H & Hne & _). injection H as <-.
      contradiction.
    + destruct (Z.ltb_spec (Z.of_N (blockAt chain i) - Z.of_N r)
                           (Z.of_N confirmations)) as [Hlt|Hge].
      * split; [discriminate|]. intros (H & _ & Hle). injection H as <-. lia.
      * split.
        -- intros H. injection H as <-. repeat split; assumption.
        -- intros (H & _ & _). exact H.
  - split; [discriminate|]. intros (H & _). discriminate H.
Qed.

Lemma waitTx_from_spec (chain : Chain) (txHash : string) (confirmations : N)
      (w : World) (polls i : nat) :
  match fst (waitTx_from chain polls i txHash confirmations w) with
  | Ok receipt =>
      exists k, (k < polls)%nat
                /\ poll chain txHash confirmations (i + k) = Some receipt
                /\ forall j, (j < k)%nat ->
                             poll chain txHash confirmations (i + j) = None
  | Pending =>
      forall k, (k < polls)%nat ->
                poll chain txHash confirmations (i + k) = None
  | Throw _ => False
  end.
Proof.
  revert i. induction polls as [|polls IH]; intros i; simpl.
  - intros k Hk. lia.
  - destruct (poll chain txHash confirmations i) as [r|] eqn:Hp; simpl.
    + exists O. split; [lia|]. rewrite Nat.add_0_r. split; [exact Hp|].
      intros j Hj. lia.
    + specialize (IH (S i)).
      destruct (fst (waitTx_from chain polls (S i) txHash confirmations w))
        as [r|e|].
      * destruct IH as (k & Hk & Hr & Hnone). exists (S k).
        split; [lia|]. split.
        -- replace (i + S k)%nat with (S i + k)%nat by lia. exact Hr.
        -- intros [|j] Hj; [rewrite Nat.add_0_r; exact Hp|].
           replace (i + S j)%nat with (S i + j)%nat by lia.
           apply Hnone. lia.
      * exact IH.
      * intros [|k] Hk; [rewrite Nat.add_0_r; exact Hp|].
        replace (i + S k)%nat with (S i + k)%nat by lia. apply IH. lia.
Qed.

(** X11.  [waitTx] resolves with the receipt seen at the first poll at
    which the transaction is mined and currentBlock - receipt.blockNumber
    >= confirmations, and at no earlier poll; it stays pending as long as
    no poll within the budget is such; it never fails and changes
    nothing in the client. *)
Theorem waitTx_correct (chain : Chain) (polls : nat) (txHash : string)
        (confirmations : N) (w : World) :
  snd (waitTx chain polls txHash confirmations w) = w
  /\ (forall receipt,
        fst (waitTx chain polls txHash confirmations w) = Ok receipt <->
        exists k, (k < polls)%nat
                  /\ receiptAt chain k txHash = Some receipt
                  /\ receipt <> 0%N
                  /\ Z.of_N confirmations
                     <= Z.of_N (blockAt chain k) - Z.of_N receipt
                  /\ forall j, (j < k)%nat ->
                               poll chain txHash confirmations j = None)
  /\ (fst (waitTx chain polls txHash confirmations w) = Pending <->
      forall k, (k < polls)%nat -> poll chain txHash confirmations k = None)
  /\ (forall e, fst (waitTx chain polls txHash confirmations w) <> Throw e).
Proof.
  split; [apply waitTx_world|].
  assert (Hrun : fst (waitTx chain polls txHash confirmations w)
                 = fst (waitTx_from chain polls O txHash confirmations w)).
  { unfold waitTx, getBlockNumber. run. reflexivity. }
  rewrite Hrun.
  pose proof (waitTx_from_spec chain txHash confirmations w polls O) as Hspec.
  simpl in Hspec.
  destruct (fst (waitTx_from chain polls O txHash confirmations w))
    as [r|e|].
  - destruct Hspec as (k & Hk & Hr & Hnone).
    split; [|split].
    + intros receipt. split.
      * intros H. injection H as <-. exists k. split; [exact Hk|].
        apply poll_Some in Hr as (H1 & H2 & H3). repeat split; assumption.
      * intros (k' & Hk' & H1 & H2 & H3 & Hnone').
        assert (Hr' : poll chain txHash confirmations k' = Some receipt)
          by (apply poll_Some; repeat split; assumption).
        destruct (Nat.lt_trichotomy k k') as [Hlt|[Heq|Hgt]].
        -- rewrite (Hnone' k Hlt) in Hr. discriminate Hr.
        -- subst k'. congruence.
        -- rewrite (Hnone k' Hgt) in Hr'. discriminate Hr'.
    + split; [discriminate|]. intros Hall. rewrite (Hall k Hk) in Hr.
      discriminate Hr.
    + discriminate.
  - contradiction.
  - split; [|split].
    + intros receipt. split; [discriminate|].
      intros (k & Hk & H1 & H2 & H3 & _).
      assert (Hr : poll chain txHash confirmations k = Some receipt)
        by (apply poll_Some; repeat split; assumption).
      rewrite (Hspec k Hk) in Hr. discriminate Hr.
    + split; [intros _; exact Hspec|reflexivity].
    + discriminate.
Qed.

(** ** getChannelInfo reads only *)

(** X12.  Whatever its argument and its outcome, [getChannelInfo]
    changes neither the client nor localStorage, sends no transaction and
    does not ask for the challenge period: it adds to the calls at most
    the two event queries and the [getChannelInfo] view, and it is never
    left pending. *)
Theorem getChannelInfo_reads_only (chain : Chain) (arg : option MicroChannel)
        (w : World) :
  client (snd (getChannelInfo chain arg w)) = client w
  /\ localStorage (snd (getChannelInfo chain arg w)) = localStorage w
  /\ (exists cs,
        calls (snd (getChannelInfo chain arg w)) = (calls w ++ cs)%list
        /\ (length cs <= 3)%nat
        /\ forall call, In call cs ->
             (exists name a r ob from, call = GetPastEvents name a r ob from)
             \/ (exists a r b, call = CallGetChannelInfo a r b))
  /\ fst (getChannelInfo chain arg w) <> Pending.
Proof.
  destruct (channel_valid (match arg with
                           | Some c' => Some c'
                           | None => channel (client w)
                           end)) eqn:Hv.
  - destruct (match arg with Some c' => Some c' | None => channel (client w) end)
      as [c|] eqn:Hc; [|discriminate Hv].
    rewrite (getChannelInfo_run chain arg w c Hc Hv).
    destruct (settlements chain c).
    + destruct (channelInfoView chain _ _ _) as [m|info];
        [|destruct (0 <=? fst info)];
        (split; [reflexivity|]; split; [reflexivity|];
         split; [|simpl; discriminate];
         eexists; split; [reflexivity|]; split; [simpl; lia|];
         intros call [<-|[<-|[<-|[]]]]; unfold close_query, settle_query,
           view_call; eauto 10).
    + split; [reflexivity|]. split; [reflexivity|].
      split; [|simpl; discriminate].
      eexists; split; [reflexivity|]; split; [simpl; lia|].
      intros call [<-|[<-|[]]]; unfold close_query, settle_query; eauto 10.
  - rewrite (getChannelInfo_invalid chain arg w Hv). simpl.
    split; [reflexivity|]. split; [reflexivity|]. split; [|discriminate].
    exists []. split; [rewrite app_nil_r; reflexivity|].
    split; [simpl; lia|]. intros call [].
Qed.

(** ** What loadChannelFromBlockchain returns *)

(** Success of [getChannelInfo] on a given channel does not depend on
    the world it runs in. *)
Lemma getChannelInfo_accepts (chain : Chain) (c : MicroChannel) (w w' : World)
      (info : MicroChannelInfo) :
  getChannelInfo chain (Some c) w = (Ok info, w') ->
  accepts chain c /\ channel_valid (Some c) = true.
Proof.
  intros Hrun.
  destruct (channel_valid (Some c)) eqn:Hv.
  - split; [|reflexivity]. intros w0.
    rewrite (getChannelInfo_run chain (Some c) w c eq_refl Hv) in Hrun.
    rewrite (getChannelInfo_run chain (Some c) w0 c eq_refl Hv).
    destruct (settlements chain c); [|eexists; eexists; reflexivity].
    destruct (channelInfoView chain _ _ _) as [m|i]; [discriminate Hrun|].
    destruct (0 <=? fst i); [|discriminate Hrun].
    eexists; eexists; reflexivity.
  - rewrite (getChannelInfo_invalid chain (Some c) w Hv) in Hrun.
    discriminate Hrun.
Qed.

Lemma getChannelInfo_rejects (chain : Chain) (c : MicroChannel) (w w' : World)
      (e : Error) :
  getChannelInfo chain (Some c) w = (Throw e, w') -> rejects chain c.
Proof.
  intros Hrun w0.
  destruct (channel_valid (Some c)) eqn:Hv.
  - rewrite (getChannelInfo_run chain (Some c) w c eq_refl Hv) in Hrun.
    rewrite (getChannelInfo_run chain (Some c) w0 c eq_refl Hv).
    destruct (settlements chain c); [|discriminate Hrun].
    destruct (channelInfoView chain _ _ _) as [m|i];
      [eexists; eexists; reflexivity|].
    destruct (0 <=? fst i); [discriminate Hrun|].
    eexists; eexists; reflexivity.
  - rewrite (getChannelInfo_invalid chain (Some c) w0 Hv).
    eexists; eexists; reflexivity.
Qed.

Lemma first_valid_sound (chain : Chain) (sender rcv : string)
      (l : list EventLog) (w w' : World) (c : MicroChannel) :
  first_valid chain sender rcv l w = (Ok (Some c), w') ->
  exists pre ev post,
    l = (pre ++ ev :: post)%list
    /\ c = candidate sender rcv ev
    /\ accepts chain c
    /\ (forall e, In e pre -> rejects chain (candidate sender rcv e))
    /\ client w' = client w
    /\ localStorage w' = localStorage w.
Proof.
  revert w. induction l as [|e l IH]; intros w Hrun; simpl in Hrun.
  - discriminate Hrun.
  - unfold try_catch in Hrun. unfold mbind, M_bind in Hrun.
    destruct (getChannelInfo_frame chain (Some (candidate sender rcv e)) w)
      as (cs & Hw & _ & Hnp).
    destruct (getChannelInfo chain (Some (candidate sender rcv e)) w)
      as [[info|err|] w1] eqn:Hinfo; simpl in Hw, Hnp; subst w1.
    + injection Hrun as <- <-.
      exists [], e, l. split; [reflexivity|]. split; [reflexivity|].
      split; [exact (proj1 (getChannelInfo_accepts chain _ _ _ _ Hinfo))|].
      split; [intros e' []|]. split; reflexivity.
    + destruct (IH _ Hrun) as (pre & ev & post & -> & Hc & Hacc & Hrej & H1 & H2).
      exists (e :: pre), ev, post. split; [reflexivity|].
      split; [exact Hc|]. split; [exact Hacc|]. split.
      * intros e' [<-|Hin];
          [exact (getChannelInfo_rejects chain _ _ _ _ Hinfo)|exact (Hrej e' Hin)].
      * split; [exact H1|exact H2].
    + exfalso. apply Hnp. reflexivity.
Qed.

Lemma loadChannelFromBlockchain_needs_challenge (chain : Chain)
      (sender rcv : string) (w w' : World) (c : MicroChannel) :
  loadChannelFromBlockchain chain sender rcv w = (Ok c, w') ->
  (0 < challenge_period chain)%N.
Proof.
  intros Hrun. destruct (N.ltb_spec 0 (challenge_period chain)) as [H|H];
    [exact H|exfalso].
  assert (E : challenge_period chain = 0%N) by lia.
  revert Hrun. unfold loadChannelFromBlockchain.
  unfold getPastEvents, getBlockNumber, getChallengePeriod. run.
  destruct (List.filter _ (logs chain)); [discriminate|].
  rewrite E. simpl. discriminate.
Qed.

(** X13.  What discovery returns is sound.  As long as the creation
    events lie below block 2^26 (where [eqn] compares block numbers as
    numbers), when [loadChannelFromBlockchain] succeeds the channel
    returned is the zero-balance, unsigned channel of a [ChannelCreated]
    event of this sender and receiver, from [startBlock] on, that is not
    excluded (no settlement refers to its open block, no close request
    within openBlock + challenge > currentBlock); [getChannelInfo]
    succeeds on it and failed on every candidate before it; it is a valid
    channel, it is now the tracked channel and its record is in
    localStorage. *)
Theorem loadChannelFromBlockchain_sound (chain : Chain) (sender rcv : string)
        (w w' : World) (c : MicroChannel) :
  (forall ev, In ev (open_events chain sender rcv (startBlock (client w))) ->
              (blockNumber ev < 2 ^ 26)%N) ->
  loadChannelFromBlockchain chain sender rcv w = (Ok c, w') ->
  exists pre ev post,
    stillOpen chain sender rcv (startBlock (client w))
    = inr (pre ++ ev :: post)%list
    /\ c = mkChannel sender rcv (blockNumber ev) (mkProof 0 None) None None
    /\ In ev (open_events chain sender rcv (startBlock (client w)))
    /\ ~ excluded chain sender rcv (startBlock (client w)) ev
    /\ accepts chain c
    /\ (forall e, In e pre -> rejects chain (candidate sender rcv e))
    /\ channel_valid (Some c) = true
    /\ channel (client w') = Some c
    /\ challenge (client w') = challenge_period chain
    /\ in_sync w'.
Proof.
  intros Hsmall Hrun.
  pose proof (loadChannelFromBlockchain_needs_challenge chain sender rcv
                w w' c Hrun) as Hpos.
  rewrite (loadChannelFromBlockchain_run chain sender rcv w Hpos) in Hrun.
  destruct (stillOpen_below chain sender rcv (startBlock (client w)) Hsmall)
    as (so & Hso & Hmem).
  rewrite Hso in Hrun.
  destruct (open_events chain sender rcv (startBlock (client w)))
    as [|ev0 evs] eqn:Eo; [discriminate Hrun|].
  destruct (first_valid chain sender rcv so (scanned chain sender rcv w))
    as [[[c0|]|e|] w3] eqn:Hfv; try discriminate Hrun.
  injection Hrun as <- <-.
  destruct (first_valid_sound chain sender rcv _ _ _ _ Hfv)
    as (pre & ev & post & Hsplit & Hc & Hacc & Hrej & Hcl & Hst).
  exists pre, ev, post. split; [rewrite Hso, Hsplit; reflexivity|].
  split; [exact Hc|].
  assert (Hin : In ev so)
    by (rewrite Hsplit; apply in_or_app; right; left; reflexivity).
  apply Hmem in Hin as [Hopen Hnex].
  split; [exact Hopen|]. split; [exact Hnex|]. split; [exact Hacc|].
  split; [exact Hrej|].
  split.
  { destruct (Hacc w) as (info & w0 & Hinfo).
    exact (proj2 (getChannelInfo_accepts chain _ _ _ _ Hinfo)). }
  split; [reflexivity|]. split; [simpl; rewrite Hcl; reflexivity|].
  apply in_sync_stored.
Qed.

Lemma loadChannelFromBlockchain_sound_witness :
  exists pre ev post,
    stillOpen Fixtures.busy_chain Fixtures.alice Fixtures.bob 0
    = inr (pre ++ ev :: post)%list
    /\ mkChannel Fixtures.alice Fixtures.bob 60 (mkProof 0 None) None None
       = mkChannel Fixtures.alice Fixtures.bob (blockNumber ev)
                   (mkProof 0 None) None None
    /\ (forall e, In e pre ->
                  rejects Fixtures.busy_chain
                          (candidate Fixtures.alice Fixtures.bob e)).
Proof.
  destruct (loadChannelFromBlockchain_sound Fixtures.busy_chain
              Fixtures.alice Fixtures.bob (Fixtures.world_of None)
              (snd (loadChannelFromBlockchain Fixtures.busy_chain
                      Fixtures.alice Fixtures.bob (Fixtures.world_of None)))
              (mkChannel Fixtures.alice Fixtures.bob 60 (mkProof 0 None) None None))
    as (pre & ev & post & Hso & Hc & _ & _ & _ & Hrej & _).
  - intros ev Hin. vm_compute in Hin.
    destruct Hin as [<-|[<-|[<-|[]]]]; reflexivity.
  - reflexivity.
  - exists pre, ev, post. split; [exact Hso|]. split; [exact Hc|exact Hrej].
Defined.

(** X22.  Below block 2^26 discovery does what it is meant to do.  With
    a positive challenge period and every creation event of this sender
    and receiver below block 2^26, the filter ends without failure and
    - [stillOpen] holds exactly the creation events that are not
      excluded: no settlement refers to their open block, and no close
      request refers to it with openBlock + challenge > currentBlock;
    - the first candidate of [stillOpen] on which [getChannelInfo]
      succeeds, all candidates before it having failed, is returned,
      tracked and persisted with balance 0;
    - if [getChannelInfo] fails on every candidate, the operation fails:
      with 'No open and valid channels found' when there was a creation
      event, with 'No channel found for this account' when there was
      none; the tracked channel and localStorage are as before. *)
Theorem loadChannelFromBlockchain_below_2_26 (chain : Chain)
        (sender rcv : string) (w : World) :
  (0 < challenge_period chain)%N ->
  let from := startBlock (client w) in
  (forall ev, In ev (open_events chain sender rcv from) ->
              (blockNumber ev < 2 ^ 26)%N) ->
  exists so,
    stillOpen chain sender rcv from = inr so
    /\ (forall ev, In ev so
                   <-> In ev (open_events chain sender rcv from)
                       /\ ~ excluded chain sender rcv from ev)
    /\ (forall pre ev post,
          so = (pre ++ ev :: post)%list ->
          (forall e, In e pre -> rejects chain (candidate sender rcv e)) ->
          accepts chain (candidate sender rcv ev) ->
          exists cs,
            loadChannelFromBlockchain chain sender rcv w
            = (Ok (candidate sender rcv ev),
               stored (candidate sender rcv ev)
                      (called cs (scanned chain sender rcv w)))
            /\ candidate sender rcv ev
               = mkChannel sender rcv (blockNumber ev) (mkProof 0 None) None None)
    /\ ((forall e, In e so -> rejects chain (candidate sender rcv e)) ->
        exists w',
          loadChannelFromBlockchain chain sender rcv w
          = (Throw (match open_events chain sender rcv from with
                    | [] => NoChannelFound
                    | _ :: _ => NoOpenValidChannel (length so)
                    end), w')
          /\ channel (client w') = channel (client w)
          /\ localStorage w' = localStorage w).
Proof.
  intros Hpos from Hsmall.
  destruct (stillOpen_below chain sender rcv from Hsmall) as (so & Hso & Hmem).
  exists so. split; [exact Hso|]. split; [exact Hmem|]. split.
  - intros pre ev post Hsplit Hrej Hacc.
    rewrite (loadChannelFromBlockchain_run chain sender rcv w Hpos).
    fold from. rewrite Hso.
    destruct (open_events chain sender rcv from) as [|ev0 evs] eqn:Eo.
    + exfalso. unfold stillOpen in Hso. rewrite Eo in Hso. simpl in Hso.
      injection Hso as <-. destruct pre; discriminate Hsplit.
    + rewrite Hsplit.
      destruct (first_valid_accepts chain sender rcv pre post ev
                  (scanned chain sender rcv w) Hrej Hacc) as (cs & Hfv).
      rewrite Hfv. exists cs. split; reflexivity.
  - intros Hrej.
    rewrite (loadChannelFromBlockchain_run chain sender rcv w Hpos).
    fold from. rewrite Hso.
    destruct (open_events chain sender rcv from) as [|ev0 evs] eqn:Eo.
    + eexists. split; [reflexivity|]. split; reflexivity.
    + destruct (first_valid_rejects chain sender rcv so
                  (scanned chain sender rcv w) Hrej) as (cs & Hfv).
      rewrite Hfv. eexists. split; [reflexivity|]. split; reflexivity.
Qed.

Lemma loadChannelFromBlockchain_below_2_26_witness :
  exists cs,
    loadChannelFromBlockchain Fixtures.busy_chain Fixtures.alice Fixtures.bob
                              (Fixtures.world_of None)
    = (Ok (candidate Fixtures.alice Fixtures.bob (Fixtures.created 60)),
       stored (candidate Fixtures.alice Fixtures.bob (Fixtures.created 60))
              (called cs (scanned Fixtures.busy_chain Fixtures.alice Fixtures.bob
                                  (Fixtures.world_of None))))
    /\ candidate Fixtures.alice Fixtures.bob (Fixtures.created 60)
       = mkChannel Fixtures.alice Fixtures.bob 60 (mkProof 0 None) None None.
Proof.
  destruct (loadChannelFromBlockchain_below_2_26 Fixtures.busy_chain
              Fixtures.alice Fixtures.bob (Fixtures.world_of None))
    as (so & Hso & _ & Hfirst & _).
  - reflexivity.
  - intros ev Hin. vm_compute in Hin.
    destruct Hin as [<-|[<-|[<-|[]]]]; reflexivity.
  - apply (Hfirst [Fixtures.created 40] (Fixtures.created 60) []).
    + injection Hso as <-. reflexivity.
    + intros e [<-|[]] w. eexists. eexists. vm_compute. reflexivity.
    + intros w. eexists. eexists. vm_compute. reflexivity.
Defined.

(** ** Numbers as text *)

(** Evaluate the value of the digit characters in the goal. *)
Ltac digits :=
  repeat match goal with
         | |- context [BN.digit ?c] =>
             let v := eval vm_compute in (BN.digit c) in
             change (BN.digit c) with v
         | H : context [BN.digit ?c] |- _ =>
             let v := eval vm_compute in (BN.digit c) in
             change (BN.digit c) with v in H
         end.

Lemma parseBase_dec_acc (d : Decimal.uint) (acc : positive) :
  BN.parseBase (Z.pos acc) 10 (DecimalString.NilEmpty.string_of_uint d)
  = Z.pos (Pos.of_uint_acc d acc).
Proof.
  revert acc. induction d; intros acc;
    cbn [DecimalString.NilEmpty.string_of_uint BN.parseBase Pos.of_uint_acc];
    [reflexivity|..]; digits; rewrite <- IHd; f_equal; lia.
Qed.

Lemma parseBase_dec (d : Decimal.uint) :
  BN.parseBase 0 10 (DecimalString.NilEmpty.string_of_uint d)
  = Z.of_N (Pos.of_uint d).
Proof.
  induction d;
    cbn [DecimalString.NilEmpty.string_of_uint BN.parseBase Pos.of_uint];
    [reflexivity|..]; digits;
    first [exact IHd | apply parseBase_dec_acc].
Qed.

Lemma dec_of_N_parse (n : N) : BN.parseBase 0 10 (BN.dec_of_N n) = Z.of_N n.
Proof.
  unfold BN.dec_of_N.
  rewrite <- (DecimalN.Unsigned.of_to n) at 2. unfold N.of_uint.
  rewrite <- parseBase_dec.
  destruct (N.to_uint n) eqn:E; try reflexivity.
Qed.

Lemma parseBase_hex_acc (d : Hexadecimal.uint) (acc : positive) :
  BN.parseBase (Z.pos acc) 16 (HexadecimalString.NilEmpty.string_of_uint d)
  = Z.pos (Pos.of_hex_uint_acc d acc).
Proof.
  revert acc. induction d; intros acc;
    cbn [HexadecimalString.NilEmpty.string_of_uint BN.parseBase Pos.of_hex_uint_acc];
    [reflexivity|..]; digits; rewrite <- IHd; f_equal; lia.
Qed.

Lemma parseBase_hex (d : Hexadecimal.uint) :
  BN.parseBase 0 16 (HexadecimalString.NilEmpty.string_of_uint d)
  = Z.of_N (Pos.of_hex_uint d).
Proof.
  induction d;
    cbn [HexadecimalString.NilEmpty.string_of_uint BN.parseBase Pos.of_hex_uint];
    [reflexivity|..]; digits;
    first [exact IHd | apply parseBase_hex_acc].
Qed.

Lemma hex_of_N_string (n : N) :
  BN.hex_of_N n = HexadecimalString.NilEmpty.string_of_uint (N.to_hex_uint n).
Proof.
  unfold BN.hex_of_N. destruct n as [|p]; [reflexivity|]. simpl.
  pose proof (HexadecimalPos.Unsigned.to_uint_nonnil p) as Hnil.
  destruct (Pos.to_hex_uint p); [contradiction|..]; reflexivity.
Qed.

Lemma hex_of_N_parse16 (n : N) : BN.parseBase 0 16 (BN.hex_of_N n) = Z.of_N n.
Proof.
  rewrite hex_of_N_string, parseBase_hex.
  change (Pos.of_hex_uint (N.to_hex_uint n)) with (N.of_hex_uint (N.to_hex_uint n)).
  rewrite HexadecimalN.Unsigned.of_to. reflexivity.
Qed.

(* monotone / strict *)
Lemma parseBase_10_le_16 (d : Hexadecimal.uint) (a b : Z) :
  0 <= a <= b ->
  BN.parseBase a 10 (HexadecimalString.NilEmpty.string_of_uint d)
  <= BN.parseBase b 16 (HexadecimalString.NilEmpty.string_of_uint d).
Proof.
  revert a b. induction d; intros a b Hab;
    cbn [HexadecimalString.NilEmpty.string_of_uint BN.parseBase];
    [lia|..]; digits; apply IHd; lia.
Qed.

Lemma parseBase_10_lt_16 (d : Hexadecimal.uint) (a b : Z) :
  0 <= a < b ->
  BN.parseBase a 10 (HexadecimalString.NilEmpty.string_of_uint d)
  < BN.parseBase b 16 (HexadecimalString.NilEmpty.string_of_uint d).
Proof.
  revert a b. induction d; intros a b Hab;
    cbn [HexadecimalString.NilEmpty.string_of_uint BN.parseBase];
    [lia|..]; digits; apply IHd; lia.
Qed.

Lemma parseBase_16_ge (d : Hexadecimal.uint) (a : Z) :
  0 <= a -> a <= BN.parseBase a 16 (HexadecimalString.NilEmpty.string_of_uint d).
Proof.
  revert a. induction d; intros a Ha;
    cbn [HexadecimalString.NilEmpty.string_of_uint BN.parseBase];
    [lia|..]; digits;
    (etransitivity; [|apply IHd; lia]); lia.
Qed.

(* reading a hex string in base 10, from 0 *)
Lemma parseBase_hex_as_dec (d : Hexadecimal.uint) :
  let s := HexadecimalString.NilEmpty.string_of_uint d in
  (BN.parseBase 0 16 s < 16 -> BN.parseBase 0 10 s = BN.parseBase 0 16 s)
  /\ (16 <= BN.parseBase 0 16 s -> BN.parseBase 0 10 s < BN.parseBase 0 16 s).
Proof.
  induction d;
    cbn [HexadecimalString.NilEmpty.string_of_uint BN.parseBase] in *;
    [split; lia|..]; digits;
    try exact IHd;
    (destruct d;
     [cbn [HexadecimalString.NilEmpty.string_of_uint BN.parseBase]; split; lia|..];
     cbn [HexadecimalString.NilEmpty.string_of_uint BN.parseBase]; digits;
     (split;
      [intros Hlt; exfalso;
       match type of Hlt with
       | BN.parseBase ?a 16 ?s < 16 =>
           pose proof (parseBase_16_ge _ a ltac:(lia)
                       : a <= BN.parseBase a 16 s)
       end; lia
      |intros _; apply parseBase_10_lt_16; lia])).
Qed.

Lemma hex_of_N_as_dec (n : N) :
  BN.parseBase 0 10 (BN.hex_of_N n) = Z.of_N n <-> (n < 16)%N.
Proof.
  pose proof (hex_of_N_parse16 n) as H16.
  rewrite hex_of_N_string in *.
  destruct (parseBase_hex_as_dec (N.to_hex_uint n)) as [Hsmall Hbig].
  cbv zeta in Hsmall, Hbig. split.
  - intros H10. destruct (N.ltb_spec n 16) as [|Hge]; [assumption|exfalso].
    assert (16 <= BN.parseBase 0 16
                    (HexadecimalString.NilEmpty.string_of_uint (N.to_hex_uint n)))
      by lia.
    specialize (Hbig H). lia.
  - intros Hlt. rewrite Hsmall; lia.
Qed.

(** The sign is read off the first character, which a rendering of a
    natural never has as ["-"]. *)
Lemma ofString_hex_of_N (n : N) :
  BN.ofString (BN.hex_of_N n) = BN.parseBase 0 10 (BN.hex_of_N n).
Proof.
  rewrite hex_of_N_string.
  destruct (N.to_hex_uint n); reflexivity.
Qed.

Lemma ofString_toJSON (z : Z) :
  BN.ofString (BN.toJSON z) = z <-> -16 < z < 16.
Proof.
  unfold BN.toJSON, BN.toString16. destruct z as [|p|p].
  - split; [lia|reflexivity].
  - rewrite ofString_hex_of_N.
    change (Z.to_N (Z.pos p)) with (N.pos p).
    change (Z.pos p) with (Z.of_N (N.pos p)).
    rewrite hex_of_N_as_dec. lia.
  - change (BN.ofString ("-" ++ BN.hex_of_N (N.pos p)))
      with (- BN.parseBase 0 10 (BN.hex_of_N (N.pos p))).
    pose proof (hex_of_N_as_dec (N.pos p)) as H.
    change (Z.of_N (N.pos p)) with (Z.pos p) in H. split.
    + intros E. assert (BN.parseBase 0 10 (BN.hex_of_N (N.pos p)) = Z.pos p) by lia.
      apply H in H0. lia.
    + intros Hr. assert (N.pos p < 16)%N by lia. apply H in H0. lia.
Qed.

Lemma reparsed_proof_id (p : MicroProof) :
  reparsed_proof p = p <-> -16 < balance p < 16.
Proof.
  rewrite <- ofString_toJSON. destruct p as [b s]. unfold reparsed_proof. simpl.
  split; [intros H; injection H; auto|intros ->; reflexivity].
Qed.

Lemma reparsed_id (c : MicroChannel) :
  reparsed c = c
  <-> -16 < balance (proof c) < 16
      /\ forall np, next_proof c = Some np -> -16 < balance np < 16.
Proof.
  destruct c as [a r b p np cs]. unfold reparsed. simpl. split.
  - intros H. injection H as Hp Hnp. split; [apply reparsed_proof_id; exact Hp|].
    intros q ->. simpl in Hnp. injection Hnp as Hq.
    apply reparsed_proof_id. exact Hq.
  - intros [Hp Hnp]. f_equal; [apply reparsed_proof_id; exact Hp|].
    destruct np as [q|]; [|reflexivity]. simpl. f_equal.
    apply reparsed_proof_id. apply Hnp. reflexivity.
Qed.

(** X14.  With a localStorage, [setChannel] followed by
    [loadStoredChannel] under the channel's own account and receiver gives
    back exactly the channel saved if and only if its confirmed balance,
    and its pending balance when there is one, lie strictly between -16
    and 16: the record holds the balances in base 16 and they are read
    back in base 10, which agree on one hexadecimal digit only. *)
Theorem store_round_trip_iff (w : World) (c : MicroChannel)
        (items : gmap string JSON) :
  localStorage w = Some items ->
  (setChannel c;; loadStoredChannel (account c) (receiver c)) w
  = (Ok true, stored c w)
  <-> (-16 < balance (proof c) < 16
       /\ forall np, next_proof c = Some np -> -16 < balance np < 16).
Proof.
  intros Hst. rewrite (setChannel_loadStoredChannel w c items Hst).
  rewrite <- reparsed_id. split.
  - intros H. injection H as H. exact H.
  - intros ->. reflexivity.
Qed.

Lemma dec_of_N_inj (n m : N) : BN.dec_of_N n = BN.dec_of_N m -> n = m.
Proof.
  intros H. apply N2Z.inj. rewrite <- !dec_of_N_parse, H. reflexivity.
Qed.

Lemma hex_of_N_inj (n m : N) : BN.hex_of_N n = BN.hex_of_N m -> n = m.
Proof.
  intros H. apply N2Z.inj. rewrite <- !hex_of_N_parse16, H. reflexivity.
Qed.

Lemma dec_of_N_head (n : N) (rest : string) : BN.dec_of_N n <> String "-" rest.
Proof.
  unfold BN.dec_of_N. destruct (N.to_uint n); discriminate.
Qed.

Lemma hex_of_N_head (n : N) (rest : string) : BN.hex_of_N n <> String "-" rest.
Proof.
  unfold BN.hex_of_N. destruct (N.to_hex_uint n); discriminate.
Qed.

Lemma toString_inj (z z' : Z) : BN.toString z = BN.toString z' -> z = z'.
Proof.
  unfold BN.toString. intros H.
  destruct z as [|p|p], z' as [|q|q]; simpl in H;
    try reflexivity;
    try (exfalso; eapply dec_of_N_head; (exact H || (symmetry; exact H)));
    try (apply dec_of_N_inj in H; congruence).
  injection H as H. apply dec_of_N_inj in H. congruence.
Qed.

Lemma toJSON_inj (z z' : Z) : BN.toJSON z = BN.toJSON z' -> z = z'.
Proof.
  unfold BN.toJSON, BN.toString16. intros H.
  destruct z as [|p|p], z' as [|q|q]; simpl in H;
    try reflexivity;
    try (exfalso; eapply hex_of_N_head; (exact H || (symmetry; exact H)));
    try (apply hex_of_N_inj in H; congruence).
  injection H as H. apply hex_of_N_inj in H. congruence.
Qed.

(** X15.  The canonical tuple binds what it signs: two tuples built by
    [getBalanceProofSignatureParams] are equal only if the receiver, the
    open block, the balance and the contract address are. *)
Theorem balance_proof_params_inj (contract contract' : string)
        (c c' : MicroChannel) (p p' : MicroProof) :
  balance_proof_params contract c p = balance_proof_params contract' c' p' ->
  receiver c = receiver c' /\ block c = block c'
  /\ balance p = balance p' /\ contract = contract'.
Proof.
  unfold balance_proof_params. intros H.
  injection H as Hr Hb Hbal Hc.
  repeat split; auto using dec_of_N_inj, toString_inj.
Qed.

Lemma proof_to_json_inj (p q : MicroProof) :
  proof_to_json p = proof_to_json q -> p = q.
Proof.
  destruct p as [b [s|]], q as [b' [s'|]]; unfold proof_to_json; simpl;
    intros H; injection H; intros; subst;
    try (apply toJSON_inj in H0 || apply toJSON_inj in H1); congruence.
Qed.

(** X16.  Nothing is lost when a channel is written: the record that
    [setChannel] stores determines the channel (two channels with the
    same record are equal, balances included). *)
Theorem channel_to_json_inj (c c' : MicroChannel) :
  channel_to_json c = channel_to_json c' -> c = c'.
Proof.
  destruct c as [a r b p np cs], c' as [a' r' b' p' np' cs'].
  unfold channel_to_json. simpl.
  assert (Hp : forall x y : MicroProof,
             proof_to_json x = proof_to_json y -> x = y)
    by exact proof_to_json_inj.
  generalize dependent proof_to_json. intros enc Hp H.
  destruct np as [q|], cs as [s|], np' as [q'|], cs' as [s'|];
    simpl in H; injection H; intros;
    repeat match goal with
           | H : enc _ = enc _ |- _ => apply Hp in H
           | H : Z.of_N _ = Z.of_N _ |- _ => apply N2Z.inj in H
           | H : _ :: _ = [] |- _ => discriminate H
           | H : [] = _ :: _ |- _ => discriminate H
           end; subst; try reflexivity; try discriminate.
Qed.


Lemma string_length_app (s t : string) :
  String.length (s ++ t) = (String.length s + String.length t)%nat.
Proof. induction s as [|c s IH]; simpl; [reflexivity|]. rewrite IH. reflexivity. Qed.

Lemma length_zeros (n : nat) : String.length (JS.zeros n) = n.
Proof. induction n as [|n IH]; simpl; [reflexivity|]. rewrite IH. reflexivity. Qed.

Lemma length_padStart (len : nat) (s : string) :
  String.length (JS.padStart len s) = Nat.max len (String.length s).
Proof. unfold JS.padStart. rewrite string_length_app, length_zeros. lia. Qed.

Lemma parseBase_16_bounds (d : Hexadecimal.uint) (a : Z) :
  0 <= a ->
  let s := HexadecimalString.NilEmpty.string_of_uint d in
  a * 16 ^ Z.of_nat (String.length s) <= BN.parseBase a 16 s
  /\ BN.parseBase a 16 s < (a + 1) * 16 ^ Z.of_nat (String.length s).
Proof.
  revert a. induction d; intros a Ha;
    cbn [HexadecimalString.NilEmpty.string_of_uint BN.parseBase String.length];
    [simpl; lia|..]; digits;
    rewrite Nat2Z.inj_succ, Z.pow_succ_r by lia;
    match goal with
    | |- context [BN.parseBase ?a' 16 _] =>
        destruct (IHd a' ltac:(lia)) as [Hlo Hhi]
    end;
    cbv zeta in Hlo, Hhi;
    set (X := 16 ^ Z.of_nat _) in *;
    assert (0 < X) by (apply Z.pow_pos_nonneg; lia);
    split; nia.
Qed.

(** The digits of a positive number do not start with a zero. *)
Lemma to_hex_uint_head (p : positive) :
  Hexadecimal.nzhead (Pos.to_hex_uint p) = Pos.to_hex_uint p
  /\ Pos.to_hex_uint p <> Hexadecimal.Nil.
Proof.
  pose proof (HexadecimalPos.Unsigned.to_of (Pos.to_hex_uint p)) as Hto.
  rewrite HexadecimalPos.Unsigned.of_to in Hto. simpl in Hto.
  pose proof (HexadecimalPos.Unsigned.to_uint_nonzero p) as Hnz.
  pose proof (HexadecimalPos.Unsigned.to_uint_nonnil p) as Hnil.
  split; [|exact Hnil].
  unfold Hexadecimal.unorm in Hto.
  destruct (Hexadecimal.nzhead (Pos.to_hex_uint p)) eqn:E;
    first [congruence | symmetry; exact Hto].
Qed.

Lemma length_hex_of_N (n : N) (k : nat) :
  (1 <= k)%nat ->
  (String.length (BN.hex_of_N n) <= k)%nat <-> Z.of_N n < 16 ^ Z.of_nat k.
Proof.
  intros Hk. pose proof (hex_of_N_parse16 n) as Hval.
  rewrite hex_of_N_string in *.
  set (d := N.to_hex_uint n) in *.
  set (s := HexadecimalString.NilEmpty.string_of_uint d) in *.
  split.
  - intros Hlen.
    destruct (parseBase_16_bounds d 0 ltac:(lia)) as [_ Hhi].
    cbv zeta in Hhi. fold s in Hhi. rewrite Hval in Hhi.
    assert (16 ^ Z.of_nat (String.length s) <= 16 ^ Z.of_nat k)
      by (apply Z.pow_le_mono_r; lia).
    lia.
  - intros Hlt. destruct n as [|p].
    + subst s d. simpl. lia.
    + destruct (to_hex_uint_head p) as [Hhead Hnil].
      change (N.to_hex_uint (N.pos p)) with (Pos.to_hex_uint p) in d.
      fold d in Hhead, Hnil.
      assert (Hlow : 16 ^ (Z.of_nat (String.length s) - 1) <= Z.of_N (N.pos p)).
      { rewrite <- Hval. subst s.
        destruct d eqn:Ed; [contradiction|..];
          try (exfalso; eapply HexadecimalFacts.nzhead_nonzero; exact Hhead);
          cbn [HexadecimalString.NilEmpty.string_of_uint BN.parseBase String.length];
          digits; rewrite Nat2Z.inj_succ;
          replace (Z.succ (Z.of_nat (String.length
                     (HexadecimalString.NilEmpty.string_of_uint u))) - 1)
            with (Z.of_nat (String.length
                     (HexadecimalString.NilEmpty.string_of_uint u))) by lia;
          match goal with
          | |- context [BN.parseBase ?a' 16 _] =>
              destruct (parseBase_16_bounds u a' ltac:(lia)) as [Hlo _]
          end;
          cbv zeta in Hlo;
          set (X := 16 ^ Z.of_nat _) in *;
          assert (0 < X) by (apply Z.pow_pos_nonneg; lia); nia. }
      destruct (Nat.le_gt_cases (String.length s) k) as [|Hgt]; [assumption|].
      exfalso.
      assert (16 ^ Z.of_nat k <= 16 ^ (Z.of_nat (String.length s) - 1))
        by (apply Z.pow_le_mono_r; lia).
      lia.
Qed.

Lemma length_hex2 (code : N) :
  String.length (hex2 code) = Nat.max 2 (String.length (BN.hex_of_N code)).
Proof. unfold hex2. apply length_padStart. Qed.

Lemma char_codes_cons2 (u l : N) (rest : list N) :
  JS.char_codes (u :: l :: rest)
  = if JS.is_high u && JS.is_low l then u :: JS.char_codes rest
    else u :: JS.char_codes (l :: rest).
Proof. reflexivity. Qed.

(** [Array.from] invents no code unit. *)
Lemma char_codes_In (n : nat) (units : list N) (x : N) :
  (length units <= n)%nat -> In x (JS.char_codes units) -> In x units.
Proof.
  revert units. induction n as [|n IH]; intros [|u [|l rest]] Hn; simpl in Hn;
    try lia; try (intros H; exact H).
  rewrite char_codes_cons2.
  destruct (JS.is_high u && JS.is_low l); intros [<-|H];
    try (left; reflexivity); right.
  - right. apply IH; [lia|exact H].
  - apply IH; [simpl; lia|exact H].
Qed.

(** Without surrogates every code unit is a character. *)
Lemma char_codes_bytes (units : list N) :
  Forall (fun u => (u < 256)%N) units -> JS.char_codes units = units.
Proof.
  induction 1 as [|u [|l rest] Hu Hrest IH]; try reflexivity.
  rewrite char_codes_cons2, IH.
  unfold JS.is_high. destruct (N.leb_spec 55296 u); [lia|reflexivity].
Qed.

Lemma length_encodeHex_codes (codes : list N) (lo hi : nat) :
  Forall (fun u => (lo <= String.length (hex2 u) <= hi)%nat) codes ->
  (lo * length codes
   <= String.length (fold_right (fun code rest => hex2 code ++ rest)
                                EmptyString codes)
   <= hi * length codes)%nat.
Proof.
  induction 1 as [|u codes Hu Hcodes IH]; simpl; [lia|].
  rewrite string_length_app. lia.
Qed.

(** X17.  [encodeHex] of a string whose code units are all below 256
    has two characters per code unit; a character on its own takes two
    characters exactly when its code is below 256; in general a
    character (a code unit, or a surrogate pair, of which only the first
    half is encoded) takes between two and four.  Padding only adds
    characters, up to [zPadLength], and never cuts; and a block number
    padded to 8 takes exactly 8 characters if and only if it is below
    2^32. *)
Theorem encodeHex_lengths :
  (forall units,
     Forall (fun u => (u < 256)%N) units ->
     String.length (encodeHex_padded (HexStr units) None)
     = (2 * length units)%nat)
  /\ (forall u,
        String.length (encodeHex_padded (HexStr [u]) None) = 2%nat
        <-> (u < 256)%N)
  /\ (forall units,
        Forall (fun u => (u < 65536)%N) units ->
        (2 * length (JS.char_codes units)
         <= String.length (encodeHex_padded (HexStr units) None)
         <= 4 * length (JS.char_codes units))%nat)
  /\ (forall val pad,
        String.length (encodeHex_padded val pad)
        = Nat.max (default O pad)
                  (String.length (encodeHex_padded val None)))
  /\ (forall b : N,
        String.length (encodeHex_padded (HexNum (Z.of_N b)) (Some 8%nat)) = 8%nat
        <-> (b < 2 ^ 32)%N).
Proof.
  assert (H256 : 16 ^ Z.of_nat 2 = 256) by reflexivity.
  assert (H65536 : 16 ^ Z.of_nat 4 = 65536) by reflexivity.
  assert (Hbyte : forall u, String.length (hex2 u) = 2%nat <-> (u < 256)%N).
  { intros u. rewrite length_hex2.
    pose proof (length_hex_of_N u 2 ltac:(lia)) as Hlen. rewrite H256 in Hlen.
    split; intros H.
    - assert (String.length (BN.hex_of_N u) <= 2)%nat by lia.
      apply Hlen in H0. lia.
    - assert (String.length (BN.hex_of_N u) <= 2)%nat by (apply Hlen; lia).
      lia. }
  split; [|split; [|split; [|split]]].
  - intros units Hall. unfold encodeHex_padded, encodeHex.
    rewrite length_padStart, (char_codes_bytes units Hall). simpl default.
    pose proof (length_encodeHex_codes units 2 2) as Hlen.
    assert (Forall (fun u => (2 <= String.length (hex2 u) <= 2)%nat) units).
    { rewrite Forall_forall in Hall. apply Forall_forall. intros u Hin.
      specialize (Hall u Hin). simpl in Hall. apply Hbyte in Hall. lia. }
    specialize (Hlen H). lia.
  - intros u. unfold encodeHex_padded, encodeHex. rewrite length_padStart.
    simpl. rewrite string_length_app. simpl. rewrite <- Hbyte. lia.
  - intros units Hall. unfold encodeHex_padded, encodeHex.
    rewrite length_padStart. simpl default.
    pose proof (length_encodeHex_codes (JS.char_codes units) 2 4) as Hlen.
    assert (Forall (fun u => (2 <= String.length (hex2 u) <= 4)%nat)
                   (JS.char_codes units)).
    { apply Forall_forall. intros u Hin.
      apply list_elem_of_In in Hin.
      apply (char_codes_In (length units)) in Hin; [|lia].
      apply list_elem_of_In in Hin.
      rewrite Forall_forall in Hall. specialize (Hall u Hin). simpl in Hall.
      rewrite length_hex2.
      pose proof (length_hex_of_N u 4 ltac:(lia)) as Hl. rewrite H65536 in Hl.
      assert (String.length (BN.hex_of_N u) <= 4)%nat by (apply Hl; lia).
      lia. }
    specialize (Hlen H). lia.
  - intros val pad. unfold encodeHex_padded. rewrite !length_padStart. simpl. lia.
  - intros b. unfold encodeHex_padded. rewrite length_padStart. simpl default.
    assert (Hs : BN.toString16 (Z.of_N b) = BN.hex_of_N b).
    { unfold BN.toString16. destruct b; reflexivity. }
    rewrite Hs.
    pose proof (length_hex_of_N b 8 ltac:(lia)) as Hlen.
    change (16 ^ Z.of_nat 8) with (Z.of_N (2 ^ 32)) in Hlen.
    rewrite <- N2Z.inj_lt in Hlen. rewrite <- Hlen. lia.
Qed.

(** The address ['0xA11CE'] takes 14 characters; the euro sign, code
    unit 0x20AC, takes four. *)
Lemma encodeHex_lengths_witness :
  String.length (encodeHex_padded (HexStr (JS.code_units Fixtures.alice)) None)
  = 14%nat
  /\ encodeHex_padded (HexStr [8364%N]) None = "20ac".
Proof.
  split; [|reflexivity].
  apply (proj1 encodeHex_lengths (JS.code_units Fixtures.alice)).
  repeat constructor.
Defined.

Lemma store_round_trip_iff_witness :
  (setChannel Fixtures.paying;; loadStoredChannel Fixtures.alice Fixtures.bob)
    (Fixtures.world_of None)
  = (Ok true, stored Fixtures.paying (Fixtures.world_of None)).
Proof.
  apply (store_round_trip_iff (Fixtures.world_of None) Fixtures.paying ∅ eq_refl).
  split; [simpl; lia|]. intros np H. injection H as <-. simpl. lia.
Defined.

Lemma balance_proof_params_inj_witness :
  receiver Fixtures.fresh = receiver Fixtures.paying
  /\ block Fixtures.fresh = block Fixtures.paying
  /\ balance (mkProof 7 None) = balance (mkProof 7 (Some "0x07"))
  /\ Fixtures.manager = Fixtures.manager.
Proof.
  apply (balance_proof_params_inj Fixtures.manager Fixtures.manager
           Fixtures.fresh Fixtures.paying
           (mkProof 7 None) (mkProof 7 (Some "0x07"))).
  reflexivity.
Defined.

Lemma channel_to_json_inj_witness :
  with_next_proof Fixtures.paying None
  = mkChannel Fixtures.alice Fixtures.bob 10 (mkProof 5 (Some "0x05")) None None.
Proof.
  apply (channel_to_json_inj (with_next_proof Fixtures.paying None)
           (mkChannel Fixtures.alice Fixtures.bob 10 (mkProof 5 (Some "0x05"))
                      None None)).
  reflexivity.
Defined.

(** ** Opening, topping up and closing *)

Ltac runL :=
  repeat (unfold mbind, L_bind, mret, L_ret, lift, refuse, record_ledger,
          balance_of, submit, M_bind, M_ret, throw, get_client, this_channel;
          simpl).

Lemma lift_run {A} (m : M A) (s : Session) :
  lift m s
  = (match fst (m (world s)) with
     | Ok a => Done a
     | Throw e => Failed e
     | Pending => Unsettled
     end, mkSession (snd (m (world s))) (ledger s)).
Proof. unfold lift. destruct (m (world s)) as [[a|e|] w']; reflexivity. Qed.

Lemma call_getChannelInfo_run (chain : Chain) (a r : string) (b : N) (w : World) :
  call_getChannelInfo chain a r b w
  = (match channelInfoView chain a r b with
     | inr info => Ok info
     | inl message => Throw (ExternalError message)
     end, called [CallGetChannelInfo a r b] w).
Proof.
  unfold call_getChannelInfo. run.
  destruct (channelInfoView chain a r b); reflexivity.
Qed.

(** [waitTx] resolves with a receipt exactly when the transaction is
    seen mined within the budget of polls. *)
Lemma waitTx_mined (chain : Chain) (polls : nat) (txHash : string)
      (confirmations : N) (w : World) (receipt : N) :
  mined chain polls txHash confirmations receipt
  <-> waitTx chain polls txHash confirmations w = (Ok receipt, w).
Proof.
  pose proof (waitTx_world chain polls txHash confirmations w) as Hw.
  assert (Hrun : fst (waitTx chain polls txHash confirmations w)
                 = fst (waitTx_from chain polls O txHash confirmations w)).
  { unfold waitTx, getBlockNumber. run. reflexivity. }
  pose proof (waitTx_from_spec chain txHash confirmations w polls O) as Hspec.
  rewrite <- Hrun in Hspec. simpl in Hspec.
  destruct (waitTx chain polls txHash confirmations w) as [r w1].
  simpl in Hw, Hspec. subst w1. unfold mined, seen. split.
  - intros (k & Hk & Hr & Hnone). apply poll_Some in Hr.
    destruct r as [r|e|].
    + destruct Hspec as (k' & Hk' & Hr' & Hnone').
      destruct (Nat.lt_trichotomy k k') as [Hlt|[Heq|Hgt]].
      * rewrite (Hnone' k Hlt) in Hr. discriminate Hr.
      * subst k'. congruence.
      * apply poll_Some in Hr'. exfalso. exact (Hnone k' r Hgt Hr').
    + contradiction.
    + rewrite (Hspec k Hk) in Hr. discriminate Hr.
  - intros H. injection H as ->. destruct Hspec as (k & Hk & Hr & Hnone).
    exists k. split; [exact Hk|]. split; [apply poll_Some; exact Hr|].
    intros j r Hj Hseen. apply poll_Some in Hseen.
    rewrite (Hnone j Hj) in Hseen. discriminate Hseen.
Qed.

(** X18.  [openChannel] refuses with 'Not enough tokens' when the
    token balance of the account is below the deposit, having only asked
    for the balance: nothing is submitted and the client is untouched.
    It succeeds exactly when the balance covers the deposit, the token
    accepts the transfer (a token with the three-argument transfer) or
    the approve and then the createChannel (any other token), the last
    of these transactions is seen mined with one confirmation within the
    polls, and the view answers for the block of the receipt.  Then
    these transactions and nothing else were submitted, and the channel
    returned, tracked and persisted is the fresh one for that block:
    balance 0, no signature, no pending proof, whatever channel was
    tracked before and whatever deposit the view reports, 0 included
    ('No deposit found!' is never raised). *)
Theorem openChannel_correct (chain : Chain) (token : Token) (polls : nat)
        (sender rcv : string) (dep : Z) (s : Session) :
  let txs := funding token (contractAddress (client (world s))) sender rcv dep in
  (forall b, balanceOf token sender = inr b -> b < dep ->
     openChannel chain token polls sender rcv dep s
     = (Refused (NotEnoughTokens b dep),
        mkSession (world s) (ledger s ++ [CallBalanceOf sender])))
  /\ (forall c s',
        openChannel chain token polls sender rcv dep s = (Done c, s') <->
        exists b txHash receipt d wd,
          balanceOf token sender = inr b /\ dep <= b
          /\ submitted token txs = Some txHash
          /\ mined chain polls txHash 1 receipt
          /\ channelInfoView chain sender rcv receipt = inr (d, wd) /\ 0 <= d
          /\ c = mkChannel sender rcv receipt (mkProof 0 None) None None
          /\ s' = mkSession
                    (stored c (called [CallGetChannelInfo sender rcv receipt]
                                      (world s)))
                    (ledger s ++ CallBalanceOf sender :: map Submit txs))
  /\ (forall s',
        openChannel chain token polls sender rcv dep s
        <> (Refused NoDepositFound, s')).
Proof.
  intros txs. split; [|split].
  - intros b Hb Hlt. unfold openChannel. runL. rewrite Hb. simpl.
    destruct (Z.leb_spec dep b); [lia|]. reflexivity.
  - intros c s'. subst txs. split.
    + unfold openChannel, funding. runL.
      destruct (balanceOf token sender) as [m|b]; simpl; [discriminate|].
      destruct (Z.leb_spec dep b) as [Hle|]; simpl; [|discriminate].
      destruct (transfer3 token); simpl;
        [|match goal with
          | |- context [submitTx token ?tx] =>
              destruct (submitTx token tx) as [m|txHash0] eqn:Hsub0; simpl;
              [discriminate|]
          end];
        (match goal with
         | |- context [submitTx token ?tx] =>
             destruct (submitTx token tx) as [m|txHash] eqn:Hsub; simpl;
             [discriminate|]
         end);
        (match goal with
         | |- context [waitTx chain polls ?h 1 (world s)] =>
             pose proof (waitTx_world chain polls h 1 (world s)) as Hww;
             pose proof (waitTx_mined chain polls h 1 (world s)) as Hmined;
             destruct (waitTx chain polls h 1 (world s)) as [[receipt|e|] w1]
         end;
         simpl in Hww; subst w1; simpl; try discriminate;
         rewrite call_getChannelInfo_run;
         destruct (channelInfoView chain sender rcv receipt) as [m|[d wd]] eqn:Hview;
         simpl; [discriminate|];
         unfold gt_number, BN.gt_number; simpl;
         destruct (Z.leb_spec 0 d) as [Hd|]; simpl; [|discriminate];
         rewrite setChannel_run; simpl;
         intros H; injection H as <- <-;
         eexists b, _, receipt, d, wd;
         split; [reflexivity|]; split; [exact Hle|];
         split; [rewrite ?Hsub0, ?Hsub; reflexivity|];
         split; [apply Hmined; reflexivity|];
         split; [exact Hview|]; split; [exact Hd|];
         split; [reflexivity|];
         simpl; rewrite <- ?app_assoc; reflexivity).
    + intros (b & txHash & receipt & d & wd & Hb & Hle & Hsub & Hmined
              & Hview & Hd & -> & ->).
      apply (waitTx_mined chain polls txHash 1 (world s)) in Hmined.
      revert Hsub. unfold openChannel, funding. runL. rewrite Hb. simpl.
      destruct (Z.leb_spec dep b); [|lia]. simpl.
      destruct (transfer3 token); simpl;
        repeat (destruct (submitTx token _) as [m|?h]; simpl; [discriminate|]);
        intros Hs; injection Hs as ->; rewrite Hmined; simpl;
        rewrite call_getChannelInfo_run, Hview; simpl;
        unfold gt_number, BN.gt_number; simpl;
        (destruct (Z.leb_spec 0 d); [|lia]); simpl;
        rewrite setChannel_run; simpl; rewrite <- ?app_assoc; reflexivity.
  - intros s'. unfold openChannel. runL.
    destruct (balanceOf token sender) as [m|b]; simpl; [discriminate|].
    destruct (Z.leb_spec dep b); simpl; [|discriminate].
    destruct (transfer3 token); simpl;
      repeat (destruct (submitTx token _) as [m|?h]; simpl; [discriminate|]);
      (match goal with
       | |- context [waitTx chain polls ?h 1 (world s)] =>
           destruct (waitTx chain polls h 1 (world s)) as [[receipt|e0|] w1]
       end; simpl; try discriminate;
       rewrite call_getChannelInfo_run;
       destruct (channelInfoView chain sender rcv receipt) as [m|[d wd]];
       simpl; [discriminate|];
       unfold gt_number, BN.gt_number; simpl;
       destruct (0 <=? d); simpl; [|discriminate];
       rewrite setChannel_run; simpl; discriminate).
Qed.

(** X19.  [topUpChannel] never changes the client or localStorage,
    whatever its outcome.  Without a valid channel it fails with 'No
    valid channelInfo' before asking anything; with a token balance below
    the deposit it refuses with 'Not enough tokens' and submits nothing.
    It succeeds exactly when the tracked channel is valid, the balance
    covers the deposit, the token accepts the transactions and the last
    of them is seen mined with one confirmation within the polls; then
    it has submitted, for the tracked channel, one transfer whose
    payload is account, receiver without its 0x and the open block on 8
    hexadecimal characters, or an approve followed by a
    topUp(receiver, block, deposit), and nothing else, and it returns
    the hash of the last transaction. *)
Theorem topUpChannel_correct (chain : Chain) (token : Token) (polls : nat)
        (dep : Z) (s : Session) :
  world (snd (topUpChannel chain token polls dep s)) = world s
  /\ (channel_valid (channel (client (world s))) = false ->
      topUpChannel chain token polls dep s = (Failed NoValidChannelInfo, s))
  /\ (forall c b,
        channel (client (world s)) = Some c ->
        channel_valid (Some c) = true ->
        balanceOf token (account c) = inr b -> b < dep ->
        topUpChannel chain token polls dep s
        = (Refused (NotEnoughTokens b dep),
           mkSession (world s) (ledger s ++ [CallBalanceOf (account c)])))
  /\ (forall txHash s',
        topUpChannel chain token polls dep s = (Done txHash, s') <->
        exists c b receipt,
          channel (client (world s)) = Some c
          /\ channel_valid (Some c) = true
          /\ balanceOf token (account c) = inr b /\ dep <= b
          /\ submitted token (topping token (contractAddress (client (world s)))
                                      c dep) = Some txHash
          /\ mined chain polls txHash 1 receipt
          /\ s' = mkSession (world s)
                    (ledger s ++ CallBalanceOf (account c)
                       :: map Submit (topping token
                                        (contractAddress (client (world s)))
                                        c dep))).
Proof.
  assert (Hback : forall txHash s',
             (exists c b receipt,
                channel (client (world s)) = Some c
                /\ channel_valid (Some c) = true
                /\ balanceOf token (account c) = inr b /\ dep <= b
                /\ submitted token (topping token
                                      (contractAddress (client (world s)))
                                      c dep) = Some txHash
                /\ mined chain polls txHash 1 receipt
                /\ s' = mkSession (world s)
                          (ledger s ++ CallBalanceOf (account c)
                             :: map Submit (topping token
                                              (contractAddress (client (world s)))
                                              c dep))) ->
             topUpChannel chain token polls dep s = (Done txHash, s')).
  { intros txHash s' (c & b & receipt & Hc & Hv & Hb & Hle & Hsub & Hmined & ->).
    apply (waitTx_mined chain polls txHash 1 (world s)) in Hmined.
    simpl in Hv. revert Hsub. unfold topUpChannel, topping. runL.
    rewrite Hc. simpl. rewrite Hv. simpl. rewrite Hc. simpl. rewrite Hb. simpl.
    destruct (Z.leb_spec dep b); [|lia]. simpl.
    destruct (transfer3 token); simpl;
      repeat (destruct (submitTx token _) as [m|?h]; simpl; [discriminate|]);
      intros Hs; injection Hs as ->; rewrite Hmined; simpl;
      rewrite <- ?app_assoc; reflexivity. }
  remember (topUpChannel chain token polls dep s) as r eqn:Hr.
  revert Hr. unfold topUpChannel, topping in *. runL.
  destruct (channel (client (world s))) as [c|] eqn:Hc; simpl.
  - destruct (JS.truthy_string (receiver c) && negb (block c =? 0)%N
              && JS.truthy_string (account c)) eqn:Hv; simpl.
    + rewrite Hc. simpl.
      destruct (balanceOf token (account c)) as [m|b] eqn:Hb; simpl.
      * intros ->. simpl. split; [reflexivity|]. split; [discriminate|].
        split; [intros c0 b0 H; injection H as <-; intros _ H;
                rewrite Hb in H; discriminate H|].
        intros txHash s'; split;
          [intros H; discriminate H
          |intros Hex; apply Hback in Hex; discriminate Hex].
      * destruct (Z.leb_spec dep b) as [Hle|Hlt]; simpl.
        -- intros Hr.
           assert (Hw : world (snd r) = world s).
           { rewrite Hr. destruct (transfer3 token); simpl;
               repeat (destruct (submitTx token _) as [m|?h]; simpl;
                       [reflexivity|]);
               match goal with
               | |- context [waitTx chain polls ?h 1 (world s)] =>
                   pose proof (waitTx_world chain polls h 1 (world s)) as Hww;
                   destruct (waitTx chain polls h 1 (world s)) as [[receipt|e|] w1]
               end; simpl in Hww; subst w1; reflexivity. }
           split; [exact Hw|]. split; [discriminate|].
           split; [intros c0 b0 H; injection H as <-; intros _ H;
                   rewrite Hb in H; injection H as <-; lia|].
           intros txHash s'. split; [|intros Hex; apply Hback; exact Hex].
           rewrite Hr. clear Hr Hw Hback.
           destruct (transfer3 token); simpl.
           ++ destruct (submitTx token _) as [m|h] eqn:Hsub; simpl;
                [discriminate|].
              pose proof (waitTx_world chain polls h 1 (world s)) as Hww.
              pose proof (waitTx_mined chain polls h 1 (world s)) as Hmined.
              destruct (waitTx chain polls h 1 (world s)) as [[receipt|e|] w1];
                simpl in Hww; subst w1; simpl; try discriminate.
              intros H. injection H as <- <-. exists c, b, receipt.
              split; [reflexivity|]. split; [exact Hv|].
              split; [exact Hb|]. split; [exact Hle|].
              split; [simpl; rewrite Hsub; reflexivity|].
              split; [apply Hmined; reflexivity|].
              simpl. rewrite <- ?app_assoc. reflexivity.
           ++ destruct (submitTx token (TokenApprove _ _ _ _)) as [m|h0] eqn:Hsub0;
                simpl; [discriminate|].
              destruct (submitTx token (TopUp _ _ _ _ _)) as [m|h] eqn:Hsub;
                simpl; [discriminate|].
              pose proof (waitTx_world chain polls h 1 (world s)) as Hww.
              pose proof (waitTx_mined chain polls h 1 (world s)) as Hmined.
              destruct (waitTx chain polls h 1 (world s)) as [[receipt|e|] w1];
                simpl in Hww; subst w1; simpl; try discriminate.
              intros H. injection H as <- <-. exists c, b, receipt.
              split; [reflexivity|]. split; [exact Hv|].
              split; [exact Hb|]. split; [exact Hle|].
              split; [simpl; rewrite Hsub0, Hsub; reflexivity|].
              split; [apply Hmined; reflexivity|].
              simpl. rewrite <- ?app_assoc. reflexivity.
        -- intros ->. simpl. split; [reflexivity|]. split; [discriminate|].
           split; [intros c0 b0 H; injection H as <-; intros _ H;
                   rewrite Hb in H; injection H as <-; reflexivity|].
           intros ? s'; split;
             [intros H; discriminate H
             |intros Hex; apply Hback in Hex; discriminate Hex].
    + intros ->. simpl. split; [reflexivity|].
      split; [intros _; destruct s; reflexivity|].
      split; [intros c0 b0 H; injection H as <-; intros H; simpl in H;
              congruence|].
      intros ? s'; split;
        [intros H; discriminate H
        |intros Hex; apply Hback in Hex; discriminate Hex].
  - intros ->. simpl. split; [reflexivity|].
    split; [intros _; destruct s; reflexivity|].
    split; [intros c0 b0 H; discriminate H|].
    intros ? s'; split;
      [intros H; discriminate H
      |intros Hex; apply Hback in Hex; discriminate Hex].
Qed.

Lemma choose_closing_sig_run (arg : option string) (s : Session)
      (c : MicroChannel) :
  channel (client (world s)) = Some c ->
  choose_closing_sig arg s
  = (Done (effective_closing_sig c arg),
     if JS.truthy (closing_sig c) then s
     else if JS.truthy arg
          then mkSession (stored (with_closing_sig c arg) (world s)) (ledger s)
          else s).
Proof.
  intros Hc. unfold choose_closing_sig, effective_closing_sig. runL.
  rewrite Hc. simpl.
  destruct (JS.truthy (closing_sig c)); simpl; [destruct s; reflexivity|].
  destruct (JS.truthy arg); simpl; [|destruct s; reflexivity].
  replace (mkWorld (client (world s)) (localStorage (world s)) (calls (world s)))
    with (world s) by (destruct (world s); reflexivity).
  rewrite setChannel_run. reflexivity.
Qed.

Lemma lift_this_channel (s : Session) (c : MicroChannel) :
  channel (client (world s)) = Some c ->
  lift this_channel s = (Done c, s).
Proof.
  intros Hc. unfold lift, this_channel. run. rewrite Hc. simpl.
  destruct s as [[? ? ?] ?]; reflexivity.
Qed.

(** The end of [closeChannel]: the transaction is submitted for the
    tracked channel and waited for. *)
Lemma close_tail_run (chain : Chain) (token : Token) (polls : nat)
      (closing : option string) (p : MicroProof) (s : Session)
      (c : MicroChannel) :
  channel (client (world s)) = Some c ->
  (c0 ← lift this_channel;
   txHash ← submit token
              (if JS.truthy closing
               then CooperativeClose (receiver c0) (block c0) (balance p)
                                     (sig p) closing (account c0) 120000
               else UncooperativeClose (receiver c0) (block c0) (balance p)
                                       (sig p) closing (account c0) 100000);
   lift (waitTx chain polls txHash 0);;
   mret txHash) s
  = (match submitTx token (close_tx c p closing) with
     | inr txHash =>
         match fst (waitTx chain polls txHash 0 (world s)) with
         | Ok _ => Done txHash
         | Throw e => Failed e
         | Pending => Unsettled
         end
     | inl message => Failed (ExternalError message)
     end,
     mkSession (world s) (ledger s ++ [Submit (close_tx c p closing)])).
Proof.
  intros Hc. unfold close_tx. runL. rewrite Hc. simpl.
  replace (mkWorld (client (world s)) (localStorage (world s)) (calls (world s)))
    with (world s) by (destruct (world s); reflexivity).
  destruct (submitTx token _) as [m|txHash]; simpl; [reflexivity|].
  pose proof (waitTx_world chain polls txHash 0 (world s)) as Hww.
  destruct (waitTx chain polls txHash 0 (world s)) as [[r|e|] w1];
    simpl in Hww; subst w1; reflexivity.
Qed.

(** A typed-data request that is answered at once gives the signature. *)
Lemma request_signature_replied (provider : Provider)
      (hash : list TypedData -> string) (params : list TypedData)
      (sender sg : string) (w : World) :
  eth_signTypedData provider params sender = Replied sg ->
  request_signature provider hash params sender w = (Ok sg, w).
Proof. intros H. unfold request_signature. rewrite H. reflexivity. Qed.

(** [closeChannel] on a valid channel whose fetched state is [opened],
    step by step. *)
Lemma closeChannel_opened (chain : Chain) (token : Token)
      (provider : Provider)
      (recover : list TypedData -> string -> string + string)
      (hash : list TypedData -> string)
      (polls : nat) (arg : option string)
      (s : Session) (c : MicroChannel) (info : MicroChannelInfo) (w1 : World) :
  channel (client (world s)) = Some c ->
  channel_valid (Some c) = true ->
  getChannelInfo chain None (world s) = (Ok info, w1) ->
  state info = opened ->
  let closing := effective_closing_sig c arg in
  let c2 := closing_channel c arg in
  let w2 := if JS.truthy (closing_sig c) then w1
            else if JS.truthy arg then stored c2 w1 else w1 in
  let params := balance_proof_params (contractAddress (client (world s))) c
                                     (proof c) in
  let tail (p : MicroProof) (w : World) :=
    (match submitTx token (close_tx c p closing) with
     | inr txHash =>
         match fst (waitTx chain polls txHash 0 w) with
         | Ok _ => Done txHash
         | Throw e => Failed e
         | Pending => Unsettled
         end
     | inl message => Failed (ExternalError message)
     end,
     mkSession w (ledger s ++ [Submit (close_tx c p closing)])) in
  channel (client w2) = Some c2
  /\ closeChannel chain token provider recover hash polls arg s
     = if JS.truthy closing && negb (JS.truthy (sig (proof c)))
       then match fst (request_signature provider hash params (account c) w2) with
            | Ok sg =>
                match recover params sg with
                | inr recovered =>
                    if String.eqb recovered (account c)
                    then tail (with_sig (proof c) sg)
                              (stored (with_next_proof
                                         (with_proof c2 (with_sig (proof c) sg))
                                         (Some (with_sig (proof c) sg))) w2)
                    else (Failed (InvalidRecoveredSignature recovered),
                          mkSession w2 (ledger s))
                | inl message =>
                    (Failed (ExternalError message), mkSession w2 (ledger s))
                end
            | Throw e => (Failed e, mkSession w2 (ledger s))
            | Pending => (Unsettled, mkSession w2 (ledger s))
            end
       else tail (proof c) w2.
Proof.
  intros Hc Hv Hinfo Hst closing c2 w2 params tail.
  destruct (getChannelInfo_frame chain None (world s)) as (cs & Hw1 & _ & _).
  rewrite Hinfo in Hw1. simpl in Hw1. subst w1.
  set (s1 := mkSession (called cs (world s)) (ledger s)).
  assert (Hc1 : channel (client (world s1)) = Some c) by exact Hc.
  set (s2 := mkSession w2 (ledger s)).
  assert (Hs2 : (if JS.truthy (closing_sig c) then s1
                 else if JS.truthy arg
                      then mkSession (stored (with_closing_sig c arg) (world s1))
                                     (ledger s1)
                      else s1) = s2).
  { subst s2 w2 c2 s1. unfold closing_channel.
    destruct (JS.truthy (closing_sig c)); [reflexivity|].
    destruct (JS.truthy arg); reflexivity. }
  assert (Hc2 : channel (client (world s2)) = Some c2).
  { subst s2 w2 c2. unfold closing_channel. simpl.
    destruct (JS.truthy (closing_sig c)); [exact Hc|].
    destruct (JS.truthy arg); [reflexivity|exact Hc]. }
  assert (Hca2 : contractAddress (client (world s2))
                 = contractAddress (client (world s))).
  { subst s2 w2. simpl. destruct (JS.truthy (closing_sig c)); [reflexivity|].
    destruct (JS.truthy arg); reflexivity. }
  assert (Hsame : account c2 = account c /\ receiver c2 = receiver c
                  /\ block c2 = block c /\ proof c2 = proof c).
  { subst c2. unfold closing_channel.
    destruct (JS.truthy (closing_sig c)); [repeat split|].
    destruct (JS.truthy arg); repeat split. }
  destruct Hsame as (Ha & Hrc & Hb & Hp).
  assert (Hv2 : channel_valid (Some c2) = true).
  { simpl. rewrite Ha, Hrc, Hb. exact Hv. }
  split; [exact Hc2|].
  unfold closeChannel.
  unfold mbind at 1, L_bind at 1. rewrite lift_run, isChannelValid_run, Hc, Hv.
  cbn [fst snd negb world ledger]. cbv beta iota.
  unfold mbind at 1, L_bind at 1. rewrite lift_run. cbn [world ledger].
  rewrite Hinfo. cbn [fst snd]. rewrite Hst.
  fold s1.
  unfold mbind at 1, L_bind at 1.
  rewrite (choose_closing_sig_run arg s1 c Hc1). fold closing. rewrite Hs2.
  clearbody c2 w2. clear Hs2.
  unfold mbind at 1, L_bind at 1. rewrite (lift_this_channel s2 c2 Hc2).
  rewrite Hp.
  destruct (JS.truthy closing && negb (JS.truthy (sig (proof c)))) eqn:Hsign.
  - apply andb_prop in Hsign as [Hcl Hns]. apply negb_true_iff in Hns.
    unfold mbind at 1, L_bind at 1. rewrite lift_run.
    rewrite (signNewProof_run provider recover hash (world s2) c2 (proof c)
               Hc2 Hv2 Hns).
    cbv zeta. rewrite Hca2, Ha, Hp, Z.eqb_refl.
    assert (Hparams : balance_proof_params (contractAddress (client (world s))) c2
                        (proof c) = params).
    { subst params. unfold balance_proof_params. rewrite Hrc, Hb. reflexivity. }
    rewrite Hparams. change (world s2) with w2.
    destruct (fst (request_signature provider hash params (account c) w2))
      as [sg|e|]; cbn [fst snd]; try reflexivity.
    destruct (recover params sg) as [message|recovered]; cbn [fst snd];
      [reflexivity|].
    destruct (String.eqb recovered (account c)); cbn [fst snd]; [|reflexivity].
    set (c3 := with_next_proof (with_proof c2 (with_sig (proof c) sg))
                               (Some (with_sig (proof c) sg))).
    pose proof (close_tail_run chain token polls closing (with_sig (proof c) sg)
                  (mkSession (stored c3 w2) (ledger s2)) c3 eq_refl)
      as Htail.
    rewrite Htail. clear Htail.
    assert (Htx : close_tx c3 (with_sig (proof c) sg) closing
                  = close_tx c (with_sig (proof c) sg) closing).
    { unfold close_tx. subst c3. simpl. rewrite Ha, Hrc, Hb. reflexivity. }
    rewrite Htx. reflexivity.
  - unfold mbind at 1, L_bind at 1. unfold mret at 1, L_ret at 1.
    pose proof (close_tail_run chain token polls closing (proof c) s2 c2 Hc2)
      as Htail.
    rewrite Htail. clear Htail.
    assert (Htx : close_tx c2 (proof c) closing = close_tx c (proof c) closing).
    { unfold close_tx. rewrite Ha, Hrc, Hb. reflexivity. }
    rewrite Htx. reflexivity.
Qed.

(** X20.  [closeChannel] on a valid channel whose info has been
    fetched: if the state is not [opened] it refuses with 'Tried closing
    already closed channel' and submits nothing.  When it succeeds, the
    state was [opened] and exactly one transaction was submitted, for the
    tracked channel and its confirmed balance, and seen mined within the
    polls: a cooperative close when the closing signature that counts
    (the stored one if not empty, else the argument) is not empty, an
    uncooperative close otherwise.  The proof sent is the confirmed
    proof as it is, unsigned included, except for a cooperative close of
    an unsigned proof, which is signed first with a signature that
    recovers to the account.  A closing signature that counts ends up
    stored in the channel.  And it does succeed, on an opened channel,
    whenever the token accepts that transaction and it is seen mined
    within the polls, provided that, where the proof has to be signed,
    the provider answers the typed-data request with a signature that
    recovers to the account. *)
Theorem closeChannel_correct (chain : Chain) (token : Token)
        (provider : Provider)
        (recover : list TypedData -> string -> string + string)
        (hash : list TypedData -> string)
        (polls : nat) (arg : option string)
        (s : Session) (c : MicroChannel) (info : MicroChannelInfo) (w1 : World) :
  channel (client (world s)) = Some c ->
  channel_valid (Some c) = true ->
  getChannelInfo chain None (world s) = (Ok info, w1) ->
  let closing := effective_closing_sig c arg in
  let params := balance_proof_params (contractAddress (client (world s))) c
                                     (proof c) in
  (state info <> opened ->
     closeChannel chain token provider recover hash polls arg s
     = (Refused ClosingClosedChannel, mkSession w1 (ledger s)))
  /\ (forall txHash s',
        closeChannel chain token provider recover hash polls arg s
        = (Done txHash, s') ->
        state info = opened
        /\ exists p c' receipt,
             ledger s' = (ledger s ++ [Submit (close_tx c p closing)])%list
             /\ submitTx token (close_tx c p closing) = inr txHash
             /\ mined chain polls txHash 0 receipt
             /\ balance p = balance (proof c)
             /\ (JS.truthy closing = false \/ JS.truthy (sig (proof c)) = true ->
                 p = proof c)
             /\ (JS.truthy closing = true ->
                 JS.truthy (sig (proof c)) = false ->
                 exists sg,
                   p = with_sig (proof c) sg
                   /\ recover params sg = inr (account c))
             /\ channel (client (world s')) = Some c'
             /\ proof c' = p
             /\ (JS.truthy closing = true -> closing_sig c' = closing)
             /\ (JS.truthy closing = false -> c' = c))
  /\ (forall p txHash receipt,
        state info = opened ->
        (JS.truthy closing && negb (JS.truthy (sig (proof c))) = false
         /\ p = proof c)
        \/ (JS.truthy closing = true /\ JS.truthy (sig (proof c)) = false
            /\ exists sg,
                 eth_signTypedData provider params (account c) = Replied sg
                 /\ recover params sg = inr (account c)
                 /\ p = with_sig (proof c) sg) ->
        submitTx token (close_tx c p closing) = inr txHash ->
        mined chain polls txHash 0 receipt ->
        exists s',
          closeChannel chain token provider recover hash polls arg s
          = (Done txHash, s')
          /\ ledger s' = (ledger s ++ [Submit (close_tx c p closing)])%list).
Proof.
  intros Hc Hv Hinfo closing params.
  assert (Hcs : forall c2, c2 = closing_channel c arg ->
                  (JS.truthy closing = true -> closing_sig c2 = closing)
                  /\ (JS.truthy closing = false -> c2 = c)).
  { intros c2 ->. subst closing.
    unfold closing_channel, effective_closing_sig.
    destruct (JS.truthy (closing_sig c)) eqn:E.
    - split; [reflexivity|]. intros H. rewrite E in H. discriminate H.
    - split; intros ->; reflexivity. }
  assert (Hp2 : proof (closing_channel c arg) = proof c).
  { unfold closing_channel. destruct (JS.truthy (closing_sig c)); [reflexivity|].
    destruct (JS.truthy arg); reflexivity. }
  destruct (state info) eqn:Hst.
  - (* opened *)
    destruct (closeChannel_opened chain token provider recover hash polls arg
                s c info w1 Hc Hv Hinfo Hst) as [Hc2 Hrun].
    cbv zeta in Hc2, Hrun. fold closing params in Hrun.
    set (c2 := closing_channel c arg) in *.
    set (w2 := if JS.truthy (closing_sig c) then w1
               else if JS.truthy arg then stored c2 w1 else w1) in *.
    destruct (Hcs c2 eq_refl) as [Hcs1 Hcs2].
    clearbody w2.
    split; [intros H; congruence|]. split.
    + intros txHash s' H. split; [reflexivity|].
      rewrite Hrun in H. clear Hrun.
      destruct (JS.truthy closing && negb (JS.truthy (sig (proof c)))) eqn:Hsign.
      * apply andb_prop in Hsign as [Hcl Hns]. apply negb_true_iff in Hns.
        destruct (fst (request_signature provider hash params (account c) w2))
          as [sg|e|]; try discriminate H.
        destruct (recover params sg) as [message|recovered] eqn:Hrec0;
          [discriminate H|].
        destruct (String.eqb recovered (account c)) eqn:Hrec;
          [|discriminate H].
        apply String.eqb_eq in Hrec. subst recovered.
        destruct (submitTx token _) as [m|h] eqn:Hsub; [discriminate H|].
        match type of H with
        | context [waitTx chain polls h 0 ?w] =>
            pose proof (waitTx_world chain polls h 0 w) as Hww;
            pose proof (waitTx_mined chain polls h 0 w) as Hmined;
            destruct (waitTx chain polls h 0 w) as [[receipt|e|] w3]
        end; simpl in Hww; subst w3; try discriminate H.
        injection H as <- <-.
        exists (with_sig (proof c) sg). eexists. exists receipt.
        cbn [world ledger].
        split; [reflexivity|]. split; [exact Hsub|].
        split; [apply Hmined; reflexivity|]. split; [reflexivity|].
        split; [intros [E|E]; congruence|].
        split; [intros _ _; exists sg; split; [reflexivity|exact Hrec0]|].
        split; [reflexivity|]. split; [reflexivity|].
        split; [intros _; simpl; apply Hcs1; exact Hcl|].
        intros E. congruence.
      * destruct (submitTx token _) as [m|h] eqn:Hsub; [discriminate H|].
        match type of H with
        | context [waitTx chain polls h 0 ?w] =>
            pose proof (waitTx_world chain polls h 0 w) as Hww;
            pose proof (waitTx_mined chain polls h 0 w) as Hmined;
            destruct (waitTx chain polls h 0 w) as [[receipt|e|] w3]
        end; simpl in Hww; subst w3; try discriminate H.
        injection H as <- <-.
        exists (proof c), c2, receipt. cbn [world ledger].
        split; [reflexivity|]. split; [exact Hsub|].
        split; [apply Hmined; reflexivity|]. split; [reflexivity|].
        split; [reflexivity|].
        split.
        { intros Hcl Hns. rewrite Hcl, Hns in Hsign. discriminate Hsign. }
        split; [exact Hc2|]. split; [exact Hp2|].
        split; [exact Hcs1|exact Hcs2].
    + intros p txHash receipt _ Hcase Hsub Hmined. rewrite Hrun. clear Hrun.
      destruct Hcase as [[Hsign ->]|(Hcl & Hns & sg & Hreq & Hrec & ->)].
      * rewrite Hsign, Hsub.
        apply (waitTx_mined chain polls txHash 0 w2) in Hmined.
        rewrite Hmined. eexists. split; reflexivity.
      * rewrite Hcl, Hns. cbn [negb andb].
        rewrite (request_signature_replied provider hash params (account c) sg
                   w2 Hreq).
        cbn [fst]. rewrite Hrec, String.eqb_refl, Hsub.
        match goal with
        | |- context [waitTx chain polls txHash 0 ?w] =>
            apply (waitTx_mined chain polls txHash 0 w) in Hmined
        end.
        rewrite Hmined. eexists. split; reflexivity.
  - (* closed *)
    assert (Hrun : closeChannel chain token provider recover hash polls arg s
                   = (Refused ClosingClosedChannel, mkSession w1 (ledger s))).
    { unfold closeChannel.
      unfold mbind at 1, L_bind at 1. rewrite lift_run, isChannelValid_run, Hc, Hv.
      cbn [fst snd negb world ledger]. cbv beta iota.
      unfold mbind at 1, L_bind at 1. rewrite lift_run. cbn [world ledger].
      rewrite Hinfo. cbn [fst snd]. rewrite Hst. reflexivity. }
    rewrite Hrun. split; [reflexivity|].
    split; [intros ? ? H; discriminate H|].
    intros ? ? ? H; discriminate H.
  - (* settled *)
    assert (Hrun : closeChannel chain token provider recover hash polls arg s
                   = (Refused ClosingClosedChannel, mkSession w1 (ledger s))).
    { unfold closeChannel.
      unfold mbind at 1, L_bind at 1. rewrite lift_run, isChannelValid_run, Hc, Hv.
      cbn [fst snd negb world ledger]. cbv beta iota.
      unfold mbind at 1, L_bind at 1. rewrite lift_run. cbn [world ledger].
      rewrite Hinfo. cbn [fst snd]. rewrite Hst. reflexivity. }
    rewrite Hrun. split; [reflexivity|].
    split; [intros ? ? H; discriminate H|].
    intros ? ? ? H; discriminate H.
Qed.

Lemma openChannel_correct_witness :
  let c := mkChannel Fixtures.alice Fixtures.bob 21 (mkProof 0 None) None None in
  openChannel Fixtures.mining_chain Tokens.erc20 2 Fixtures.alice Fixtures.bob 30
              (Tokens.session_of (Fixtures.world_of None))
  = (Done c,
     mkSession
       (stored c (called [CallGetChannelInfo Fixtures.alice Fixtures.bob 21]
                         (Fixtures.world_of None)))
       ([] ++ CallBalanceOf Fixtures.alice
           :: map Submit (funding Tokens.erc20 Fixtures.manager
                                  Fixtures.alice Fixtures.bob 30))).
Proof.
  intros c.
  destruct (openChannel_correct Fixtures.mining_chain Tokens.erc20 2
              Fixtures.alice Fixtures.bob 30
              (Tokens.session_of (Fixtures.world_of None))) as (_ & Hdone & _).
  apply Hdone. exists 100, "0x7b", 21%N, 50, 0.
  split; [reflexivity|]. split; [lia|]. split; [reflexivity|].
  split.
  { exists 1%nat. split; [lia|]. split.
    - split; [reflexivity|]. split; [discriminate|]. simpl. lia.
    - intros [|j] r Hj (H1 & _ & H3); [|lia].
      injection H1 as <-. simpl in H3. lia. }
  split; [reflexivity|]. split; [lia|]. split; reflexivity.
Defined.

Lemma topUpChannel_correct_witness :
  topUpChannel Fixtures.mining_chain Tokens.erc223 2 30
               (Tokens.session_of (Fixtures.world_of (Some Fixtures.fresh)))
  = (Done "0x7b",
     mkSession (Fixtures.world_of (Some Fixtures.fresh))
       ([] ++ CallBalanceOf Fixtures.alice
           :: map Submit (topping Tokens.erc223 Fixtures.manager
                                  Fixtures.fresh 30))).
Proof.
  destruct (topUpChannel_correct Fixtures.mining_chain Tokens.erc223 2 30
              (Tokens.session_of (Fixtures.world_of (Some Fixtures.fresh))))
    as (_ & _ & _ & Hdone).
  apply Hdone. exists Fixtures.fresh, 100, 21%N.
  split; [reflexivity|]. split; [reflexivity|]. split; [reflexivity|].
  split; [lia|]. split; [reflexivity|].
  split; [|reflexivity].
  exists 1%nat. split; [lia|]. split.
  - split; [reflexivity|]. split; [discriminate|]. simpl. lia.
  - intros [|j] r Hj (H1 & _ & H3); [|lia].
    injection H1 as <-. simpl in H3. lia.
Defined.

Lemma closeChannel_correct_witness :
  let signed := with_sig (proof Fixtures.fresh) (Fixtures.sig65 "51") in
  let closing := Some (Fixtures.sig65 "c1") in
  exists s',
    closeChannel Fixtures.open_chain Tokens.erc20 Fixtures.wallet
                 Fixtures.recover_alice Fixtures.hash0 1 closing
                 (Tokens.session_of (Fixtures.world_of (Some Fixtures.fresh)))
    = (Done "0x7b", s')
    /\ ledger s'
       = ([] ++ [Submit (CooperativeClose Fixtures.bob 10 0
                           (Some (Fixtures.sig65 "51")) closing
                           Fixtures.alice 120000)])%list.
Proof.
  intros signed closing.
  destruct (closeChannel_correct Fixtures.open_chain Tokens.erc20
              Fixtures.wallet Fixtures.recover_alice Fixtures.hash0 1 closing
              (Tokens.session_of (Fixtures.world_of (Some Fixtures.fresh)))
              Fixtures.fresh (mkInfo opened 10 50 0)
              (called [close_query Fixtures.fresh;
                       settle_query Fixtures.open_chain Fixtures.fresh;
                       view_call Fixtures.fresh]
                      (Fixtures.world_of (Some Fixtures.fresh)))
              eq_refl eq_refl eq_refl) as (_ & _ & Hdone).
  apply (Hdone signed "0x7b" 21%N).
  - reflexivity.
  - right. split; [reflexivity|]. split; [reflexivity|].
    exists (Fixtures.sig65 "51"). repeat split.
  - reflexivity.
  - exists 0%nat. split; [lia|]. split.
    + split; [reflexivity|]. split; [discriminate|]. simpl. lia.
    + intros j r Hj. lia.
Defined.

(** ** Failures change nothing *)

Lemma signNewProof_failure (provider : Provider)
      (recover : list TypedData -> string -> string + string)
      (hash : list TypedData -> string) (arg : option MicroProof) (w : World)
      (e : Error) :
  fst (signNewProof provider recover hash arg w) = Throw e ->
  snd (signNewProof provider recover hash arg w) = w.
Proof.
  destruct (channel_valid (channel (client w))) eqn:Hv;
    [|rewrite signNewProof_invalid by exact Hv; reflexivity].
  destruct (channel (client w)) as [c|] eqn:Hc; [|discriminate Hv].
  assert (Hgen : forall p,
             fst (signNewProof provider recover hash (Some p) w) = Throw e ->
             snd (signNewProof provider recover hash (Some p) w) = w).
  { intros p. destruct (JS.truthy (sig p)) eqn:Hp.
    - rewrite signNewProof_signed; [reflexivity|rewrite Hc; exact Hv|exact Hp].
    - rewrite (signNewProof_run provider recover hash w c p Hc Hv Hp).
      cbv zeta.
      destruct (fst (request_signature provider hash _ (account c) w));
        try reflexivity.
      destruct (recover _ _); [reflexivity|].
      destruct (String.eqb _ (account c)); [discriminate|reflexivity]. }
  destruct arg as [p|]; [apply Hgen|].
  rewrite (signNewProof_default provider recover hash w c Hc). apply Hgen.
Qed.

(** X21.  The proof operations are all or nothing: when
    [confirmPayment], [setBalance], [signNewProof] or
    [incrementBalanceAndSign] fails, and when [verifyProof] fails or
    returns false, the tracked channel and localStorage are exactly as
    before. *)
Theorem failure_changes_nothing (chain : Chain) (provider : Provider)
        (recover : list TypedData -> string -> string + string)
        (hash : list TypedData -> string) (w : World) :
  (forall p e, fst (confirmPayment p w) = Throw e ->
               snd (confirmPayment p w) = w)
  /\ (forall value e, fst (setBalance value w) = Throw e ->
                      snd (setBalance value w) = w)
  /\ (forall p, fst (verifyProof recover p w) <> Ok true ->
                snd (verifyProof recover p w) = w)
  /\ (forall arg e,
        fst (signNewProof provider recover hash arg w) = Throw e ->
        snd (signNewProof provider recover hash arg w) = w)
  /\ (forall amount e,
        fst (incrementBalanceAndSign chain provider recover hash amount w)
        = Throw e ->
        client (snd (incrementBalanceAndSign chain provider recover hash
                       amount w)) = client w
        /\ localStorage (snd (incrementBalanceAndSign chain provider recover
                                hash amount w)) = localStorage w).
Proof.
  split; [|split; [|split; [|split]]].
  - intros p e. rewrite confirmPayment_run.
    destruct (channel (client w)) as [c|]; [|reflexivity].
    destruct (next_proof c) as [np|]; [|reflexivity].
    destruct (_ && _); [discriminate|reflexivity].
  - intros value e. rewrite setBalance_run.
    destruct (channel (client w)) as [c|]; [|reflexivity].
    destruct (_ =? _); [reflexivity|discriminate].
  - intros p. rewrite verifyProof_run.
    destruct (JS.truthy (sig p)); [|reflexivity].
    destruct (channel (client w)) as [c|]; [|reflexivity].
    destruct (recover _ _); [reflexivity|].
    destruct (String.eqb _ _); [intros H; exfalso; apply H; reflexivity|reflexivity].
  - intros arg e. apply signNewProof_failure.
  - intros amount e.
    destruct (channel_valid (channel (client w))) eqn:Hv;
      [|rewrite incrementBalanceAndSign_invalid by exact Hv; split; reflexivity].
    destruct (channel (client w)) as [c|] eqn:Hc; [|discriminate Hv].
    rewrite (incrementBalanceAndSign_run chain provider recover hash amount w c
               Hc Hv).
    destruct (getChannelInfo_frame chain None w) as (cs & Hw1 & _ & _).
    destruct (getChannelInfo chain None w) as [[info|e0|] w1];
      simpl in Hw1; subst w1; try (intros _; split; reflexivity).
    destruct (state info); try (intros _; split; reflexivity).
    destruct (_ <? _); [intros _; split; reflexivity|].
    intros H. rewrite (signNewProof_failure _ _ _ _ _ _ H). split; reflexivity.
Qed.

Lemma failure_changes_nothing_witness :
  snd (confirmPayment (mkProof 7 (Some "0xbad"))
         (Fixtures.world_of (Some Fixtures.paying)))
  = Fixtures.world_of (Some Fixtures.paying).
Proof.
  destruct (failure_changes_nothing Fixtures.open_chain Fixtures.wallet
              Fixtures.recover_alice Fixtures.hash0
              (Fixtures.world_of (Some Fixtures.paying))) as [Hconfirm _].
  apply (Hconfirm (mkProof 7 (Some "0xbad")) InvalidNextSignature).
  reflexivity.
Defined.
